(** * mcp-reasoner: the strategy layer, the dispatcher and the engine boundary

    A shallow embedding of the TypeScript sources

      - [strategies/a-star.ts]                  (module [AStar])
      - [strategies/constraint-satisfaction.ts] (module [CSP])
      - [strategies/hybrid.ts]                  (module [Hybrid])
      - [reasoner.ts]                           (module [Reasoner])
      - [engine.ts]                             (module [Engine])
      - [types.ts]                              (records below)

    followed by the properties of the design document that concern them.

    Conventions of the embedding.

    - A JavaScript [number] is a rational ([Q]); rounding, NaN and the
      infinities of IEEE doubles are not part of the model, except for
      the [-Infinity] that [Math.max()] returns on no argument, which
      has its own constructor in [Num], and for the uncertainty signal
      of the hybrid strategy, whose numerical value is the subject of
      a statement: that method is given a second time in binary64, on
      primitive floats ([Double], [Hybrid.uncertaintyOf64]).
    - A [Map<string, V>] is an association list in insertion order with
      unique keys: iteration order is observable in the sources (first
      minimum, [slice(-10)], first maximum).
    - A method is a function from the object's fields before the call to
      the fields after it together with either the thrown exception or
      the returned value ([Js]).  What was mutated before a [throw]
      stays mutated.
    - [uuidv4()] is an input of the method that calls it.
    - [async]/[await] is plain call and return: every call in the
      sources is awaited at once. *)

From Stdlib Require Import Floats.
From Stdlib Require Import List String Ascii Bool Arith Lia QArith Qpower Qminmax Lqa DecimalString.
Import ListNotations.
Local Open Scope string_scope.
Local Open Scope list_scope.
Local Open Scope Q_scope.

Set Implicit Arguments.

(** ** JavaScript values, objects and maps *)

#[local] Unset Elimination Schemes.
Inductive JsVal : Type :=
| JUndefined
| JNull
| JBool (b : bool)
| JNum (q : Q)
| JStr (s : string)
| JArr (a : list JsVal)
| JObj (o : list (string * JsVal)).
#[local] Set Elimination Schemes.

(** A plain object used as a [Record<string, unknown>]. *)
Definition JsObject := list (string * JsVal).

(** [ToBoolean]: what [if (v)], [!v] and [v || d] test. *)
Definition truthy (v : JsVal) : bool :=
  match v with
  | JUndefined | JNull => false
  | JBool b => b
  | JNum q => negb (Qeq_bool q 0)
  | JStr s => negb (s =? "")%string
  | JArr _ | JObj _ => true
  end.

(** [s ? ... : ...] and [if (s)] on an optional string: the empty string
    counts as absent. *)
Definition truthyStr (o : option string) : option string :=
  match o with
  | Some s => if (s =? "")%string then None else Some s
  | None => None
  end.

Definition indexKey (i : nat) : string :=
  NilEmpty.string_of_uint (Nat.to_uint i).

Fixpoint indexed {A} (i : nat) (l : list A) : list (string * A) :=
  match l with
  | [] => []
  | x :: r => (indexKey i, x) :: indexed (S i) r
  end.

Fixpoint chars (s : string) : list JsVal :=
  match s with
  | EmptyString => []
  | String c r => JStr (String c EmptyString) :: chars r
  end.

(** [obj[key]]: the first binding of [key], [undefined] when there is none. *)
Fixpoint prop (key : string) (o : JsObject) : JsVal :=
  match o with
  | [] => JUndefined
  | (k, v) :: r => if (k =? key)%string then v else prop key r
  end.

(** [s.length], the number of UTF-16 code units of [s], for a string
    held as its UTF-8 bytes: a byte that starts a character counts for
    one unit, the first byte of a four-byte character for two, a
    continuation byte for none. *)
Fixpoint utf16Length (s : string) : nat :=
  match s with
  | EmptyString => 0%nat
  | String c r =>
      let b := nat_of_ascii c in
      ((if (b <? 128)%nat || (192 <=? b)%nat
        then (if (240 <=? b)%nat then 2 else 1)
        else 0) + utf16Length r)%nat
  end.

(** The string keys that an object literal inherits from
    [Object.prototype]. *)
Definition Object_prototype : list string :=
  ["constructor"; "__defineGetter__"; "__defineSetter__"; "hasOwnProperty";
   "__lookupGetter__"; "__lookupSetter__"; "isPrototypeOf";
   "propertyIsEnumerable"; "toString"; "valueOf"; "__proto__";
   "toLocaleString"].

(** [o[key]] on an object literal whose own properties are [o]: an own
    property, a property inherited from [Object.prototype], or
    [undefined]. *)
Inductive Member (V : Type) : Type :=
| Own (v : V)
| Inherited
| Missing.
Arguments Own {V}.
Arguments Inherited {V}.
Arguments Missing {V}.

Definition member {V} (key : string) (o : list (string * V)) : Member V :=
  match find (fun kv => (fst kv =? key)%string) o with
  | Some kv => Own (snd kv)
  | None =>
      if existsb (String.eqb key) Object_prototype then Inherited else Missing
  end.

(** [Object.entries(v || {})]. *)
Definition entriesOrEmpty (v : JsVal) : list (string * JsVal) :=
  if truthy v then
    match v with
    | JObj o => o
    | JArr a => indexed 0 a
    | JStr s => indexed 0 (chars s)
    | _ => []
    end
  else [].

Section JsMap.
Variable V : Type.

Definition JsMap := list (string * V).

Fixpoint Map_get (k : string) (m : JsMap) : option V :=
  match m with
  | [] => None
  | (k', v) :: r => if (k' =? k)%string then Some v else Map_get k r
  end.

Definition Map_has (k : string) (m : JsMap) : bool :=
  match Map_get k m with Some _ => true | None => false end.

(** [m.set(k, v)]: an existing key keeps its place. *)
Fixpoint Map_set (k : string) (v : V) (m : JsMap) : JsMap :=
  match m with
  | [] => [(k, v)]
  | (k', v') :: r =>
      if (k' =? k)%string then (k, v) :: r else (k', v') :: Map_set k v r
  end.

Definition Map_delete (k : string) (m : JsMap) : JsMap :=
  filter (fun kv => negb (fst kv =? k)%string) m.

Definition Map_keys (m : JsMap) : list string := map fst m.
Definition Map_values (m : JsMap) : list V := map snd m.
Definition Map_size (m : JsMap) : nat := List.length m.
End JsMap.

Arguments Map_get {V}.
Arguments Map_has {V}.
Arguments Map_set {V}.
Arguments Map_delete {V}.
Arguments Map_keys {V}.
Arguments Map_values {V}.
Arguments Map_size {V}.

(** [set] once per entry, in order: what a [for ... of Object.entries]
    loop of [set] calls does. *)
Definition Map_setAll {V} (es : list (string * V)) (m : JsMap V) : JsMap V :=
  fold_left (fun acc e => Map_set (fst e) (snd e) acc) es m.

(** ** Numbers *)

(** The result of [Math.max(...xs)]: [-Infinity] on the empty list. *)
Inductive Num : Type :=
| NegInfinity
| Fin (q : Q).

Definition Qmaxb (a b : Q) : Q := if Qle_bool a b then b else a.

Definition Math_max (xs : list Q) : Num :=
  fold_left (fun acc x => match acc with
                          | NegInfinity => Fin x
                          | Fin a => Fin (Qmaxb a x)
                          end) xs NegInfinity.

(** ** Binary64 numbers *)

Module Double.

Definition intSF (z : Z) : spec_float :=
  match z with
  | Z0 => S754_zero false
  | Zpos p => S754_finite false p 0
  | Zneg p => S754_finite true p 0
  end.

(** The double that a number of the embedding stands for: the double
    nearest to it (ties to even), which is the number itself when it
    is a double. *)
Definition ofQ (q : Q) : float :=
  SF2Prim (SF64div (intSF (Qnum q)) (intSF (Zpos (Qden q)))).

(** A length as a double. *)
Definition ofNat (n : nat) : float := ofQ (inject_Z (Z.of_nat n)).

(** [Math.pow(x, 2)], which the engine computes as [x * x]. *)
Definition square (x : float) : float := (x * x)%float.

(** [Math.min(a, b)]: NaN when an argument is NaN, [-0] below [+0]. *)
Definition Math_min (a b : float) : float :=
  if is_nan a || is_nan b then nan
  else if is_zero a && is_zero b && get_sign b then b
  else if (b <? a)%float then b else a.

End Double.

(** ** Exceptions and the method monad *)

Inductive ErrorKind : Type :=
| NotFound
| CycleDetected
| UnknownStrategy
| OtherError.

(** What a [throw] carries: an [Error] object with its [message], or
    any other value. *)
Inductive Exn : Type :=
| JsError (kind : ErrorKind) (message : string)
| JsThrown (v : JsVal).

Definition Js (W A : Type) : Type := W -> W * (Exn + A).

Definition ret {W A} (a : A) : Js W A := fun w => (w, inr a).

Definition bind {W A B} (c : Js W A) (k : A -> Js W B) : Js W B :=
  fun w => match c w with
           | (w', inl e) => (w', inl e)
           | (w', inr a) => k a w'
           end.

Definition throw {W A} (e : Exn) : Js W A := fun w => (w, inl e).
Definition gets {W A} (f : W -> A) : Js W A := fun w => (w, inr (f w)).
Definition modify {W} (f : W -> W) : Js W unit := fun w => (f w, inr tt).

(** A computation that may throw and does not touch the fields. *)
Definition lift {W A} (r : Exn + A) : Js W A := fun w => (w, r).

Declare Scope js_scope.
Delimit Scope js_scope with js.
Notation "x <- c ;; k" := (bind c (fun x => k))
  (at level 61, c at next level, right associativity) : js_scope.
Notation "c ;; k" := (bind c (fun _ => k))
  (at level 61, right associativity) : js_scope.

(** ** types.ts *)

Record ThoughtNode : Type := {
  id : string;
  thought : string;
  score : Q;
  depth : Q;
  children : list string;
  parentId : option string;
  isComplete : bool;
  evaluations : option JsObject;
  simulationResults : option JsObject;
  heuristicValue : option Q;
  constraints : option JsObject
}.

Record ReasoningRequest : Type := {
  req_thought : string;
  thoughtNumber : Q;
  totalThoughts : Q;
  nextThoughtNeeded : bool;
  req_parentId : option string;
  strategyType : option string;
  branchingFactor : option Q;
  req_evaluations : option JsObject;
  evaluationMetrics : option (list string);
  req_constraints : option JsObject;
  (* GameDevReasoningRequest *)
  req_problemType : option string;
  inContextExamples : option (list ThoughtNode)
}.

(** What [alignmentMap[problemType]?.[strategy] || 0.5] evaluates to.
    The map and its rows are object literals, so a key that is not
    their own is looked up in [Object.prototype]: the result is then a
    value built into the engine (a method of [Object.prototype], a
    property of such a method), which the embedding names by the keys
    looked up, the first of them the inherited one, and does not
    evaluate. *)
Inductive Alignment : Type :=
| Aligned (q : Q)
| BuiltIn (keys : list string).

Record ReasoningResponse : Type := {
  nodeId : string;
  res_thought : string;
  res_score : Q;
  res_depth : Q;
  res_isComplete : bool;
  res_nextThoughtNeeded : bool;
  possiblePaths : option Q;
  bestScore : option Num;
  strategyUsed : option string;
  openSetSize : option nat;
  closedSetSize : option nat;
  estimatedDistanceToGoal : option Q;
  totalCost : option Q;
  constraintsSatisfied : option bool;
  unassignedVariables : option (list string);
  currentAssignments : option JsObject;
  activeStrategy : option string;
  availableStrategies : option (list string);
  hybridInfo : option (Q * Q * Q);
  recommendedNextSteps : option (list string);
  problemType : option string;
  gameDevMetrics : option (option Q * option (list string) * Alignment)
}.

(** The six required fields, every optional field absent. *)
Definition plainResponse (i t : string) (s d : Q) (c n : bool) : ReasoningResponse :=
  {| nodeId := i; res_thought := t; res_score := s; res_depth := d;
     res_isComplete := c; res_nextThoughtNeeded := n;
     possiblePaths := None; bestScore := None; strategyUsed := None;
     openSetSize := None; closedSetSize := None;
     estimatedDistanceToGoal := None; totalCost := None;
     constraintsSatisfied := None; unassignedVariables := None;
     currentAssignments := None; activeStrategy := None;
     availableStrategies := None; hybridInfo := None;
     recommendedNextSteps := None; problemType := None;
     gameDevMetrics := None |}.

(** [node.children.push(c)] on the node object. *)
Definition pushChild (c : string) (n : ThoughtNode) : ThoughtNode :=
  {| id := id n; thought := thought n; score := score n; depth := depth n;
     children := children n ++ [c]; parentId := parentId n;
     isComplete := isComplete n; evaluations := evaluations n;
     simulationResults := simulationResults n;
     heuristicValue := heuristicValue n; constraints := constraints n |}.

Definition setScore (q : Q) (n : ThoughtNode) : ThoughtNode :=
  {| id := id n; thought := thought n; score := q; depth := depth n;
     children := children n; parentId := parentId n;
     isComplete := isComplete n; evaluations := evaluations n;
     simulationResults := simulationResults n;
     heuristicValue := heuristicValue n; constraints := constraints n |}.

Definition setHeuristicValue (h : Q) (n : ThoughtNode) : ThoughtNode :=
  {| id := id n; thought := thought n; score := score n; depth := depth n;
     children := children n; parentId := parentId n;
     isComplete := isComplete n; evaluations := evaluations n;
     simulationResults := simulationResults n;
     heuristicValue := Some h; constraints := constraints n |}.

(** [path.reduce((acc, n) => acc + n.score, 0)]. *)
Definition sumScores (path : list ThoughtNode) : Q :=
  fold_left (fun acc n => acc + score n) path 0.

(** [h || 0] on the optional [heuristicValue]: an absent value and the
    number zero both give zero, any other number gives itself. *)
Definition orZero (h : option Q) : Q :=
  match h with
  | Some q => q
  | None => 0
  end.

(** ** The thought store (state.ts) *)

Module StateManager.

(** Modelled from the spec: the [StateManager] class, whose source
    file is absent.  Section 4.1: a node table with insert-or-overwrite
    by id, point lookup, full scan in insertion order, root-to-node
    path reconstruction and a capacity bound under which the oldest
    inserted nodes are evicted first. *)
Record t : Type := {
  capacity : nat;
  nodes : list ThoughtNode
}.

Definition new (cacheSize : nat) : t :=
  {| capacity := cacheSize; nodes := [] |}.

(** Modelled from the spec: [get(id) -> node | not-found]. *)
Definition getNode (i : string) (s : t) : option ThoughtNode :=
  find (fun n => (id n =? i)%string) (nodes s).

(** Modelled from the spec: when the insert count exceeds the bound,
    the least recently inserted nodes go first. *)
Definition evict (c : nat) (l : list ThoughtNode) : list ThoughtNode :=
  skipn (List.length l - c) l.

(** Modelled from the spec: [put(node)], insert or overwrite by id,
    then capacity enforcement. *)
Definition saveNode (n : ThoughtNode) (s : t) : t :=
  if existsb (fun m => (id m =? id n)%string) (nodes s)
  then {| capacity := capacity s;
          nodes := map (fun m => if (id m =? id n)%string then n else m)
                       (nodes s) |}
  else {| capacity := capacity s;
          nodes := evict (capacity s) (nodes s ++ [n]) |}.

(** Modelled from the spec: [getAll()]. *)
Definition getAllNodes (s : t) : list ThoughtNode := nodes s.

(** Modelled from the spec: the upward walk of [getPath]; an id that
    the walk meets and the store does not hold is NotFound (section
    7), and the walk visits at most [fuel] nodes. *)
Fixpoint walk (s : t) (fuel : nat) (i : string) (acc : list ThoughtNode)
  : Exn + list ThoughtNode :=
  match fuel with
  | O => inl (JsError CycleDetected "Cycle detected in parent links")
  | S f =>
      match getNode i s with
      | None => inl (JsError NotFound ("Node not found: " ++ i)%string)
      | Some n =>
          match parentId n with
          | None => inr (n :: acc)
          | Some p => walk s f p (n :: acc)
          end
      end
  end.

(** Modelled from the spec: [getPath(id)], the sequence from the root
    to [id]; NotFound when [id] is absent, CycleDetected when the walk
    is longer than the capacity. *)
Definition getPath (i : string) (s : t) : Exn + list ThoughtNode :=
  match getNode i s with
  | None => inl (JsError NotFound ("Node not found: " ++ i)%string)
  | Some _ => walk s (capacity s) i []
  end.

(** Modelled from the spec: [clear()]. *)
Definition clear (s : t) : t :=
  {| capacity := capacity s; nodes := [] |}.

End StateManager.

(** ** strategies/base.ts *)

(** Modelled from the spec: the members of [BaseStrategy] that the
    strategies below inherit and whose source file is absent.
    [evaluateThought] is the shared scoring function of (node, parent)
    of section 4.2; [baseClear] is the effect of [BaseStrategy.clear()]
    on the store; the two other strategies of the dispatch table, whose
    files are absent too, keep no index of their own (section 3) and so
    are methods over the store alone. *)
Class BaseStrategy : Type := {
  evaluateThought : ThoughtNode -> option ThoughtNode -> Q;
  baseClear : StateManager.t -> StateManager.t;
  BeamSearch_processThought :
    string -> ReasoningRequest -> Js StateManager.t ReasoningResponse;
  MCTS_processThought :
    string -> ReasoningRequest -> Js StateManager.t ReasoningResponse
}.

(** ECMAScript's [x < y] for operands that are not both numbers.  The
    operands are converted first (a string is parsed, two strings are
    compared by code units, an object goes through its [valueOf] and
    [toString]) by rules of the language that are no part of this
    repository, and a conversion can throw.  [None] as the right
    operand stands for [Number.POSITIVE_INFINITY]. *)
Class Engine : Type := {
  lessThanCoerced : JsVal -> option JsVal -> Exn + bool
}.

(** ** strategies/a-star.ts *)

Module AStar.
Section AStar.
Context {base : BaseStrategy}.
Local Open Scope js_scope.

(** The fields of an [AStarSearchStrategy]; [stateManager] is the
    store shared with the other strategies.  The node objects of the
    two sets are the objects of the store; the one field mutated after
    creation is [children], which nothing reads through the sets, so
    the sets hold node values. *)
Record t : Type := {
  stateManager : StateManager.t;
  openSet : JsMap ThoughtNode;
  closedSet : JsMap ThoughtNode
}.

Definition new (sm : StateManager.t) : t :=
  {| stateManager := sm; openSet := []; closedSet := [] |}.

Definition withStore (f : StateManager.t -> StateManager.t) (w : t) : t :=
  {| stateManager := f (stateManager w);
     openSet := openSet w; closedSet := closedSet w |}.

Definition withOpen (f : JsMap ThoughtNode -> JsMap ThoughtNode) (w : t) : t :=
  {| stateManager := stateManager w;
     openSet := f (openSet w); closedSet := closedSet w |}.

Definition withClosed (f : JsMap ThoughtNode -> JsMap ThoughtNode) (w : t) : t :=
  {| stateManager := stateManager w;
     openSet := openSet w; closedSet := f (closedSet w) |}.

(** [this.getNode], [this.saveNode], [this.stateManager.getPath]. *)
Definition getNode (i : string) : Js t (option ThoughtNode) :=
  gets (fun w => StateManager.getNode i (stateManager w)).

Definition saveNode (n : ThoughtNode) : Js t unit :=
  modify (withStore (StateManager.saveNode n)).

Definition getPath (i : string) : Js t (list ThoughtNode) :=
  fun w => (w, StateManager.getPath i (stateManager w)).

Definition _calculateHeuristic (node : ThoughtNode) (request : ReasoningRequest) : Q :=
  let totalSteps :=
    if Qeq_bool (totalThoughts request) 0 then 10 else totalThoughts request in
  let remainingSteps := totalSteps - depth node in
  let qualityFactor := 1 - (score node / 10) in
  remainingSteps * qualityFactor.

(** [f(n) = g(n) + h(n)] as the loop body computes it. *)
Definition fScore (node : ThoughtNode) : Js t Q :=
  path <- getPath (id node) ;;
  ret (sumScores path + orZero (heuristicValue node)).

(** The [for ... of this.openSet.values()] loop; the accumulator is
    [(lowestF, currentNode)], [None] standing for [(Infinity, null)]. *)
Fixpoint lowestLoop (ns : list ThoughtNode) (acc : option (Q * ThoughtNode))
  : Js t (option (Q * ThoughtNode)) :=
  match ns with
  | [] => ret acc
  | node :: rest =>
      f <- fScore node ;;
      match acc with
      | None => lowestLoop rest (Some (f, node))
      | Some (lowestF, _) =>
          if Qlt_le_dec f lowestF
          then lowestLoop rest (Some (f, node))
          else lowestLoop rest acc
      end
  end.

Definition _processAStarStep : Js t unit :=
  open <- gets openSet ;;
  if (Map_size open =? 0)%nat then ret tt
  else
    found <- lowestLoop (Map_values open) None ;;
    match found with
    | None => ret tt
    | Some (_, currentNode) =>
        modify (withOpen (Map_delete (id currentNode))) ;;
        modify (withClosed (Map_set (id currentNode) currentNode)) ;;
        if isComplete currentNode then ret tt
        else ret tt
    end.

(** The node object literal, then its [score] and [heuristicValue]
    assignments. *)
Definition createNode (nodeId : string) (request : ReasoningRequest)
  (parentNode : option ThoughtNode) : ThoughtNode :=
  let node0 :=
    {| id := nodeId;
       thought := req_thought request;
       depth := thoughtNumber request - 1;
       score := 0;
       children := [];
       parentId := req_parentId request;
       isComplete := negb (nextThoughtNeeded request);
       evaluations := Some (match req_evaluations request with
                            | Some e => e
                            | None => []
                            end);
       simulationResults := None;
       heuristicValue := Some 0;
       constraints := None |} in
  let node1 := setScore (evaluateThought node0 parentNode) node0 in
  setHeuristicValue (_calculateHeuristic node1 request) node1.

(** The object literal that [processThought] returns. *)
Definition respond (node : ThoughtNode) (request : ReasoningRequest)
  (currentPath : list ThoughtNode) (open closed : JsMap ThoughtNode)
  : ReasoningResponse :=
  let pathScore := sumScores currentPath in
  {| nodeId := id node;
     res_thought := thought node;
     res_score := score node;
     res_depth := depth node;
     res_isComplete := isComplete node;
     res_nextThoughtNeeded := nextThoughtNeeded request;
     possiblePaths := None;
     bestScore := Some (Math_max (map score (Map_values open)));
     strategyUsed := None;
     openSetSize := Some (Map_size open);
     closedSetSize := Some (Map_size closed);
     estimatedDistanceToGoal := heuristicValue node;
     totalCost := Some (pathScore + orZero (heuristicValue node));
     constraintsSatisfied := None;
     unassignedVariables := None;
     currentAssignments := None;
     activeStrategy := None;
     availableStrategies := None;
     hybridInfo := None;
     recommendedNextSteps := None;
     problemType := None;
     gameDevMetrics := None |}.

Definition processThought (nodeId : string) (request : ReasoningRequest)
  : Js t ReasoningResponse :=
  parentNode <- match truthyStr (req_parentId request) with
                | Some p => getNode p
                | None => ret None
                end ;;
  let node := createNode nodeId request parentNode in
  saveNode node ;;
  match parentNode with
  | Some p => saveNode (pushChild (id node) p)
  | None => ret tt
  end ;;
  modify (withOpen (Map_set (id node) node)) ;;
  _processAStarStep ;;
  currentPath <- getPath nodeId ;;
  open <- gets openSet ;;
  closed <- gets closedSet ;;
  ret (respond node request currentPath open closed).

(** The first loop of [getBestPath]; [None] stands for
    [(null, -Infinity)]. *)
Fixpoint bestCompleteLoop (ns : list ThoughtNode) (acc : option ThoughtNode)
  : option ThoughtNode :=
  match ns with
  | [] => acc
  | node :: rest =>
      if isComplete node
      then match acc with
           | None => bestCompleteLoop rest (Some node)
           | Some b =>
               if Qlt_le_dec (score b) (score node)
               then bestCompleteLoop rest (Some node)
               else bestCompleteLoop rest acc
           end
      else bestCompleteLoop rest acc
  end.

(** [Promise.all(allNodes.map(async node => ...))]. *)
Fixpoint fScores (ns : list ThoughtNode) : Js t (list (ThoughtNode * Q)) :=
  match ns with
  | [] => ret []
  | node :: rest =>
      f <- fScore node ;;
      fs <- fScores rest ;;
      ret ((node, f) :: fs)
  end.

(** [nodeFScores.reduce(...)] from [{ node: allNodes[0], fScore: Infinity }];
    the accumulator carries [None] for the infinite score. *)
Definition bestFReduce (first : ThoughtNode) (fs : list (ThoughtNode * Q))
  : ThoughtNode * option Q :=
  fold_left (fun best current =>
               match snd best with
               | None => (fst current, Some (snd current))
               | Some bf =>
                   if Qlt_le_dec (snd current) bf
                   then (fst current, Some (snd current))
                   else best
               end) fs (first, None).

Definition getBestPath : Js t (list ThoughtNode) :=
  open <- gets openSet ;;
  closed <- gets closedSet ;;
  let allNodes := Map_values open ++ Map_values closed in
  match bestCompleteLoop allNodes None with
  | Some bestNode => getPath (id bestNode)
  | None =>
      match allNodes with
      | [] => ret []
      | first :: _ =>
          nodeFScores <- fScores allNodes ;;
          getPath (id (fst (bestFReduce first nodeFScores)))
      end
  end.

(** The fields that [getMetrics] adds to the inherited ones. *)
Record Metrics : Type := {
  m_openSetSize : nat;
  m_closedSetSize : nat;
  averageHeuristicValue : Q
}.

Definition getMetrics : Js t Metrics :=
  open <- gets openSet ;;
  closed <- gets closedSet ;;
  ret {| m_openSetSize := Map_size open;
         m_closedSetSize := Map_size closed;
         averageHeuristicValue :=
           fold_left (fun sum node => sum + orZero (heuristicValue node))
                     (Map_values open) 0
           / inject_Z (Z.of_nat (Nat.max 1 (Map_size open))) |}.

Definition clear : Js t unit :=
  modify (withStore baseClear) ;;
  modify (withOpen (fun _ => [])) ;;
  modify (withClosed (fun _ => [])).

(** The operations a caller can apply to the strategy. *)
Inductive Op : Type :=
| OpProcessThought (nodeId : string) (request : ReasoningRequest)
| OpGetBestPath
| OpGetMetrics
| OpClear.

Definition apply (o : Op) (w : t) : t :=
  match o with
  | OpProcessThought i r => fst (processThought i r w)
  | OpGetBestPath => fst (getBestPath w)
  | OpGetMetrics => fst (getMetrics w)
  | OpClear => fst (clear w)
  end.

Definition run (ops : list Op) (w : t) : t :=
  fold_left (fun acc o => apply o acc) ops w.

(** Every id drawn from [uuidv4] along a sequence of operations. *)
Fixpoint drawn (ops : list Op) : list string :=
  match ops with
  | [] => []
  | OpProcessThought i _ :: rest => i :: drawn rest
  | _ :: rest => drawn rest
  end.

(** The ids of the nodes created since the last [clear]. *)
Definition created (ops : list Op) : list string :=
  fold_left (fun acc o => match o with
                          | OpProcessThought i _ => acc ++ [i]
                          | OpClear => []
                          | _ => acc
                          end) ops [].

End AStar.
End AStar.

(** ** strategies/constraint-satisfaction.ts *)

Module CSP.
Section CSP.
Context {base : BaseStrategy} {engine : Engine}.
Local Open Scope js_scope.

(** A registered constraint: a predicate over the value of its
    variable and the object of all current assignments. *)
Definition Constraint := JsVal -> JsObject -> bool.

Record t : Type := {
  stateManager : StateManager.t;
  domains : JsMap JsVal;
  constraints_ : JsMap (list Constraint);
  assignments : JsMap JsVal
}.

Definition new (sm : StateManager.t) : t :=
  {| stateManager := sm; domains := []; constraints_ := []; assignments := [] |}.

Definition withStore (f : StateManager.t -> StateManager.t) (w : t) : t :=
  {| stateManager := f (stateManager w); domains := domains w;
     constraints_ := constraints_ w; assignments := assignments w |}.

Definition withDomains (f : JsMap JsVal -> JsMap JsVal) (w : t) : t :=
  {| stateManager := stateManager w; domains := f (domains w);
     constraints_ := constraints_ w; assignments := assignments w |}.

Definition withConstraints
  (f : JsMap (list Constraint) -> JsMap (list Constraint)) (w : t) : t :=
  {| stateManager := stateManager w; domains := domains w;
     constraints_ := f (constraints_ w); assignments := assignments w |}.

Definition withAssignments (f : JsMap JsVal -> JsMap JsVal) (w : t) : t :=
  {| stateManager := stateManager w; domains := domains w;
     constraints_ := constraints_ w; assignments := f (assignments w) |}.

Definition getNode (i : string) : Js t (option ThoughtNode) :=
  gets (fun w => StateManager.getNode i (stateManager w)).

Definition saveNode (n : ThoughtNode) : Js t unit :=
  modify (withStore (StateManager.saveNode n)).

(** [Object.fromEntries(this.assignments)]. *)
Definition fromEntries (m : JsMap JsVal) : JsObject := m.

(** The two nested loops of [_checkConstraints], with their early
    [return false]. *)
Definition checkVariable (asg : JsMap JsVal) (entry : string * list Constraint) : bool :=
  match Map_get (fst entry) asg with
  | Some value => forallb (fun c => c value (fromEntries asg)) (snd entry)
  | None => true
  end.

Definition checkConstraintsOf (w : t) : bool :=
  forallb (checkVariable (assignments w)) (constraints_ w).

Definition _checkConstraints : Js t bool := gets checkConstraintsOf.

Definition unassignedOf (w : t) : list string :=
  filter (fun variable => negb (Map_has variable (assignments w)))
         (Map_keys (domains w)).

Definition _getUnassignedVariables : Js t (list string) := gets unassignedOf.

(** [domain?.length || 0]: the length of an array or of a string, the
    own [length] property of an object, and 0 where there is none or
    where it is falsy. *)
Definition domainSizeOf (domain : option JsVal) : JsVal :=
  let len := match domain with
             | Some (JArr a) => JNum (inject_Z (Z.of_nat (List.length a)))
             | Some (JStr s) => JNum (inject_Z (Z.of_nat (utf16Length s)))
             | Some (JObj o) => prop "length" o
             | _ => JUndefined
             end in
  if truthy len then len else JNum 0.

(** [domainSize < smallestDomainSize]: numbers are compared as they
    are, anything else is left to the engine. *)
Definition lessThan (x : JsVal) (y : option JsVal) : Exn + bool :=
  match x, y with
  | JNum a, None => inr true
  | JNum a, Some (JNum b) => inr (if Qlt_le_dec a b then true else false)
  | _, _ => lessThanCoerced x y
  end.

(** The loop of [_selectUnassignedVariable] over the keys of
    [domains]. *)
Fixpoint selectLoop (w : t) (keys : list string)
  (bestVariable : option string) (smallestDomainSize : option JsVal)
  : Exn + option string :=
  match keys with
  | [] => inr bestVariable
  | variable :: rest =>
      if negb (Map_has variable (assignments w)) then
        let domainSize := domainSizeOf (Map_get variable (domains w)) in
        match lessThan domainSize smallestDomainSize with
        | inl e => inl e
        | inr true => selectLoop w rest (Some variable) (Some domainSize)
        | inr false => selectLoop w rest bestVariable smallestDomainSize
        end
      else selectLoop w rest bestVariable smallestDomainSize
  end.

Definition _selectUnassignedVariable : Js t (option string) :=
  fun w => (w, selectLoop w (Map_keys (domains w)) None None).

(** [request.constraints || {}]. *)
Definition constraintsOf (request : ReasoningRequest) : JsObject :=
  match req_constraints request with
  | Some c => c
  | None => []
  end.

(** The node object literal, then its [score] assignment. *)
Definition createNode (nodeId : string) (request : ReasoningRequest)
  (parentNode : option ThoughtNode) : ThoughtNode :=
  let node0 :=
    {| id := nodeId;
       thought := req_thought request;
       depth := thoughtNumber request - 1;
       score := 0;
       children := [];
       parentId := req_parentId request;
       isComplete := negb (nextThoughtNeeded request);
       evaluations := Some (match req_evaluations request with
                            | Some e => e
                            | None => []
                            end);
       simulationResults := None;
       heuristicValue := None;
       constraints := Some (constraintsOf request) |} in
  setScore (evaluateThought node0 parentNode) node0.

(** The object literal that [processThought] returns. *)
Definition respond (node : ThoughtNode) (parentNode : option ThoughtNode)
  (request : ReasoningRequest) (constraintsSatisfied : bool)
  (unassignedVariables : list string) (asg : JsMap JsVal)
  : ReasoningResponse :=
  {| nodeId := id node;
     res_thought := thought node;
     res_score := score node;
     res_depth := depth node;
     res_isComplete := isComplete node;
     res_nextThoughtNeeded := nextThoughtNeeded request;
     possiblePaths := None;
     bestScore := Some (Math_max [score node;
                                  match parentNode with
                                  | Some p => score p
                                  | None => 0
                                  end]);
     strategyUsed := None;
     openSetSize := None;
     closedSetSize := None;
     estimatedDistanceToGoal := None;
     totalCost := None;
     constraintsSatisfied := Some constraintsSatisfied;
     unassignedVariables := Some unassignedVariables;
     currentAssignments := Some (fromEntries asg);
     activeStrategy := None;
     availableStrategies := None;
     hybridInfo := None;
     recommendedNextSteps := None;
     problemType := None;
     gameDevMetrics := None |}.

Definition processThought (nodeId : string) (request : ReasoningRequest)
  : Js t ReasoningResponse :=
  parentNode <- match truthyStr (req_parentId request) with
                | Some p => getNode p
                | None => ret None
                end ;;
  let node := createNode nodeId request parentNode in
  saveNode node ;;
  match parentNode with
  | Some p => saveNode (pushChild (id node) p)
  | None => ret tt
  end ;;
  match constraints node with
  | Some c =>
      modify (withDomains (Map_setAll (entriesOrEmpty (prop "domains" c)))) ;;
      modify (withAssignments
                (Map_setAll (entriesOrEmpty (prop "assignments" c))))
  | None => ret tt
  end ;;
  constraintsSatisfied <- _checkConstraints ;;
  unassignedVariables <- _getUnassignedVariables ;;
  asg <- gets assignments ;;
  ret (respond node parentNode request constraintsSatisfied
         unassignedVariables asg).

(** [node.isComplete && node.constraints?.satisfied === true]. *)
Definition satisfying (node : ThoughtNode) : bool :=
  isComplete node &&
  match constraints node with
  | Some c => match prop "satisfied" c with
              | JBool true => true
              | _ => false
              end
  | None => false
  end.

(** [(best, current) => current.score > best.score ? current : best]. *)
Definition better (best current : ThoughtNode) : ThoughtNode :=
  if Qlt_le_dec (score best) (score current) then current else best.

(** [ns.reduce(better, ns[0] || null)]. *)
Definition reduceBest (ns : list ThoughtNode) : option ThoughtNode :=
  match ns with
  | [] => None
  | first :: _ => Some (fold_left better ns first)
  end.

Definition getBestPath : Js t (list ThoughtNode) :=
  allNodes <- gets (fun w => StateManager.getAllNodes (stateManager w)) ;;
  let satisfyingNodes := filter satisfying allNodes in
  if (List.length satisfyingNodes =? 0)%nat then
    match reduceBest allNodes with
    | Some bestNode =>
        fun w => (w, StateManager.getPath (id bestNode) (stateManager w))
    | None => ret []
    end
  else
    match reduceBest satisfyingNodes with
    | Some bestNode =>
        fun w => (w, StateManager.getPath (id bestNode) (stateManager w))
    | None => ret []
    end.

(** The fields that [getMetrics] adds to the inherited ones;
    [averageDomainSize] is [None] when some domain has no [length]. *)
Record Metrics : Type := {
  variablesCount : nat;
  assignedVariables : nat;
  m_constraintsSatisfied : bool;
  averageDomainSize : option Q
}.

Definition lengthOf (v : JsVal) : option nat :=
  match v with
  | JArr a => Some (List.length a)
  | JStr s => Some (String.length s)
  | _ => None
  end.

Definition getMetrics : Js t Metrics :=
  ok <- _checkConstraints ;;
  doms <- gets domains ;;
  asg <- gets assignments ;;
  ret {| variablesCount := Map_size doms;
         assignedVariables := Map_size asg;
         m_constraintsSatisfied := ok;
         averageDomainSize :=
           match fold_left (fun sum domain =>
                              match sum, lengthOf domain with
                              | Some s, Some l => Some (s + l)%nat
                              | _, _ => None
                              end) (Map_values doms) (Some 0%nat) with
           | Some total =>
               Some (inject_Z (Z.of_nat total)
                     / inject_Z (Z.of_nat (Nat.max 1 (Map_size doms))))
           | None => None
           end |}.

Definition clear : Js t unit :=
  modify (withStore baseClear) ;;
  modify (withDomains (fun _ => [])) ;;
  modify (withConstraints (fun _ => [])) ;;
  modify (withAssignments (fun _ => [])).

(** The operations a caller can apply to the strategy, and what each
    one hands back. *)
Inductive Op : Type :=
| OpProcessThought (nodeId : string) (request : ReasoningRequest)
| OpGetBestPath
| OpGetMetrics
| OpClear.

Inductive Outcome : Type :=
| Threw (e : Exn)
| Responded (r : ReasoningResponse)
| Path (p : list ThoughtNode)
| Measured (m : Metrics)
| Done.

Definition outcome {A} (f : A -> Outcome) (r : Exn + A) : Outcome :=
  match r with
  | inl e => Threw e
  | inr a => f a
  end.

Definition apply (o : Op) (w : t) : t * Outcome :=
  match o with
  | OpProcessThought i r =>
      let (w', res) := processThought i r w in (w', outcome Responded res)
  | OpGetBestPath =>
      let (w', res) := getBestPath w in (w', outcome Path res)
  | OpGetMetrics =>
      let (w', res) := getMetrics w in (w', outcome Measured res)
  | OpClear =>
      let (w', res) := clear w in (w', outcome (fun _ => Done) res)
  end.

(** The state after a sequence of operations and the outcomes in order. *)
Fixpoint run (ops : list Op) (w : t) : t * list Outcome :=
  match ops with
  | [] => (w, [])
  | o :: rest =>
      let (w1, out) := apply o w in
      let (w2, outs) := run rest w1 in
      (w2, out :: outs)
  end.

End CSP.
End CSP.

(** ** The [ReasoningStrategy] enum (types.ts) *)

Definition BEAM_SEARCH : string := "beam_search".
Definition MCTS : string := "mcts".
Definition A_STAR : string := "a_star".
Definition CONSTRAINT_SATISFACTION : string := "csp".
Definition HYBRID : string := "hybrid".

(** ** Strings *)

(** [toLowerCase] on the ASCII letters; other characters are kept. *)
Definition lowerAscii (c : ascii) : ascii :=
  let n := nat_of_ascii c in
  if ((65 <=? n) && (n <=? 90))%nat then ascii_of_nat (n + 32) else c.

Fixpoint toLowerCase (s : string) : string :=
  match s with
  | EmptyString => EmptyString
  | String c r => String (lowerAscii c) (toLowerCase r)
  end.

(** [s.includes(sub)]. *)
Fixpoint includes (sub s : string) : bool :=
  if String.prefix sub s then true
  else match s with
       | EmptyString => false
       | String _ r => includes sub r
       end.

(** ** strategies/hybrid.ts *)

Module Hybrid.
Section Hybrid.
Context {base : BaseStrategy}.
Local Open Scope js_scope.

(** The four strategy objects that the constructor creates; an object
    is told from the others by which one it is. *)
Inductive Instance : Type :=
| BeamSearchStrategy
| MonteCarloTreeSearchStrategy
| AStarSearchStrategy
| ConstraintSatisfactionStrategy.

Definition Instance_eqb (a b : Instance) : bool :=
  match a, b with
  | BeamSearchStrategy, BeamSearchStrategy
  | MonteCarloTreeSearchStrategy, MonteCarloTreeSearchStrategy
  | AStarSearchStrategy, AStarSearchStrategy
  | ConstraintSatisfactionStrategy, ConstraintSatisfactionStrategy => true
  | _, _ => false
  end.

(** [this.strategies], filled by the constructor and never written
    again. *)
Definition strategies : JsMap Instance :=
  Map_set CONSTRAINT_SATISFACTION ConstraintSatisfactionStrategy
    (Map_set A_STAR AStarSearchStrategy
       (Map_set MCTS MonteCarloTreeSearchStrategy
          (Map_set BEAM_SEARCH BeamSearchStrategy []))).

(** [this.strategySwitchThresholds], set by the constructor and never
    written again. *)
Definition uncertaintyThreshold : Q := 3 # 10.
Definition goalClarityThreshold : Q := 7 # 10.
Definition constraintDensityThreshold : Q := 5.

(** The mutable fields: the shared store, the active strategy and the
    indices of the two owned strategies that keep one. *)
Record t : Type := {
  stateManager : StateManager.t;
  activeStrategy_ : Instance;
  aStar : AStar.t;
  csp : CSP.t
}.

Definition new (sm : StateManager.t) : t :=
  {| stateManager := sm;
     activeStrategy_ := BeamSearchStrategy;
     aStar := AStar.new sm;
     csp := CSP.new sm |}.

Definition withActive (i : Instance) (w : t) : t :=
  {| stateManager := stateManager w; activeStrategy_ := i;
     aStar := aStar w; csp := csp w |}.

(** A method of an owned strategy, run on the shared store. *)
Definition onStore {A} (c : Js StateManager.t A) : Js t A :=
  fun w =>
    let (sm, r) := c (stateManager w) in
    ({| stateManager := sm; activeStrategy_ := activeStrategy_ w;
        aStar := aStar w; csp := csp w |}, r).

Definition onAStar {A} (c : Js AStar.t A) : Js t A :=
  fun w =>
    let (a, r) := c (AStar.withStore (fun _ => stateManager w) (aStar w)) in
    ({| stateManager := AStar.stateManager a;
        activeStrategy_ := activeStrategy_ w;
        aStar := a; csp := csp w |}, r).

Definition onCSP {A} (c : Js CSP.t A) : Js t A :=
  fun w =>
    let (s, r) := c (CSP.withStore (fun _ => stateManager w) (csp w)) in
    ({| stateManager := CSP.stateManager s;
        activeStrategy_ := activeStrategy_ w;
        aStar := aStar w; csp := s |}, r).

Definition Qminb (a b : Q) : Q := if Qle_bool a b then a else b.

(** [nodes.slice(-k)]. *)
Definition sliceLast {A} (k : nat) (l : list A) : list A :=
  skipn (List.length l - k) l.

(** [_calculateUncertainty] in the exact arithmetic of the embedding,
    on which the switch below is decided. *)
Definition uncertaintyOf (nodes : list ThoughtNode) : Q :=
  if (List.length nodes <? 2)%nat then 1 # 2
  else
    let recentNodes := sliceLast 10 nodes in
    let scores := map score recentNodes in
    let len := inject_Z (Z.of_nat (List.length scores)) in
    let mean := fold_left (fun a b => a + b) scores 0 / len in
    let variance :=
      fold_left (fun a b => a + Qpower (b - mean) 2) scores 0 / len in
    Qminb 1 (variance / 5).

Definition _calculateUncertainty : Js t Q :=
  gets (fun w => uncertaintyOf (StateManager.getAllNodes (stateManager w))).

(** [_calculateUncertainty] once more, in the binary64 arithmetic that
    the method runs in; a score is read as the double it stands for. *)
Definition uncertaintyOf64 (nodes : list ThoughtNode) : float :=
  if (List.length nodes <? 2)%nat then 0.5%float
  else
    let recentNodes := sliceLast 10 nodes in
    let scores := map (fun n => Double.ofQ (score n)) recentNodes in
    let len := Double.ofNat (List.length scores) in
    let mean := (fold_left (fun a b => a + b) scores 0 / len)%float in
    let variance :=
      (fold_left (fun a b => a + Double.square (b - mean)) scores 0 / len)%float in
    Double.Math_min 1 (variance / 5).

Definition _calculateUncertainty64 : Js t float :=
  gets (fun w => uncertaintyOf64 (StateManager.getAllNodes (stateManager w))).

Definition goalClarityOf (request : ReasoningRequest) : Q :=
  let hasMetrics := match evaluationMetrics request with
                    | Some ms => (0 <? List.length ms)%nat
                    | None => false
                    end in
  let hasEndpoint := if Qlt_le_dec 0 (totalThoughts request) then true else false in
  let hasHeuristics := true in
  let c0 := 0 in
  let c1 := if hasMetrics then c0 + (4 # 10) else c0 in
  let c2 := if hasEndpoint then c1 + (3 # 10) else c1 in
  if hasHeuristics then c2 + (3 # 10) else c2.

Definition _calculateGoalClarity (request : ReasoningRequest) : Js t Q :=
  ret (goalClarityOf request).

Definition constraintKeywords : list string :=
  ["must"; "should"; "required"; "necessary"; "constraint"].

Definition constraintDensityOf (request : ReasoningRequest) : nat :=
  let explicit := match req_constraints request with
                  | Some c => List.length c
                  | None => 0%nat
                  end in
  if (req_thought request =? "")%string then explicit
  else
    fold_left (fun count keyword =>
                 if includes keyword (toLowerCase (req_thought request))
                 then S count else count)
              constraintKeywords explicit.

Definition _calculateConstraintDensity (request : ReasoningRequest) : Js t Q :=
  ret (inject_Z (Z.of_nat (constraintDensityOf request))).

Definition _switchStrategy (strategy : string) : Js t unit :=
  match Map_get strategy strategies with
  | Some i => modify (withActive i)
  | None => ret tt
  end.

(** The [if / else if / else] chain of [_evaluateStrategySwitch]. *)
Definition decide (uncertainty goalClarity constraintDensity : Q) : string :=
  if Qle_bool constraintDensityThreshold constraintDensity
  then CONSTRAINT_SATISFACTION
  else if Qle_bool goalClarityThreshold goalClarity
  then A_STAR
  else if Qle_bool uncertaintyThreshold uncertainty
  then MCTS
  else BEAM_SEARCH.

Definition _evaluateStrategySwitch (request : ReasoningRequest) : Js t unit :=
  uncertainty <- _calculateUncertainty ;;
  goalClarity <- _calculateGoalClarity request ;;
  constraintDensity <- _calculateConstraintDensity request ;;
  _switchStrategy (decide uncertainty goalClarity constraintDensity) ;;
  match truthyStr (strategyType request) with
  | Some s => _switchStrategy s
  | None => ret tt
  end.

Definition activeNameOf (w : t) : string :=
  match find (fun e => Instance_eqb (snd e) (activeStrategy_ w)) strategies with
  | Some e => fst e
  | None => BEAM_SEARCH
  end.

Definition _getActiveStrategyName : Js t string := gets activeNameOf.

(** [this.activeStrategy.processThought(request)]. *)
Definition delegate (uuid : string) (request : ReasoningRequest)
  : Js t ReasoningResponse :=
  active <- gets activeStrategy_ ;;
  match active with
  | BeamSearchStrategy => onStore (BeamSearch_processThought uuid request)
  | MonteCarloTreeSearchStrategy => onStore (MCTS_processThought uuid request)
  | AStarSearchStrategy => onAStar (AStar.processThought uuid request)
  | ConstraintSatisfactionStrategy => onCSP (CSP.processThought uuid request)
  end.

Definition processThought (uuid : string) (request : ReasoningRequest)
  : Js t ReasoningResponse :=
  _evaluateStrategySwitch request ;;
  response <- delegate uuid request ;;
  name <- _getActiveStrategyName ;;
  uncertaintyLevel <- _calculateUncertainty ;;
  goalClarity <- _calculateGoalClarity request ;;
  constraintDensity <- _calculateConstraintDensity request ;;
  ret {| nodeId := nodeId response;
         res_thought := res_thought response;
         res_score := res_score response;
         res_depth := res_depth response;
         res_isComplete := res_isComplete response;
         res_nextThoughtNeeded := res_nextThoughtNeeded response;
         possiblePaths := possiblePaths response;
         bestScore := bestScore response;
         strategyUsed := strategyUsed response;
         openSetSize := openSetSize response;
         closedSetSize := closedSetSize response;
         estimatedDistanceToGoal := estimatedDistanceToGoal response;
         totalCost := totalCost response;
         constraintsSatisfied := constraintsSatisfied response;
         unassignedVariables := unassignedVariables response;
         currentAssignments := currentAssignments response;
         activeStrategy := Some name;
         availableStrategies := Some (Map_keys strategies);
         hybridInfo := Some (uncertaintyLevel, goalClarity, constraintDensity);
         recommendedNextSteps := recommendedNextSteps response;
         problemType := problemType response;
         gameDevMetrics := gameDevMetrics response |}.

End Hybrid.
End Hybrid.

(** ** The [CONFIG] constant (types.ts) *)

Record GameDevDefault : Type := {
  d_strategy : string;
  d_branchingFactor : Q;
  d_explorationDepth : Q;
  d_evaluationMetrics : list string
}.

Module CONFIG.
Definition cacheSize : nat := 1000.
Definition defaultStrategy : string := "beam_search".

Definition gameDevDefaults : JsMap GameDevDefault :=
  [ ("mechanics", {| d_strategy := BEAM_SEARCH; d_branchingFactor := 3;
                     d_explorationDepth := 3;
                     d_evaluationMetrics := ["extensibility"; "complexity"; "balance"] |});
    ("systems", {| d_strategy := CONSTRAINT_SATISFACTION; d_branchingFactor := 3;
                   d_explorationDepth := 2;
                   d_evaluationMetrics := ["coupling"; "cohesion"; "performance"] |});
    ("procedural", {| d_strategy := MCTS; d_branchingFactor := 4;
                      d_explorationDepth := 3;
                      d_evaluationMetrics := ["variety"; "playability"; "consistency"] |});
    ("ai", {| d_strategy := MCTS; d_branchingFactor := 4;
              d_explorationDepth := 3;
              d_evaluationMetrics := ["strategic"; "feasibility"; "performance"] |});
    ("ui", {| d_strategy := A_STAR; d_branchingFactor := 3;
              d_explorationDepth := 2;
              d_evaluationMetrics := ["usability"; "clarity"; "aesthetics"] |});
    ("visual", {| d_strategy := BEAM_SEARCH; d_branchingFactor := 2;
                  d_explorationDepth := 3;
                  d_evaluationMetrics := ["quality"; "performance"; "style"] |}) ].
End CONFIG.

(** ** strategies/factory.ts and reasoner.ts *)

Module Reasoner.
Section Reasoner.
Context {base : BaseStrategy}.
Local Open Scope js_scope.

(** The five strategy objects that the constructor registers. *)
Inductive Instance : Type :=
| BeamSearchStrategy
| MonteCarloTreeSearchStrategy
| AStarSearchStrategy
| ConstraintSatisfactionStrategy
| HybridStrategy.

Definition Instance_eqb (a b : Instance) : bool :=
  match a, b with
  | BeamSearchStrategy, BeamSearchStrategy
  | MonteCarloTreeSearchStrategy, MonteCarloTreeSearchStrategy
  | AStarSearchStrategy, AStarSearchStrategy
  | ConstraintSatisfactionStrategy, ConstraintSatisfactionStrategy
  | HybridStrategy, HybridStrategy => true
  | _, _ => false
  end.

(** [createStrategy(type, stateManager)]: which class the [switch]
    instantiates, or the error of its [default] branch. *)
Definition createStrategy (type : string) : Exn + Instance :=
  if (type =? BEAM_SEARCH)%string then inr BeamSearchStrategy
  else if (type =? MCTS)%string then inr MonteCarloTreeSearchStrategy
  else if (type =? A_STAR)%string then inr AStarSearchStrategy
  else if (type =? CONSTRAINT_SATISFACTION)%string then inr ConstraintSatisfactionStrategy
  else if (type =? HYBRID)%string then inr HybridStrategy
  else inl (JsError UnknownStrategy ("Unknown strategy type: " ++ type)%string).

(** One [this.strategies.set(name, createStrategy(name, ...))] of the
    constructor. *)
Definition register (name : string) (m : JsMap Instance) : JsMap Instance :=
  match createStrategy name with
  | inr i => Map_set name i m
  | inl _ => m
  end.

(** [this.strategies], filled by the constructor and never written
    again. *)
Definition strategies : JsMap Instance :=
  register HYBRID
    (register CONSTRAINT_SATISFACTION
       (register A_STAR
          (register MCTS
             (register BEAM_SEARCH [])))).

(** The examples that [_loadInContextExamples] stores. *)
Definition inContextExamplesMap : JsMap (list ThoughtNode) :=
  [ ("mechanics",
     [ {| id := "card-system-example";
          thought := "... detailed card system example with beam search steps ...";
          depth := 0; score := 9; children := []; parentId := None;
          isComplete := true;
          evaluations := Some [("extensibility", JNum 9); ("complexity", JNum 7);
                               ("balance", JNum 8)];
          simulationResults := None; heuristicValue := None;
          constraints := None |} ]);
    ("ai",
     [ {| id := "ai-behavior-example";
          thought := "... detailed AI behavior example with MCTS simulation steps ...";
          depth := 0; score := 8; children := []; parentId := None;
          isComplete := true;
          evaluations := Some [("strategic", JNum 9); ("feasibility", JNum 7);
                               ("performance", JNum 8)];
          simulationResults := Some []; heuristicValue := None;
          constraints := None |} ]) ].

(** The mutable fields: the store, the current strategy and the
    fields of the registered strategies that have some. *)
Record t : Type := {
  stateManager : StateManager.t;
  currentStrategy : Instance;
  aStar : AStar.t;
  csp : CSP.t;
  hybrid : Hybrid.t
}.

Definition new : t :=
  let sm := StateManager.new CONFIG.cacheSize in
  {| stateManager := sm;
     currentStrategy :=
       match Map_get CONFIG.defaultStrategy strategies with
       | Some i => i
       | None => match Map_get BEAM_SEARCH strategies with
                 | Some i => i
                 | None => BeamSearchStrategy
                 end
       end;
     aStar := AStar.new sm;
     csp := CSP.new sm;
     hybrid := Hybrid.new sm |}.

Definition withCurrent (i : Instance) (w : t) : t :=
  {| stateManager := stateManager w; currentStrategy := i;
     aStar := aStar w; csp := csp w; hybrid := hybrid w |}.

Definition onStore {A} (c : Js StateManager.t A) : Js t A :=
  fun w =>
    let (sm, r) := c (stateManager w) in
    ({| stateManager := sm; currentStrategy := currentStrategy w;
        aStar := aStar w; csp := csp w; hybrid := hybrid w |}, r).

Definition onAStar {A} (c : Js AStar.t A) : Js t A :=
  fun w =>
    let (a, r) := c (AStar.withStore (fun _ => stateManager w) (aStar w)) in
    ({| stateManager := AStar.stateManager a;
        currentStrategy := currentStrategy w;
        aStar := a; csp := csp w; hybrid := hybrid w |}, r).

Definition onCSP {A} (c : Js CSP.t A) : Js t A :=
  fun w =>
    let (s, r) := c (CSP.withStore (fun _ => stateManager w) (csp w)) in
    ({| stateManager := CSP.stateManager s;
        currentStrategy := currentStrategy w;
        aStar := aStar w; csp := s; hybrid := hybrid w |}, r).

Definition onHybrid {A} (c : Js Hybrid.t A) : Js t A :=
  fun w =>
    let h0 := hybrid w in
    let (h, r) := c {| Hybrid.stateManager := stateManager w;
                       Hybrid.activeStrategy_ := Hybrid.activeStrategy_ h0;
                       Hybrid.aStar := Hybrid.aStar h0;
                       Hybrid.csp := Hybrid.csp h0 |} in
    ({| stateManager := Hybrid.stateManager h;
        currentStrategy := currentStrategy w;
        aStar := aStar w; csp := csp w; hybrid := h |}, r).

Definition currentNameOf (w : t) : string :=
  match find (fun e => Instance_eqb (snd e) (currentStrategy w)) strategies with
  | Some e => fst e
  | None => BEAM_SEARCH
  end.

Definition getCurrentStrategyName : Js t string := gets currentNameOf.

Definition getAvailableStrategies : Js t (list string) :=
  ret (Map_keys strategies).

Definition setStrategy (strategyType : string) : Js t unit :=
  if negb (Map_has strategyType strategies)
  then throw (JsError UnknownStrategy
                ("Unknown strategy type: " ++ strategyType)%string)
  else match Map_get strategyType strategies with
       | Some strategy => modify (withCurrent strategy)
       | None => ret tt
       end.

(** [this.currentStrategy.processThought(request)]. *)
Definition dispatch (uuid : string) (request : ReasoningRequest)
  : Js t ReasoningResponse :=
  current <- gets currentStrategy ;;
  match current with
  | BeamSearchStrategy => onStore (BeamSearch_processThought uuid request)
  | MonteCarloTreeSearchStrategy => onStore (MCTS_processThought uuid request)
  | AStarSearchStrategy => onAStar (AStar.processThought uuid request)
  | ConstraintSatisfactionStrategy => onCSP (CSP.processThought uuid request)
  | HybridStrategy => onHybrid (Hybrid.processThought uuid request)
  end.

(** [{ ...response, strategyUsed, problemType, recommendedNextSteps,
    gameDevMetrics }], the last three kept when given as [None]. *)
Definition stamp (response : ReasoningResponse) (name : string)
  (pt : option string) (steps : option (list string))
  (metrics : option (option Q * option (list string) * Alignment)) : ReasoningResponse :=
  {| nodeId := nodeId response;
     res_thought := res_thought response;
     res_score := res_score response;
     res_depth := res_depth response;
     res_isComplete := res_isComplete response;
     res_nextThoughtNeeded := res_nextThoughtNeeded response;
     possiblePaths := possiblePaths response;
     bestScore := bestScore response;
     strategyUsed := Some name;
     openSetSize := openSetSize response;
     closedSetSize := closedSetSize response;
     estimatedDistanceToGoal := estimatedDistanceToGoal response;
     totalCost := totalCost response;
     constraintsSatisfied := constraintsSatisfied response;
     unassignedVariables := unassignedVariables response;
     currentAssignments := currentAssignments response;
     activeStrategy := activeStrategy response;
     availableStrategies := availableStrategies response;
     hybridInfo := hybridInfo response;
     recommendedNextSteps :=
       match steps with Some _ => steps | None => recommendedNextSteps response end;
     problemType :=
       match pt with Some _ => pt | None => problemType response end;
     gameDevMetrics :=
       match metrics with Some _ => metrics | None => gameDevMetrics response end |}.

Definition knownTypes : list string :=
  ["mechanics"; "systems"; "procedural"; "ai"; "ui"; "visual"].

Definition _getDefaultConfigForProblemType (problemType : string)
  : option GameDevDefault :=
  let validType :=
    if existsb (fun k => (k =? problemType)%string) knownTypes
    then problemType else "mechanics" in
  Map_get validType CONFIG.gameDevDefaults.

Definition _isGameDevRequest (request : ReasoningRequest) : bool :=
  match req_problemType request with
  | Some _ => true
  | None => false
  end.

Definition problemSteps (pt : option string) : list string :=
  match pt with
  | Some p =>
      if (p =? "mechanics")%string then
        ["Validate the mechanics against design goals";
         "Create a prototype to test the solution"]
      else if (p =? "systems")%string then
        ["Check system coupling and cohesion";
         "Evaluate performance implications"]
      else if (p =? "ai")%string then
        ["Run simulations to evaluate AI behavior";
         "Test edge cases and failure modes"]
      else if (p =? "ui")%string then
        ["Create wireframes or mockups of the proposed UI";
         "Conduct usability testing"]
      else if (p =? "procedural")%string then
        ["Generate sample content to evaluate quality";
         "Analyze content variety and consistency"]
      else if (p =? "visual")%string then
        ["Create asset prototypes to validate pipeline";
         "Test performance on target platforms"]
      else []
  | None => []
  end.

Definition _generateNextSteps (response : ReasoningResponse)
  (request : ReasoningRequest) : list string :=
  (if res_isComplete response then []
   else ["Continue exploration of the current solution path"])
  ++ (if Qlt_le_dec (res_score response) 5
      then ["Consider alternative approaches to improve solution quality"]
      else [])
  ++ problemSteps (req_problemType request).

Definition alignmentMap : JsMap (JsMap Q) :=
  [ ("mechanics", [(BEAM_SEARCH, 9 # 10); (MCTS, 6 # 10); (A_STAR, 7 # 10);
                   (CONSTRAINT_SATISFACTION, 5 # 10); (HYBRID, 8 # 10)]);
    ("systems", [(BEAM_SEARCH, 7 # 10); (MCTS, 5 # 10); (A_STAR, 6 # 10);
                 (CONSTRAINT_SATISFACTION, 9 # 10); (HYBRID, 8 # 10)]);
    ("ai", [(BEAM_SEARCH, 5 # 10); (MCTS, 9 # 10); (A_STAR, 6 # 10);
            (CONSTRAINT_SATISFACTION, 4 # 10); (HYBRID, 8 # 10)]);
    ("ui", [(BEAM_SEARCH, 7 # 10); (MCTS, 4 # 10); (A_STAR, 9 # 10);
            (CONSTRAINT_SATISFACTION, 6 # 10); (HYBRID, 7 # 10)]);
    ("procedural", [(BEAM_SEARCH, 5 # 10); (MCTS, 9 # 10); (A_STAR, 6 # 10);
                    (CONSTRAINT_SATISFACTION, 7 # 10); (HYBRID, 8 # 10)]);
    ("visual", [(BEAM_SEARCH, 8 # 10); (MCTS, 5 # 10); (A_STAR, 6 # 10);
                (CONSTRAINT_SATISFACTION, 4 # 10); (HYBRID, 7 # 10)]) ].

Definition _calculateProblemTypeAlignment (problemType strategy : string)
  : Alignment :=
  match member problemType alignmentMap with
  | Own row =>
      match member strategy row with
      | Own a => Aligned (if Qeq_bool a 0 then 5 # 10 else a)
      | Inherited => BuiltIn [strategy]
      | Missing => Aligned (5 # 10)
      end
  | Inherited => BuiltIn [problemType; strategy]
  | Missing => Aligned (5 # 10)
  end.

Definition _processGameDevRequest (uuid : string) (request : ReasoningRequest)
  : Js t ReasoningResponse :=
  let problemType :=
    match truthyStr (req_problemType request) with
    | Some p => p
    | None => "mechanics"
    end in
  let defaultConfig := _getDefaultConfigForProblemType problemType in
  let useDefaultStrategy :=
    match truthyStr (strategyType request), defaultConfig with
    | None, Some d => Some d
    | _, _ => None
    end in
  match useDefaultStrategy with
  | Some d => match Map_get (d_strategy d) strategies with
              | Some strategy => modify (withCurrent strategy)
              | None => ret tt
              end
  | None => ret tt
  end ;;
  let request' :=
    {| req_thought := req_thought request;
       thoughtNumber := thoughtNumber request;
       totalThoughts := totalThoughts request;
       nextThoughtNeeded := nextThoughtNeeded request;
       req_parentId := req_parentId request;
       strategyType :=
         match useDefaultStrategy with
         | Some d => Some (d_strategy d)
         | None => strategyType request
         end;
       branchingFactor :=
         match branchingFactor request, defaultConfig with
         | Some b, Some d =>
             if Qeq_bool b 0 then Some (d_branchingFactor d) else Some b
         | None, Some d => Some (d_branchingFactor d)
         | b, None => b
         end;
       req_evaluations := req_evaluations request;
       evaluationMetrics :=
         match evaluationMetrics request, defaultConfig with
         | None, Some d => Some (d_evaluationMetrics d)
         | m, _ => m
         end;
       req_constraints := req_constraints request;
       req_problemType := req_problemType request;
       inContextExamples :=
         match inContextExamples request with
         | Some e => Some e
         | None => Map_get problemType inContextExamplesMap
         end |} in
  response <- dispatch uuid request' ;;
  name <- getCurrentStrategyName ;;
  ret (stamp response name (Some problemType)
         (Some (_generateNextSteps response request'))
         (Some (branchingFactor request', evaluationMetrics request',
                _calculateProblemTypeAlignment problemType name))).

Definition processThought (uuid : string) (request : ReasoningRequest)
  : Js t ReasoningResponse :=
  if _isGameDevRequest request then _processGameDevRequest uuid request
  else
    match truthyStr (strategyType request) with
    | Some s => match Map_get s strategies with
                | Some strategy => modify (withCurrent strategy)
                | None => ret tt
                end
    | None => ret tt
    end ;;
    response <- dispatch uuid request ;;
    name <- getCurrentStrategyName ;;
    ret (stamp response name None None None).

End Reasoner.
End Reasoner.

(** ** engine.ts *)

Module Engine.
Section Engine.
Context {base : BaseStrategy}.

Record EnhancedGameDevResponse : Type := {
  response : ReasoningResponse;
  godotData : option JsObject;
  blenderData : option JsObject;
  visualizationData : option JsObject;
  error : option bool;
  errorMessage : option string
}.

(** The one field of a [ReasoningEngine]. *)
Record t : Type := { reasoner : Reasoner.t }.

Definition new : t := {| reasoner := Reasoner.new |}.

Definition _extractGodotData (r : ReasoningResponse) : JsObject :=
  [("nodeStructure", JObj []); ("resourcePaths", JArr []);
   ("scriptSnippets", JObj [])].

Definition _extractBlenderData (r : ReasoningResponse) : JsObject :=
  [("materialStructure", JObj []); ("assetCategories", JArr []);
   ("pipelineSteps", JArr [])].

Definition _formatReasoningTree (r : ReasoningResponse) : JsObject := [].
Definition _formatMetricsData (r : ReasoningResponse) : JsObject := [].
Definition _formatTimelineData (r : ReasoningResponse) : JsObject := [].

Definition _generateVisualizationData (r : ReasoningResponse) : JsObject :=
  [("reasoningTreeData", JObj (_formatReasoningTree r));
   ("metricsData", JObj (_formatMetricsData r));
   ("timelineData", JObj (_formatTimelineData r))].

Definition _enhanceGameDevResponse (r : ReasoningResponse)
  : EnhancedGameDevResponse :=
  {| response := r;
     godotData := Some (_extractGodotData r);
     blenderData := Some (_extractBlenderData r);
     visualizationData := Some (_generateVisualizationData r);
     error := None;
     errorMessage := None |}.

(** A plain [ReasoningResponse] returned where the enhanced type is
    expected. *)
Definition plain (r : ReasoningResponse) : EnhancedGameDevResponse :=
  {| response := r; godotData := None; blenderData := None;
     visualizationData := None; error := None; errorMessage := None |}.

(** The object literal of the [catch] block. *)
Definition failure (e : Exn) : EnhancedGameDevResponse :=
  {| response := plainResponse "" "" 0 0 false false;
     godotData := None; blenderData := None; visualizationData := None;
     error := Some true;
     errorMessage :=
       Some (match e with
             | JsError _ message => message
             | JsThrown _ => "Unknown error in reasoning engine"
             end) |}.

(** [handle]: the [try] block, then the [catch] block on a throw.  The
    result is a pair and not a [Js] computation: no path of [handle]
    throws. *)
Definition handle (uuid : string) (request : ReasoningRequest) (w : t)
  : t * EnhancedGameDevResponse :=
  let isGameDevRequest := match req_problemType request with
                          | Some _ => true
                          | None => false
                          end in
  match Reasoner.processThought uuid request (reasoner w) with
  | (r', inr res) =>
      ({| reasoner := r' |},
       if isGameDevRequest then _enhanceGameDevResponse res else plain res)
  | (r', inl e) => ({| reasoner := r' |}, failure e)
  end.

End Engine.
End Engine.

(** ** A concrete environment and concrete inputs

    Used by the worked examples below; nothing above depends on them. *)

Module Sample.
Local Open Scope js_scope.

(** A scoring function of (node, parent): one point, plus half the
    parent's score when there is a parent. *)
Definition scoring (node : ThoughtNode) (parent : option ThoughtNode) : Q :=
  match parent with
  | Some p => 1 + score p / 2
  | None => 1
  end.

(** A strategy without an index of its own: create the node, score
    it, persist it, attach it to its parent. *)
Definition storeOnly (uuid : string) (request : ReasoningRequest)
  : Js StateManager.t ReasoningResponse :=
  parentNode <- match truthyStr (req_parentId request) with
                | Some p => gets (StateManager.getNode p)
                | None => ret None
                end ;;
  let node0 :=
    {| id := uuid; thought := req_thought request;
       depth := thoughtNumber request - 1; score := 0; children := [];
       parentId := req_parentId request;
       isComplete := negb (nextThoughtNeeded request);
       evaluations := req_evaluations request;
       simulationResults := None; heuristicValue := None;
       constraints := None |} in
  let node := setScore (scoring node0 parentNode) node0 in
  modify (StateManager.saveNode node) ;;
  match parentNode with
  | Some p => modify (StateManager.saveNode (pushChild uuid p))
  | None => ret tt
  end ;;
  ret (plainResponse uuid (thought node) (score node) (depth node)
         (isComplete node) (nextThoughtNeeded request)).

Definition base : BaseStrategy :=
  {| evaluateThought := scoring;
     baseClear := StateManager.clear;
     BeamSearch_processThought := storeOnly;
     MCTS_processThought := storeOnly |}.

Definition request (t : string) (parent : option string) (more : bool)
  : ReasoningRequest :=
  {| req_thought := t; thoughtNumber := 1; totalThoughts := 3;
     nextThoughtNeeded := more; req_parentId := parent;
     strategyType := None; branchingFactor := None;
     req_evaluations := None; evaluationMetrics := None;
     req_constraints := None; req_problemType := None;
     inContextExamples := None |}.

Definition withStrategy (s : string) (r : ReasoningRequest) : ReasoningRequest :=
  {| req_thought := req_thought r; thoughtNumber := thoughtNumber r;
     totalThoughts := totalThoughts r;
     nextThoughtNeeded := nextThoughtNeeded r;
     req_parentId := req_parentId r;
     strategyType := Some s; branchingFactor := branchingFactor r;
     req_evaluations := req_evaluations r;
     evaluationMetrics := evaluationMetrics r;
     req_constraints := req_constraints r;
     req_problemType := req_problemType r;
     inContextExamples := inContextExamples r |}.

Definition node (i : string) (s : Q) (parent : option string)
  (complete : bool) (h : option Q) (c : option JsObject) : ThoughtNode :=
  {| id := i; thought := i; score := s; depth := 0; children := [];
     parentId := parent; isComplete := complete; evaluations := None;
     simulationResults := None; heuristicValue := h; constraints := c |}.

Definition store (ns : list ThoughtNode) : StateManager.t :=
  {| StateManager.capacity := 1000; StateManager.nodes := ns |}.

(** A root [r] and its child [a]. *)
Definition root : ThoughtNode := node "r" 2 None false (Some 1) None.
Definition childA : ThoughtNode := node "a" 4 (Some "r") false (Some 3) None.
Definition family : StateManager.t := store [root; childA].

(** An A* strategy with both nodes still open. *)
Definition twoOpen : AStar.t :=
  {| AStar.stateManager := family;
     AStar.openSet := [("a", childA); ("r", root)];
     AStar.closedSet := [] |}.

(** Three open roots: [x] is the cheapest by path cost, [y] by
    heuristic value, [z] by their sum. *)
Definition rootX : ThoughtNode := node "x" 1 None false (Some 5) None.
Definition rootY : ThoughtNode := node "y" 5 None false (Some 1) None.
Definition rootZ : ThoughtNode := node "z" 2 None false (Some 2) None.
Definition threeOpen : AStar.t :=
  {| AStar.stateManager := store [rootX; rootY; rootZ];
     AStar.openSet := [("x", rootX); ("y", rootY); ("z", rootZ)];
     AStar.closedSet := [] |}.


(** A store of four nodes whose scores are 0.3, 1.3, 0.3 and 3.3. *)
Definition wavering : StateManager.t :=
  store [node "w1" (3 # 10) None false None None;
         node "w2" (13 # 10) None false None None;
         node "w3" (3 # 10) None false None None;
         node "w4" (33 # 10) None false None None].

(** A store for the best-path query of the constraint strategy: an
    unfinished node with the higher score, a finished one with the
    lower score, no node marked as satisfying. *)
Definition unfinished : ThoughtNode := node "u" 5 None false None (Some []).
Definition finished : ThoughtNode := node "f" 1 None true None (Some []).
Definition mixed : CSP.t :=
  {| CSP.stateManager := store [unfinished; finished];
     CSP.domains := []; CSP.constraints_ := []; CSP.assignments := [] |}.

(** A store whose one finished node is marked as satisfying. *)
Definition solved : ThoughtNode :=
  node "s" 1 None true None (Some [("satisfied", JBool true)]).
Definition withSolution : CSP.t :=
  {| CSP.stateManager := store [unfinished; solved];
     CSP.domains := []; CSP.constraints_ := []; CSP.assignments := [] |}.

(** A sequence of A* operations with a [clear] in the middle and a
    request whose parent is unknown. *)
Definition ops : list AStar.Op :=
[ AStar.OpProcessThought "n1" (request "first" None true);
  AStar.OpProcessThought "n2" (request "second" (Some "n1") true);
  AStar.OpGetBestPath;
  AStar.OpClear;
  AStar.OpProcessThought "n3" (request "third" (Some "missing") false);
  AStar.OpGetMetrics ].

(** A request that brings two domains and one assignment. *)
Definition colouring : ReasoningRequest :=
{| req_thought := "x must be red"; thoughtNumber := 1; totalThoughts := 1;
   nextThoughtNeeded := false; req_parentId := None;
   strategyType := None; branchingFactor := None;
   req_evaluations := None; evaluationMetrics := None;
   req_constraints :=
     Some [("domains", JObj [("x", JArr [JStr "red"; JStr "blue"]);
                             ("y", JArr [JNum 1])]);
           ("assignments", JObj [("x", JStr "red")])];
   req_problemType := None; inContextExamples := None |}.

(** An A* strategy that has closed a finished node and still holds an
    unfinished one. *)
Definition oneDone : AStar.t :=
{| AStar.stateManager := store [unfinished; finished];
   AStar.openSet := [("u", unfinished)];
   AStar.closedSet := [("f", finished)] |}.

(** A constraint strategy with two domains and one assignment. *)
Definition coloured : CSP.t :=
{| CSP.stateManager := store [];
   CSP.domains := [("x", JArr [JStr "red"; JStr "blue"]); ("y", JArr [JNum 1])];
   CSP.constraints_ := [];
   CSP.assignments := [("x", JStr "red")] |}.

(** A constraint strategy whose domains are an array of one value and
    an object that carries its own [length]. *)
Definition sized : CSP.t :=
{| CSP.stateManager := store [];
   CSP.domains := [("x", JArr [JNum 1]); ("y", JObj [("length", JNum 5)])];
   CSP.constraints_ := [];
   CSP.assignments := [] |}.

(** An engine for the examples, none of which compares anything but
    numbers. *)
Definition engine : Engine :=
{| lessThanCoerced := fun _ _ => inl (JsError OtherError "TypeError") |}.

Definition withMetrics (ms : list string) (r : ReasoningRequest) : ReasoningRequest :=
{| req_thought := req_thought r; thoughtNumber := thoughtNumber r;
   totalThoughts := totalThoughts r;
   nextThoughtNeeded := nextThoughtNeeded r;
   req_parentId := req_parentId r;
   strategyType := strategyType r; branchingFactor := branchingFactor r;
   req_evaluations := req_evaluations r;
   evaluationMetrics := Some ms;
   req_constraints := req_constraints r;
   req_problemType := req_problemType r;
   inContextExamples := inContextExamples r |}.

Definition withProblemType (pt : string) (r : ReasoningRequest) : ReasoningRequest :=
{| req_thought := req_thought r; thoughtNumber := thoughtNumber r;
   totalThoughts := totalThoughts r;
   nextThoughtNeeded := nextThoughtNeeded r;
   req_parentId := req_parentId r;
   strategyType := strategyType r; branchingFactor := branchingFactor r;
   req_evaluations := req_evaluations r;
   evaluationMetrics := evaluationMetrics r;
   req_constraints := req_constraints r;
   req_problemType := Some pt;
   inContextExamples := inContextExamples r |}.

End Sample.

(** ** Vocabulary of the statements *)

Section Vocabulary.
Context {base : BaseStrategy}.

(** [f(n)] read off the store: the scores on the root path of [n]
    added up, plus the stored heuristic value. *)
Definition fOf (s : StateManager.t) (n : ThoughtNode) : Exn + Q :=
  match StateManager.getPath (id n) s with
  | inl e => inl e
  | inr path => inr (sumScores path + orZero (heuristicValue n))
  end.

(** The node moved by one expansion step. *)
Definition moved (n : ThoughtNode) (w : AStar.t) : AStar.t :=
  {| AStar.stateManager := AStar.stateManager w;
     AStar.openSet := Map_delete (id n) (AStar.openSet w);
     AStar.closedSet := Map_set (id n) n (AStar.closedSet w) |}.

(** The parent object that [processThought] looks up. *)
Definition parentOf (req : ReasoningRequest) (s : StateManager.t)
  : option ThoughtNode :=
  match truthyStr (req_parentId req) with
  | Some p => StateManager.getNode p s
  | None => None
  end.

(** The store once the new node is saved and its parent updated. *)
Definition linked (node : ThoughtNode) (parent : option ThoughtNode)
  (s : StateManager.t) : StateManager.t :=
  match parent with
  | Some p =>
      StateManager.saveNode (pushChild (id node) p) (StateManager.saveNode node s)
  | None => StateManager.saveNode node s
  end.

(** The fields when the expansion step is about to run. *)
Definition inserted (nid : string) (req : ReasoningRequest) (w : AStar.t)
  : AStar.t :=
  let parent := parentOf req (AStar.stateManager w) in
  let node := AStar.createNode nid req parent in
  {| AStar.stateManager := linked node parent (AStar.stateManager w);
     AStar.openSet := Map_set nid node (AStar.openSet w);
     AStar.closedSet := AStar.closedSet w |}.

(** The open set is a map from node ids to the nodes that carry them. *)
Definition keyedById (m : JsMap ThoughtNode) : Prop :=
  NoDup (Map_keys m) /\ forall k n, In (k, n) m -> k = id n.

(** Every member of the open set has a root path in the store. *)
Definition pathsDefined (w : AStar.t) : Prop :=
  forall n, In n (Map_values (AStar.openSet w)) ->
    exists path, StateManager.getPath (id n) (AStar.stateManager w) = inr path.

(** [g(n)] as the design words it: the scores of the nodes on the root
    path of [n], added up. *)
Fixpoint pathCost (path : list ThoughtNode) : Q :=
  match path with
  | [] => 0
  | n :: rest => score n + pathCost rest
  end.

(** [h(n)] as the design words it: the heuristic value stored in the
    node, a node without one counting for nothing. *)
Definition storedHeuristic (n : ThoughtNode) : Q :=
  match heuristicValue n with
  | Some h => h
  | None => 0
  end.

(** What the design says of one expansion step: a member [n] of least
    [f = g + h] is chosen; the step returns with [n], and [n] alone,
    taken out of the open set and entered in the closed set, and with
    nothing else changed. *)
Definition expandsLeast (w : AStar.t) : Prop :=
  exists n path,
    In (id n, n) (AStar.openSet w) /\
    StateManager.getPath (id n) (AStar.stateManager w) = inr path /\
    (forall m pm,
        In m (Map_values (AStar.openSet w)) ->
        StateManager.getPath (id m) (AStar.stateManager w) = inr pm ->
        pathCost path + storedHeuristic n <= pathCost pm + storedHeuristic m) /\
    exists w',
      AStar._processAStarStep w = (w', inr tt) /\
      (forall k m, In (k, m) (AStar.openSet w') <->
                   In (k, m) (AStar.openSet w) /\ k <> id n) /\
      S (Map_size (AStar.openSet w')) = Map_size (AStar.openSet w) /\
      Map_get (id n) (AStar.closedSet w') = Some n /\
      (forall k, k <> id n ->
                 Map_get k (AStar.closedSet w') = Map_get k (AStar.closedSet w)) /\
      AStar.stateManager w' = AStar.stateManager w.

(** The other outcome of an expansion step: the scan of the open set
    reaches a member [n] without a root path, every member before it
    having one; the step throws the error of the path query of [n] and
    leaves the two sets and the store as they were. *)
Definition stepFails (w : AStar.t) : Prop :=
  exists before n after e,
    Map_values (AStar.openSet w) = before ++ n :: after /\
    (forall m, In m before ->
       exists pm, StateManager.getPath (id m) (AStar.stateManager w) = inr pm) /\
    StateManager.getPath (id n) (AStar.stateManager w) = inl e /\
    AStar._processAStarStep w = (w, inl e).

(** The open and the closed set share no key, their keys are the ids
    in [C], and the open set is keyed by node id. *)
Definition partitions (C : list string) (w : AStar.t) : Prop :=
  (forall k n, In (k, n) (AStar.openSet w) -> k = id n) /\
  (forall k, Map_has k (AStar.openSet w) = true ->
             Map_has k (AStar.closedSet w) = false) /\
  (forall k, In k C <->
             Map_has k (AStar.openSet w) = true \/
             Map_has k (AStar.closedSet w) = true).

(** The fields of the constraint strategy once [processThought] has
    saved and linked the node and merged its domains and assignments. *)
Definition merged (nid : string) (req : ReasoningRequest) (w : CSP.t) : CSP.t :=
  let parent := parentOf req (CSP.stateManager w) in
  let node := CSP.createNode nid req parent in
  {| CSP.stateManager := linked node parent (CSP.stateManager w);
     CSP.domains :=
       Map_setAll (entriesOrEmpty (prop "domains" (CSP.constraintsOf req)))
                  (CSP.domains w);
     CSP.constraints_ := CSP.constraints_ w;
     CSP.assignments :=
       Map_setAll (entriesOrEmpty (prop "assignments" (CSP.constraintsOf req)))
                  (CSP.assignments w) |}.

(** An outcome that reports the constraints as satisfied wherever it
    reports on them. *)
Definition reportsSatisfied (out : CSP.Outcome) : Prop :=
  match out with
  | CSP.Responded r => constraintsSatisfied r = Some true
  | CSP.Measured m => CSP.m_constraintsSatisfied m = true
  | _ => True
  end.

(** [best] is a node of [ns] that no node of [ns] outscores. *)
Definition highest (ns : list ThoughtNode) (best : ThoughtNode) : Prop :=
  In best ns /\ forall n, In n ns -> score n <= score best.

(** The fallback of the best-path query as the design words it: with
    no satisfying node, the path returned is the one to the
    highest-scoring complete node. *)
Definition fallbackToBestComplete (w : CSP.t) : Prop :=
  let all := StateManager.getAllNodes (CSP.stateManager w) in
  filter CSP.satisfying all = [] ->
  forall best,
    highest (filter isComplete all) best ->
    snd (CSP.getBestPath w) = StateManager.getPath (id best) (CSP.stateManager w).

(** Sum, mean and variance of a list of numbers, as one writes them
    on paper. *)
Fixpoint total (xs : list Q) : Q :=
  match xs with
  | [] => 0
  | x :: r => x + total r
  end.

Definition count (xs : list Q) : Q := inject_Z (Z.of_nat (List.length xs)).

Definition mean (xs : list Q) : Q := total xs / count xs.

Definition variance (xs : list Q) : Q :=
  total (map (fun x => (x - mean xs) ^ 2) xs) / count xs.

(** The [k] most recent entries of a list in insertion order. *)
Definition mostRecent {A} (k : nat) (l : list A) : list A :=
  rev (firstn k (rev l)).

(** The scores of a list of nodes as doubles. *)
Definition scores64 (nodes : list ThoughtNode) : list float :=
  map (fun n => Double.ofQ (score n)) nodes.

(** Sum, mean and variance of a list of doubles in binary64, the sums
    taken from the left. *)
Fixpoint total64 (acc : float) (xs : list float) : float :=
  match xs with
  | [] => acc
  | x :: r => total64 (acc + x)%float r
  end.

Definition mean64 (xs : list float) : float :=
  (total64 0 xs / Double.ofNat (List.length xs))%float.

Definition variance64 (xs : list float) : float :=
  (total64 0 (map (fun x => (x - mean64 xs) * (x - mean64 xs)) xs)
   / Double.ofNat (List.length xs))%float.

(** A double with the sign bit [s] that is no NaN. *)
Definition signed (s : bool) (x : spec_float) : Prop :=
  match x with
  | S754_nan => False
  | S754_zero s' | S754_infinity s' | S754_finite s' _ _ => s' = s
  end.

(** A double that is a zero, a positive number or [+Infinity]. *)
Definition nonneg (x : spec_float) : Prop :=
  match x with
  | S754_nan => False
  | S754_zero _ => True
  | S754_infinity s | S754_finite s _ _ => s = false
  end.

(** A double that is a number: no NaN and no infinity. *)
Definition finiteSF (x : spec_float) : Prop :=
  match x with
  | S754_zero _ | S754_finite _ _ _ => True
  | _ => False
  end.

(** The identifiers that the hybrid strategy registers. *)
Definition hybridNames : list string :=
  [BEAM_SEARCH; MCTS; A_STAR; CONSTRAINT_SATISFACTION].

(** The identifiers that the dispatcher registers. *)
Definition reasonerNames : list string :=
  [BEAM_SEARCH; MCTS; A_STAR; CONSTRAINT_SATISFACTION; HYBRID].

(** The override of the hybrid switch as the design words it: the
    strategy that a request asks for is the active one after the
    switch. *)
Definition explicitChoiceApplied (w : Hybrid.t) (req : ReasoningRequest) : Prop :=
  forall s, strategyType req = Some s ->
    Hybrid.activeNameOf (fst (Hybrid._evaluateStrategySwitch req w)) = s.

(** The message that [handle] reports for a caught exception. *)
Definition messageOf (e : Exn) : string :=
  match e with
  | JsError _ message => message
  | JsThrown _ => "Unknown error in reasoning engine"
  end.

End Vocabulary.

(** ** Vocabulary of the further statements *)

Section FurtherVocabulary.
Context {base : BaseStrategy}.

(** [request.totalThoughts || 10]: the step budget of the heuristic. *)
Definition stepsBudget (request : ReasoningRequest) : Q :=
  if Qeq_bool (totalThoughts request) 0 then 10 else totalThoughts request.

(** The nodes that the best-path query of the A* strategy looks at. *)
Definition seen (w : AStar.t) : list ThoughtNode :=
  Map_values (AStar.openSet w) ++ Map_values (AStar.closedSet w).

(** The size of the domain of a variable when that size is a number. *)
Definition sizeOfDomain (w : CSP.t) (variable : string) : Q :=
  match CSP.domainSizeOf (Map_get variable (CSP.domains w)) with
  | JNum q => q
  | _ => 0
  end.

(** The domain sizes that the selection compares are numbers: the
    domains are arrays, strings, or objects with a numeric [length]. *)
Definition numericDomains (w : CSP.t) : Prop :=
  forall variable, In variable (CSP.unassignedOf w) ->
    exists q, CSP.domainSizeOf (Map_get variable (CSP.domains w)) = JNum q.

End FurtherVocabulary.

(** * Properties *)

(** ** Maps in insertion order *)

Section MapFacts.
Variable V : Type.
Implicit Types (m : JsMap V) (k : string) (v : V).

Lemma Map_get_set_same k v m : Map_get k (Map_set k v m) = Some v.
Proof.
  induction m as [|[k' v'] r IH]; simpl.
  - now rewrite String.eqb_refl.
  - destruct (String.eqb k' k) eqn:E; simpl.
    + now rewrite String.eqb_refl.
    + now rewrite E.
Qed.

Lemma Map_get_set_other k k' v m :
  k <> k' -> Map_get k' (Map_set k v m) = Map_get k' m.
Proof.
  intros N. induction m as [|[k0 v0] r IH]; simpl.
  - apply String.eqb_neq in N. now rewrite N.
  - destruct (String.eqb k0 k) eqn:E; simpl.
    + apply String.eqb_eq in E. subst k0.
      apply String.eqb_neq in N. now rewrite N.
    + now rewrite IH.
Qed.

Lemma Map_get_delete_same k m : Map_get k (Map_delete k m) = None.
Proof.
  induction m as [|[k0 v0] r IH]; simpl; [reflexivity|].
  destruct (String.eqb k0 k) eqn:E; simpl; [assumption|].
  now rewrite E.
Qed.

Lemma Map_get_delete_other k k' m :
  k <> k' -> Map_get k' (Map_delete k m) = Map_get k' m.
Proof.
  intros N. induction m as [|[k0 v0] r IH]; simpl; [reflexivity|].
  destruct (String.eqb k0 k) eqn:E; simpl.
  - apply String.eqb_eq in E. subst k0.
    apply String.eqb_neq in N. now rewrite N.
  - now rewrite IH.
Qed.

Lemma Map_has_set_same k v m : Map_has k (Map_set k v m) = true.
Proof. unfold Map_has. now rewrite Map_get_set_same. Qed.

Lemma Map_has_set_other k k' v m :
  k <> k' -> Map_has k' (Map_set k v m) = Map_has k' m.
Proof. intros N. unfold Map_has. now rewrite Map_get_set_other. Qed.

Lemma Map_has_delete_same k m : Map_has k (Map_delete k m) = false.
Proof. unfold Map_has. now rewrite Map_get_delete_same. Qed.

Lemma Map_has_delete_other k k' m :
  k <> k' -> Map_has k' (Map_delete k m) = Map_has k' m.
Proof. intros N. unfold Map_has. now rewrite Map_get_delete_other. Qed.

Lemma In_Map_set k v k' v' m :
  In (k', v') (Map_set k v m) -> (k' = k /\ v' = v) \/ In (k', v') m.
Proof.
  induction m as [|[k0 v0] r IH]; simpl.
  - intros [H|[]]. inversion H. now left.
  - destruct (String.eqb k0 k) eqn:E; simpl.
    + intros [H|H]; [inversion H; now left | right; now right].
    + intros [H|H]; [right; now left|].
      destruct (IH H) as [L|R]; [now left | right; now right].
Qed.

Lemma In_Map_delete k k' v' m :
  In (k', v') (Map_delete k m) <-> In (k', v') m /\ k' <> k.
Proof.
  unfold Map_delete. rewrite filter_In. simpl.
  rewrite negb_true_iff, String.eqb_neq. tauto.
Qed.

Lemma Map_has_In k m : Map_has k m = true <-> In k (Map_keys m).
Proof.
  unfold Map_has, Map_keys.
  induction m as [|[k0 v0] r IH]; simpl.
  - split; [discriminate | tauto].
  - destruct (String.eqb k0 k) eqn:E.
    + apply String.eqb_eq in E. split; auto.
    + apply String.eqb_neq in E. rewrite IH. split; [auto | intros [H|H]; tauto].
Qed.

Lemma Map_delete_size k m :
  NoDup (Map_keys m) -> In k (Map_keys m) ->
  S (Map_size (Map_delete k m)) = Map_size m.
Proof.
  unfold Map_keys, Map_size, Map_delete.
  induction m as [|[k0 v0] r IH]; simpl; [tauto|].
  intros ND HIn. inversion ND as [|? ? Hnot ND']; subst.
  destruct (String.eqb k0 k) eqn:E; simpl.
  - apply String.eqb_eq in E. subst k0. f_equal.
    clear IH ND HIn ND'. induction r as [|[k1 v1] r IH]; simpl; [reflexivity|].
    simpl in Hnot.
    destruct (String.eqb k1 k) eqn:E1; simpl.
    + apply String.eqb_eq in E1. tauto.
    + f_equal. apply IH. tauto.
  - f_equal. apply IH; [assumption|].
    destruct HIn as [H|H]; [|assumption].
    apply String.eqb_neq in E. tauto.
Qed.


End MapFacts.

(** ** The method monad *)

Lemma bind_run {W A B} (c : Js W A) (k : A -> Js W B) (w : W) :
  bind c k w = match c w with
               | (w', inl e) => (w', inl e)
               | (w', inr a) => k a w'
               end.
Proof. reflexivity. Qed.

(** ** The thought store *)

Lemma getNode_id i s n : StateManager.getNode i s = Some n -> id n = i.
Proof.
  unfold StateManager.getNode. intros H.
  apply find_some in H. destruct H as [_ H].
  now apply String.eqb_eq in H.
Qed.

Lemma saveNode_capacity n s :
  StateManager.capacity (StateManager.saveNode n s) = StateManager.capacity s.
Proof.
  unfold StateManager.saveNode.
  now destruct (existsb _ _).
Qed.

Lemma find_overwrite (n : ThoughtNode) (l : list ThoughtNode) :
  existsb (fun m => (id m =? id n)%string) l = true ->
  find (fun m => (id m =? id n)%string)
       (map (fun m => if (id m =? id n)%string then n else m) l) = Some n.
Proof.
  induction l as [|m r IH]; simpl; [discriminate|].
  destruct (String.eqb (id m) (id n)) eqn:E; simpl.
  - now rewrite String.eqb_refl.
  - rewrite E. exact IH.
Qed.

Lemma find_skipn_snoc (p : ThoughtNode -> bool) (n : ThoughtNode) :
  p n = true ->
  forall (l : list ThoughtNode) (k : nat),
    existsb p l = false -> (k <= List.length l)%nat ->
    find p (skipn k (l ++ [n])) = Some n.
Proof.
  intros Hn. induction l as [|m r IH]; intros k Hex Hk; simpl in *.
  - assert (k = 0%nat) by lia. subst k. simpl. now rewrite Hn.
  - apply orb_false_iff in Hex. destruct Hex as [Hm Hr].
    destruct k as [|k]; simpl.
    + rewrite Hm. specialize (IH 0%nat Hr). simpl in IH. apply IH. lia.
    + apply IH; [assumption | lia].
Qed.

(** The capacity bound is an invariant of the store: [new] and [clear]
    give the empty table, and [saveNode] evicts down to the bound. *)
Lemma saveNode_bound n s :
  (List.length (StateManager.nodes s) <= StateManager.capacity s)%nat ->
  (List.length (StateManager.nodes (StateManager.saveNode n s))
   <= StateManager.capacity (StateManager.saveNode n s))%nat.
Proof.
  intros H. unfold StateManager.saveNode.
  destruct (existsb _ _); simpl.
  - now rewrite length_map.
  - unfold StateManager.evict. rewrite length_skipn. lia.
Qed.

(** A store within its bound that holds a node can hold a node. *)
Lemma getNode_capacity i s n :
  (List.length (StateManager.nodes s) <= StateManager.capacity s)%nat ->
  StateManager.getNode i s = Some n ->
  (0 < StateManager.capacity s)%nat.
Proof.
  unfold StateManager.getNode. intros H Hn.
  destruct (StateManager.nodes s); [discriminate | simpl in H; lia].
Qed.

(** The [reduce] of the path cost adds up the scores of the path. *)
Lemma sumScores_from (path : list ThoughtNode) : forall a,
  fold_left (fun acc n => acc + score n) path a
  == a + fold_right (fun n acc => score n + acc) 0 path.
Proof.
  induction path as [|n r IH]; intros a; simpl.
  - ring.
  - rewrite IH. ring.
Qed.

Lemma sumScores_sum (path : list ThoughtNode) :
  sumScores path == fold_right (fun n acc => score n + acc) 0 path.
Proof. unfold sumScores. rewrite sumScores_from. ring. Qed.

(** A node just saved is found again, as long as the store can hold a
    node at all. *)
Lemma getNode_saveNode_same n s :
  (0 < StateManager.capacity s)%nat ->
  StateManager.getNode (id n) (StateManager.saveNode n s) = Some n.
Proof.
  intros Hc. unfold StateManager.getNode, StateManager.saveNode.
  destruct (existsb _ _) eqn:E; simpl.
  - now apply find_overwrite.
  - unfold StateManager.evict. apply find_skipn_snoc.
    + apply String.eqb_refl.
    + exact E.
    + rewrite length_app. simpl. lia.
Qed.

(** ** The A* strategy *)

Section AStarFacts.
Context {base : BaseStrategy}.

Lemma fScore_run n w :
  AStar.fScore n w = (w, fOf (AStar.stateManager w) n).
Proof.
  unfold AStar.fScore, AStar.getPath, fOf, bind, ret.
  now destruct (StateManager.getPath _ _).
Qed.

Lemma lowestLoop_state ns : forall acc w,
  fst (AStar.lowestLoop ns acc w) = w.
Proof.
  induction ns as [|n r IH]; intros acc w; simpl; [reflexivity|].
  rewrite bind_run, fScore_run.
  destruct (fOf _ n) as [e|f]; [reflexivity|].
  destruct acc as [[lowestF c]|]; [|apply IH].
  destruct (Qlt_le_dec f lowestF); apply IH.
Qed.

(** The loop returns the first node of least [f] when every [f] is
    defined. *)
Lemma lowestLoop_least ns : forall acc w,
  (forall n, In n ns -> exists q, fOf (AStar.stateManager w) n = inr q) ->
  exists r, AStar.lowestLoop ns acc w = (w, inr r) /\
    match r with
    | None => ns = [] /\ acc = None
    | Some (f, n) =>
        ((In n ns /\ fOf (AStar.stateManager w) n = inr f) \/ acc = Some (f, n)) /\
        (forall m fm, In m ns -> fOf (AStar.stateManager w) m = inr fm -> f <= fm) /\
        (forall fa na, acc = Some (fa, na) -> f <= fa)
    end.
Proof.
  induction ns as [|n r IH]; intros acc w Hdef; simpl.
  - exists acc. split; [reflexivity|].
    destruct acc as [[f n]|]; [|tauto].
    split; [now right|]. split; [intros ? ? []|].
    intros fa na H. inversion H. apply Qle_refl.
  - rewrite bind_run, fScore_run.
    destruct (Hdef n (or_introl eq_refl)) as [q Hq]. rewrite Hq.
    assert (Hdef' : forall m, In m r ->
              exists q', fOf (AStar.stateManager w) m = inr q')
      by (intros m Hm; apply Hdef; now right).
    destruct acc as [[lowestF c]|].
    + destruct (Qlt_le_dec q lowestF) as [Hlt|Hge].
      * destruct (IH (Some (q, n)) w Hdef') as [res [Hrun Hres]].
        exists res. split; [exact Hrun|].
        destruct res as [[f b]|]; [|destruct Hres as [_ H]; discriminate].
        destruct Hres as [Hsrc [Hmin Hacc]].
        assert (Hfq : f <= q) by (apply (Hacc q n); reflexivity).
        split; [|split].
        -- destruct Hsrc as [[Hin Hf]|Heq].
           ++ left. split; [now right | exact Hf].
           ++ inversion Heq; subst. left. split; [now left | exact Hq].
        -- intros m fm [Hm|Hm] Hfm.
           ++ subst m. rewrite Hq in Hfm. inversion Hfm; subst. exact Hfq.
           ++ now apply (Hmin m).
        -- intros fa na H. inversion H; subst.
           apply Qle_trans with q; [exact Hfq | now apply Qlt_le_weak].
      * destruct (IH (Some (lowestF, c)) w Hdef') as [res [Hrun Hres]].
        exists res. split; [exact Hrun|].
        destruct res as [[f b]|]; [|destruct Hres as [_ H]; discriminate].
        destruct Hres as [Hsrc [Hmin Hacc]].
        assert (Hfl : f <= lowestF) by (apply (Hacc lowestF c); reflexivity).
        split; [|split].
        -- destruct Hsrc as [[Hin Hf]|Heq].
           ++ left. split; [now right | exact Hf].
           ++ now right.
        -- intros m fm [Hm|Hm] Hfm.
           ++ subst m. rewrite Hq in Hfm. inversion Hfm; subst.
              now apply Qle_trans with lowestF.
           ++ now apply (Hmin m).
        -- intros fa na H. now inversion H; subst.
    + destruct (IH (Some (q, n)) w Hdef') as [res [Hrun Hres]].
      exists res. split; [exact Hrun|].
      destruct res as [[f b]|]; [|destruct Hres as [_ H]; discriminate].
      destruct Hres as [Hsrc [Hmin Hacc]].
      assert (Hfq : f <= q) by (apply (Hacc q n); reflexivity).
      split; [|split].
      * destruct Hsrc as [[Hin Hf]|Heq].
        -- left. split; [now right | exact Hf].
        -- inversion Heq; subst. left. split; [now left | exact Hq].
      * intros m fm [Hm|Hm] Hfm.
        -- subst m. rewrite Hq in Hfm. inversion Hfm; subst. exact Hfq.
        -- now apply (Hmin m).
      * intros fa na H. discriminate.
Qed.

(** Where the loop takes its result from, whether or not it throws. *)
Lemma lowestLoop_source ns : forall acc w r,
  snd (AStar.lowestLoop ns acc w) = inr (Some r) ->
  In (snd r) ns \/ acc = Some r.
Proof.
  induction ns as [|n rest IH]; intros acc w r; simpl.
  - intros H. inversion H. now right.
  - rewrite bind_run, fScore_run.
    destruct (fOf _ n) as [e|f]; [discriminate|].
    destruct acc as [[lowestF c]|].
    + destruct (Qlt_le_dec f lowestF); intros H; apply IH in H.
      * destruct H as [H|H]; [left; now right|].
        inversion H; subst. left. now left.
      * destruct H as [H|H]; [left; now right | now right].
    + intros H. apply IH in H.
      destruct H as [H|H]; [left; now right|].
      inversion H; subst. left. now left.
Qed.

Lemma step_run w :
  AStar._processAStarStep w =
  if (Map_size (AStar.openSet w) =? 0)%nat then (w, inr tt)
  else match AStar.lowestLoop (Map_values (AStar.openSet w)) None w with
       | (w', inl e) => (w', inl e)
       | (w', inr None) => (w', inr tt)
       | (w', inr (Some (_, n))) => (moved n w', inr tt)
       end.
Proof.
  unfold AStar._processAStarStep, bind, gets, modify, ret, moved,
    AStar.withOpen, AStar.withClosed.
  destruct (Map_size (AStar.openSet w) =? 0)%nat; [reflexivity|].
  destruct (AStar.lowestLoop _ None w) as [w1 [e|[[f n]|]]];
    try reflexivity.
  simpl. now destruct (isComplete n).
Qed.

(** An expansion step leaves the fields as they are or moves one
    member of the open set. *)
Lemma step_cases w :
  fst (AStar._processAStarStep w) = w \/
  exists n, In n (Map_values (AStar.openSet w)) /\
            AStar._processAStarStep w = (moved n w, inr tt).
Proof.
  rewrite step_run.
  destruct (Map_size (AStar.openSet w) =? 0)%nat; [now left|].
  pose proof (lowestLoop_state (Map_values (AStar.openSet w)) None w) as Hst.
  pose proof (lowestLoop_source (Map_values (AStar.openSet w)) None w) as Hsrc.
  destruct (AStar.lowestLoop _ None w) as [w1 [e|[[f n]|]]]; simpl in Hst; subst w1.
  - now left.
  - right. exists n. split; [|reflexivity].
    destruct (Hsrc (f, n) eq_refl) as [H|H]; [exact H | discriminate].
  - now left.
Qed.

Lemma step_store w :
  AStar.stateManager (fst (AStar._processAStarStep w)) = AStar.stateManager w.
Proof.
  destruct (step_cases w) as [H|[n [_ H]]]; rewrite H; reflexivity.
Qed.

(** [processThought] in three stages: the node is saved, linked and
    put in the open set; the expansion step runs; the response is
    built from the path of the new node and the two sets. *)
Lemma AStar_process_run nid req w :
  AStar.processThought nid req w =
  match AStar._processAStarStep (inserted nid req w) with
  | (w2, inl e) => (w2, inl e)
  | (w2, inr _) =>
      match StateManager.getPath nid (AStar.stateManager w2) with
      | inl e => (w2, inl e)
      | inr path =>
          (w2, inr (AStar.respond
                      (AStar.createNode nid req (parentOf req (AStar.stateManager w)))
                      req path (AStar.openSet w2) (AStar.closedSet w2)))
      end
  end.
Proof.
  unfold AStar.processThought, inserted, parentOf, linked.
  destruct (truthyStr (req_parentId req)) as [pid|].
  - unfold bind at 1. unfold AStar.getNode, gets at 1.
    destruct (StateManager.getNode pid (AStar.stateManager w)) as [p|];
      reflexivity.
  - reflexivity.
Qed.

Lemma AStar_process_state nid req w :
  fst (AStar.processThought nid req w) =
  fst (AStar._processAStarStep (inserted nid req w)).
Proof.
  rewrite AStar_process_run.
  destruct (AStar._processAStarStep _) as [w2 [e|u]]; [reflexivity|].
  now destruct (StateManager.getPath nid (AStar.stateManager w2)).
Qed.

(** *** Claim C4: the expansion step *)

Lemma In_values_entry (m : JsMap ThoughtNode) n :
  In n (Map_values m) -> exists k, In (k, n) m.
Proof.
  unfold Map_values. rewrite in_map_iff.
  intros [[k v] [E H]]. simpl in E. subst v. now exists k.
Qed.

Lemma In_entry_key (m : JsMap ThoughtNode) k n :
  In (k, n) m -> In k (Map_keys m).
Proof.
  intros H. unfold Map_keys. apply in_map_iff. now exists (k, n).
Qed.

(** The path cost that the loop adds up is the [g] of the design. *)
Lemma sumScores_pathCost (path : list ThoughtNode) :
  sumScores path == pathCost path.
Proof.
  rewrite sumScores_sum.
  induction path as [|n r IH]; simpl; [reflexivity | now rewrite IH].
Qed.

Lemma fOf_cost s n path :
  StateManager.getPath (id n) s = inr path ->
  exists f, fOf s n = inr f /\ f == pathCost path + storedHeuristic n.
Proof.
  intros Hp. unfold fOf. rewrite Hp. eexists. split; [reflexivity|].
  rewrite sumScores_pathCost. unfold storedHeuristic, orZero.
  destruct (heuristicValue n); reflexivity.
Qed.

Lemma fOf_undefined s n e :
  fOf s n = inl e <-> StateManager.getPath (id n) s = inl e.
Proof.
  unfold fOf. destruct (StateManager.getPath (id n) s); split; congruence.
Qed.

(** The scan throws at the first member without a root path. *)
Lemma lowestLoop_fails ns : forall acc w,
  (exists n e, In n ns /\ fOf (AStar.stateManager w) n = inl e) ->
  exists before n after e,
    ns = before ++ n :: after /\
    (forall m, In m before -> exists q, fOf (AStar.stateManager w) m = inr q) /\
    fOf (AStar.stateManager w) n = inl e /\
    AStar.lowestLoop ns acc w = (w, inl e).
Proof.
  induction ns as [|n r IH]; intros acc w [x [e [Hx He]]]; [destruct Hx|].
  simpl. rewrite bind_run, fScore_run.
  destruct (fOf (AStar.stateManager w) n) as [e0|f] eqn:Hn.
  - exists [], n, r, e0. split; [reflexivity|].
    split; [intros m []|]. split; [exact Hn | reflexivity].
  - assert (Hr : exists y e', In y r /\ fOf (AStar.stateManager w) y = inl e').
    { destruct Hx as [Hx|Hx]; [subst x; congruence | eauto]. }
    assert (Hgo : forall acc',
              exists before n' after e',
                n :: r = before ++ n' :: after /\
                (forall m, In m before ->
                   exists q, fOf (AStar.stateManager w) m = inr q) /\
                fOf (AStar.stateManager w) n' = inl e' /\
                AStar.lowestLoop r acc' w = (w, inl e')).
    { intros acc'.
      destruct (IH acc' w Hr) as [before [n' [after [e' [Hsplit [Hdef [Hf Hrun]]]]]]].
      exists (n :: before), n', after, e'. split; [simpl; now rewrite Hsplit|].
      split; [|now split].
      intros m [Hm|Hm]; [subst m; eauto | now apply Hdef]. }
    destruct acc as [[lowestF c]|]; [|apply Hgo].
    destruct (Qlt_le_dec f lowestF); apply Hgo.
Qed.

(** Either every member of a list has its [f], or one has none. *)
Lemma fOf_all_or_not s ns :
  (forall n, In n ns -> exists q, fOf s n = inr q) \/
  (exists n e, In n ns /\ fOf s n = inl e).
Proof.
  induction ns as [|n r [IH|[x [e [Hx He]]]]].
  - left. intros n [].
  - destruct (fOf s n) as [e|q] eqn:Hn.
    + right. exists n, e. split; [now left | exact Hn].
    + left. intros m [Hm|Hm]; [subst m; eauto | now apply IH].
  - right. exists x, e. split; [now right | exact He].
Qed.

(** One expansion step on a non-empty open set keyed by node id: when
    every member has a root path, a member of least f is moved;
    otherwise the step throws at the first member without one and
    moves none. *)
Lemma step_least_or_fails (w : AStar.t) :
  AStar.openSet w <> [] ->
  keyedById (AStar.openSet w) ->
  (pathsDefined w -> expandsLeast w) /\
  (~ pathsDefined w -> stepFails w).
Proof.
  intros Hne [Hnd Hkey].
  assert (Hsize : (Map_size (AStar.openSet w) =? 0)%nat = false).
  { destruct (AStar.openSet w); [now elim Hne | reflexivity]. }
  split.
  - intros Hpaths.
    assert (Hdef : forall n, In n (Map_values (AStar.openSet w)) ->
                     exists q, fOf (AStar.stateManager w) n = inr q).
    { intros n Hn. destruct (Hpaths n Hn) as [path Hp].
      destruct (fOf_cost _ _ Hp) as [f [Hf _]]. eauto. }
    destruct (lowestLoop_least (Map_values (AStar.openSet w)) None w Hdef)
      as [res [Hrun Hres]].
    destruct res as [[f n]|].
    + destruct Hres as [Hsrc [Hmin _]].
      destruct Hsrc as [[Hin Hf]|Habs]; [|discriminate].
      destruct (Hpaths n Hin) as [path Hpath].
      destruct (fOf_cost _ _ Hpath) as [f' [Hf' Hcost]].
      rewrite Hf in Hf'. inversion Hf'; subst f'; clear Hf'.
      destruct (In_values_entry _ _ Hin) as [k Hk].
      assert (k = id n) by (now apply Hkey). subst k.
      exists n, path. split; [exact Hk|]. split; [exact Hpath|]. split.
      * intros m pm Hm Hpm.
        destruct (fOf_cost _ _ Hpm) as [fm [Hfm Hcm]].
        rewrite <- Hcost, <- Hcm. now apply (Hmin m).
      * exists (moved n w). split.
        -- rewrite step_run, Hsize. now rewrite Hrun.
        -- simpl. split; [intros k m; apply In_Map_delete|].
           split; [apply Map_delete_size; [exact Hnd | eapply In_entry_key; eauto]|].
           split; [apply Map_get_set_same|].
           split; [intros k Hk'; apply Map_get_set_other; congruence | reflexivity].
    + destruct Hres as [Hnil _].
      destruct (AStar.openSet w); [now elim Hne | discriminate].
  - intros Hnot.
    destruct (fOf_all_or_not (AStar.stateManager w) (Map_values (AStar.openSet w)))
      as [Hall|Hsome].
    + elim Hnot. intros n Hn. destruct (Hall n Hn) as [q Hq].
      unfold fOf in Hq.
      destruct (StateManager.getPath (id n) (AStar.stateManager w)) as [e|path];
        [discriminate | eauto].
    + destruct (lowestLoop_fails (Map_values (AStar.openSet w)) None w Hsome)
        as [before [n [after [e [Hsplit [Hdef [Hf Hrun]]]]]]].
      exists before, n, after, e. split; [exact Hsplit|]. split.
      * intros m Hm. destruct (Hdef m Hm) as [q Hq]. unfold fOf in Hq.
        destruct (StateManager.getPath (id m) (AStar.stateManager w)) as [e'|pm];
          [discriminate | eauto].
      * split; [now apply fOf_undefined|].
        rewrite step_run, Hsize. now rewrite Hrun.
Qed.

(** *** Claim C5: the two sets partition the created nodes *)

Lemma fScores_state ns : forall w, fst (AStar.fScores ns w) = w.
Proof.
  induction ns as [|n r IH]; intros w; simpl; [reflexivity|].
  rewrite bind_run, fScore_run.
  destruct (fOf _ n); [reflexivity|].
  rewrite bind_run. specialize (IH w).
  destruct (AStar.fScores r w) as [w' [e|fs]]; simpl in *; now subst.
Qed.

Lemma AStar_getBestPath_state w : fst (AStar.getBestPath w) = w.
Proof.
  unfold AStar.getBestPath, bind, gets, AStar.getPath, ret.
  destruct (AStar.bestCompleteLoop _ None); [reflexivity|].
  destruct (Map_values (AStar.openSet w) ++ Map_values (AStar.closedSet w))
    as [|first rest]; [reflexivity|].
  pose proof (fScores_state (first :: rest) w) as H.
  destruct (AStar.fScores (first :: rest) w) as [w' [e|fs]];
    simpl in *; now subst.
Qed.

Lemma partitions_inserted C nid req w :
  ~ In nid C -> partitions C w ->
  partitions (C ++ [nid]) (inserted nid req w).
Proof.
  intros Hfresh [Hkey [Hdis Hcov]]. unfold partitions, inserted. simpl.
  split; [|split].
  - intros k n H. apply In_Map_set in H.
    destruct H as [[Hk Hn]|H]; [subst; reflexivity | now apply Hkey].
  - intros k H. destruct (string_dec nid k) as [E|N].
    + subst k. destruct (Map_has nid (AStar.closedSet w)) eqn:Hc; [|reflexivity].
      elim Hfresh. apply Hcov. now right.
    + rewrite Map_has_set_other in H by exact N. now apply Hdis.
  - intros k. rewrite in_app_iff. simpl.
    destruct (string_dec nid k) as [E|N].
    + subst k. rewrite Map_has_set_same. tauto.
    + rewrite Map_has_set_other by exact N. rewrite Hcov. tauto.
Qed.

Lemma partitions_moved C n w :
  In n (Map_values (AStar.openSet w)) ->
  partitions C w -> partitions C (moved n w).
Proof.
  intros Hin [Hkey [Hdis Hcov]]. unfold partitions, moved. simpl.
  assert (Hopen : Map_has (id n) (AStar.openSet w) = true).
  { destruct (In_values_entry _ _ Hin) as [k Hk].
    assert (k = id n) by (now apply Hkey). subst k.
    apply Map_has_In. eapply In_entry_key; eauto. }
  split; [|split].
  - intros k m H. apply In_Map_delete in H. now apply Hkey.
  - intros k H. destruct (string_dec (id n) k) as [E|N].
    + subst k. rewrite Map_has_delete_same in H. discriminate.
    + rewrite Map_has_delete_other in H by exact N.
      rewrite Map_has_set_other by exact N. now apply Hdis.
  - intros k. destruct (string_dec (id n) k) as [E|N].
    + subst k. rewrite Map_has_set_same. rewrite Hcov. tauto.
    + rewrite Map_has_delete_other, Map_has_set_other by exact N.
      apply Hcov.
Qed.

Lemma partitions_step C w :
  partitions C w -> partitions C (fst (AStar._processAStarStep w)).
Proof.
  intros H. destruct (step_cases w) as [E|[n [Hin E]]]; rewrite E.
  - exact H.
  - now apply partitions_moved.
Qed.

Lemma partitions_processThought C nid req w :
  ~ In nid C -> partitions C w ->
  partitions (C ++ [nid]) (fst (AStar.processThought nid req w)).
Proof.
  intros Hfresh H. rewrite AStar_process_state.
  apply partitions_step. now apply partitions_inserted.
Qed.

Lemma run_snoc ops o w :
  AStar.run (ops ++ [o]) w = AStar.apply o (AStar.run ops w).
Proof. unfold AStar.run. now rewrite fold_left_app. Qed.

Lemma created_snoc ops o :
  AStar.created (ops ++ [o]) =
  match o with
  | AStar.OpProcessThought i _ => AStar.created ops ++ [i]
  | AStar.OpClear => []
  | _ => AStar.created ops
  end.
Proof. unfold AStar.created. now rewrite fold_left_app. Qed.

Lemma drawn_app ops1 ops2 :
  AStar.drawn (ops1 ++ ops2) = AStar.drawn ops1 ++ AStar.drawn ops2.
Proof.
  induction ops1 as [|o r IH]; simpl; [reflexivity|].
  destruct o; simpl; now rewrite IH.
Qed.

Lemma created_drawn ops i : In i (AStar.created ops) -> In i (AStar.drawn ops).
Proof.
  induction ops as [|o r IH] using rev_ind; [intros []|].
  rewrite created_snoc, drawn_app, in_app_iff.
  destruct o; simpl; try tauto.
  rewrite in_app_iff. simpl. tauto.
Qed.

Lemma partitions_run sm ops :
  NoDup (AStar.drawn ops) ->
  partitions (AStar.created ops) (AStar.run ops (AStar.new sm)).
Proof.
  induction ops as [|o r IH] using rev_ind; intros Hnd.
  - simpl. split; [intros k n []|]. split; [reflexivity|].
    intros k. simpl. split; [tauto | intros [H|H]; discriminate].
  - rewrite drawn_app in Hnd. rewrite run_snoc, created_snoc.
    assert (Hr : NoDup (AStar.drawn r)) by (eapply NoDup_app_remove_r; eauto).
    specialize (IH Hr).
    destruct o as [i req| | |]; simpl.
    + apply partitions_processThought; [|exact IH].
      intros Hin. apply created_drawn in Hin.
      simpl in Hnd. apply NoDup_remove_2 in Hnd.
      rewrite app_nil_r in Hnd. contradiction.
    + now rewrite AStar_getBestPath_state.
    + exact IH.
    + split; [intros k n []|]. split; [reflexivity|].
      intros k. simpl. split; [tauto | intros [H|H]; discriminate].
Qed.

(** C5. From a newly built strategy, along every sequence of its
    operations in which [uuidv4] never repeats an id, the open and the
    closed set have no key in common and every node created since the
    last [clear] is a key of exactly one of them.  A sequence is
    arbitrary, so this holds after each [processThought] of a longer
    one. *)
Theorem C5_open_closed_partition (sm : StateManager.t) (ops : list AStar.Op) :
  NoDup (AStar.drawn ops) ->
  let w := AStar.run ops (AStar.new sm) in
  (forall k, ~ (Map_has k (AStar.openSet w) = true /\
                Map_has k (AStar.closedSet w) = true)) /\
  (forall i, In i (AStar.created ops) ->
             xorb (Map_has i (AStar.openSet w))
                  (Map_has i (AStar.closedSet w)) = true).
Proof.
  intros Hnd w.
  destruct (partitions_run sm ops Hnd) as [_ [Hdis Hcov]]. fold w in Hdis, Hcov.
  split.
  - intros k [Ho Hc]. rewrite (Hdis k Ho) in Hc. discriminate.
  - intros i Hi. apply Hcov in Hi.
    destruct (Map_has i (AStar.openSet w)) eqn:Ho.
    + now rewrite (Hdis i Ho).
    + destruct Hi as [Hi|Hi]; [discriminate | now rewrite Hi].
Qed.



(** *** Claim C4: the expansion step of a request *)




(** *** Claim C10: the first request of a new strategy *)

Lemma getPath_saved_root n s :
  (0 < StateManager.capacity s)%nat -> parentId n = None ->
  StateManager.getPath (id n) (StateManager.saveNode n s) = inr [n].
Proof.
  intros Hc Hp. unfold StateManager.getPath.
  pose proof (getNode_saveNode_same n s Hc) as Hg.
  rewrite Hg, saveNode_capacity.
  destruct (StateManager.capacity s) as [|c]; [lia|].
  simpl. now rewrite Hg, Hp.
Qed.

Lemma first_step nid req sm :
  AStar._processAStarStep (inserted nid req (AStar.new sm)) =
  match StateManager.getPath nid
          (AStar.stateManager (inserted nid req (AStar.new sm))) with
  | inl e => (inserted nid req (AStar.new sm), inl e)
  | inr _ =>
      ({| AStar.stateManager :=
            AStar.stateManager (inserted nid req (AStar.new sm));
          AStar.openSet := [];
          AStar.closedSet :=
            [(nid, AStar.createNode nid req (parentOf req sm))] |}, inr tt)
  end.
Proof.
  rewrite step_run. unfold inserted. simpl.
  rewrite bind_run, fScore_run. unfold fOf. simpl.
  destruct (StateManager.getPath nid _) as [e|path]; [reflexivity|].
  simpl. unfold ret, moved. simpl.
  now rewrite String.eqb_refl.
Qed.

(** C10. The expansion step runs before the response is built: when
    the first request of a new strategy is answered, the node it
    created is already the one entry of the closed set, the open set
    is empty and the response says so, with [bestScore] the
    [-Infinity] of a maximum over nothing.  A request without parent
    on a store that can hold a node is answered. *)
Theorem C10_first_request_closes_its_node
  (sm : StateManager.t) (nid : string) (req : ReasoningRequest) :
  (forall w' resp,
      AStar.processThought nid req (AStar.new sm) = (w', inr resp) ->
      openSetSize resp = Some 0%nat /\
      closedSetSize resp = Some 1%nat /\
      bestScore resp = Some NegInfinity /\
      AStar.openSet w' = [] /\
      Map_keys (AStar.closedSet w') = [nid]) /\
  (req_parentId req = None -> (0 < StateManager.capacity sm)%nat ->
   exists w' resp,
     AStar.processThought nid req (AStar.new sm) = (w', inr resp)).
Proof.
  split.
  - intros w' resp. rewrite AStar_process_run, first_step.
    destruct (StateManager.getPath nid
                (AStar.stateManager (inserted nid req (AStar.new sm))))
      as [e|p] eqn:Hp; [discriminate|].
    cbn [AStar.stateManager]. rewrite Hp.
    intros H. inversion H; subst; clear H. simpl. repeat split.
  - intros Hroot Hcap. rewrite AStar_process_run, first_step.
    assert (Hp : parentOf req sm = None).
    { unfold parentOf. now rewrite Hroot. }
    assert (Hpath : exists path,
               StateManager.getPath nid
                 (AStar.stateManager (inserted nid req (AStar.new sm)))
               = inr path).
    { unfold inserted. simpl. rewrite Hp. simpl.
      eexists. apply (getPath_saved_root (AStar.createNode nid req None) sm Hcap).
      exact Hroot. }
    destruct Hpath as [path Hpath]. rewrite Hpath.
    cbn [AStar.stateManager]. rewrite Hpath.
    eexists. eexists. reflexivity.
Qed.

End AStarFacts.

(** ** The constraint strategy *)

Section CSPFacts.
Context {base : BaseStrategy}.

(** [processThought] never throws: it ends in the merged fields and
    answers with what the two private queries say of them. *)
Lemma CSP_process_run nid req w :
  CSP.processThought nid req w =
  (merged nid req w,
   inr (CSP.respond
          (CSP.createNode nid req (parentOf req (CSP.stateManager w)))
          (parentOf req (CSP.stateManager w)) req
          (CSP.checkConstraintsOf (merged nid req w))
          (CSP.unassignedOf (merged nid req w))
          (CSP.assignments (merged nid req w)))).
Proof.
  unfold CSP.processThought, merged, parentOf, linked.
  destruct (truthyStr (req_parentId req)) as [pid|].
  - unfold bind at 1. unfold CSP.getNode, gets at 1.
    destruct (StateManager.getNode pid (CSP.stateManager w)) as [p|];
      reflexivity.
  - reflexivity.
Qed.

(** *** Claim C9: the constraints index stays empty *)

Lemma check_empty w :
  CSP.constraints_ w = [] -> CSP.checkConstraintsOf w = true.
Proof. unfold CSP.checkConstraintsOf. now intros ->. Qed.

Lemma CSP_getBestPath_state w : fst (CSP.getBestPath w) = w.
Proof.
  unfold CSP.getBestPath, bind, gets, ret.
  destruct (List.length _ =? 0)%nat;
    now destruct (CSP.reduceBest _).
Qed.

Lemma apply_keeps_empty o w :
  CSP.constraints_ w = [] ->
  CSP.constraints_ (fst (CSP.apply o w)) = [] /\
  reportsSatisfied (snd (CSP.apply o w)).
Proof.
  intros H. destruct o as [nid req| | |]; simpl.
  - rewrite CSP_process_run. simpl. split; [exact H|].
    apply f_equal, check_empty. exact H.
  - pose proof (CSP_getBestPath_state w) as Hs.
    destruct (CSP.getBestPath w) as [w' [e|p]]; simpl in *; subst; now split.
  - unfold CSP.getMetrics, bind, CSP._checkConstraints, gets, ret. simpl.
    split; [exact H | now apply check_empty].
  - now split.
Qed.

Lemma run_keeps_empty ops : forall w,
  CSP.constraints_ w = [] ->
  CSP.constraints_ (fst (CSP.run ops w)) = [] /\
  Forall reportsSatisfied (snd (CSP.run ops w)).
Proof.
  induction ops as [|o r IH]; intros w H; simpl.
  - now split.
  - destruct (apply_keeps_empty o w H) as [H1 Hout].
    destruct (CSP.apply o w) as [w1 out]. simpl in *.
    destruct (IH w1 H1) as [H2 Houts].
    destruct (CSP.run r w1) as [w2 outs]. simpl in *.
    split; [exact H2 | now constructor].
Qed.

(** C9. No operation of the constraint strategy enters anything in
    its constraints index: after every sequence of operations on a
    newly built strategy the index is empty and the private check
    answers true, and every response of [processThought] and every
    result of [getMetrics] along the way has [constraintsSatisfied]
    true. *)
Theorem C9_constraints_index_stays_empty
  (sm : StateManager.t) (ops : list CSP.Op) :
  CSP.constraints_ (fst (CSP.run ops (CSP.new sm))) = [] /\
  CSP.checkConstraintsOf (fst (CSP.run ops (CSP.new sm))) = true /\
  Forall reportsSatisfied (snd (CSP.run ops (CSP.new sm))).
Proof.
  destruct (run_keeps_empty ops (CSP.new sm) eq_refl) as [H1 H2].
  split; [exact H1|]. split; [now apply check_empty | exact H2].
Qed.

(** *** Claim C3: the best path *)

Lemma fold_better ns : forall b,
  (In (fold_left CSP.better ns b) ns \/ fold_left CSP.better ns b = b) /\
  score b <= score (fold_left CSP.better ns b) /\
  forall n, In n ns -> score n <= score (fold_left CSP.better ns b).
Proof.
  induction ns as [|m r IH]; intros b; simpl.
  - split; [now right|]. split; [apply Qle_refl | intros n []].
  - destruct (IH (CSP.better b m)) as [Hsrc [Hb Hmax]].
    assert (Hbm : score b <= score (CSP.better b m) /\
                  score m <= score (CSP.better b m) /\
                  (CSP.better b m = b \/ CSP.better b m = m)).
    { unfold CSP.better. destruct (Qlt_le_dec (score b) (score m)).
      - split; [now apply Qlt_le_weak|]. split; [apply Qle_refl | now right].
      - split; [apply Qle_refl|]. split; [assumption | now left]. }
    destruct Hbm as [H1 [H2 H3]].
    split; [|split].
    + destruct Hsrc as [H|H]; [left; now right|].
      rewrite H. destruct H3 as [E|E]; rewrite E; [now right | left; now left].
    + now apply Qle_trans with (score (CSP.better b m)).
    + intros n [E|Hn]; [subst n|now apply Hmax].
      now apply Qle_trans with (score (CSP.better b m)).
Qed.

Lemma reduceBest_highest ns :
  ns <> [] -> exists best, CSP.reduceBest ns = Some best /\ highest ns best.
Proof.
  destruct ns as [|first rest]; [congruence|]. intros _.
  exists (fold_left CSP.better (first :: rest) first).
  split; [reflexivity|].
  destruct (fold_better (first :: rest) first) as [Hsrc [_ Hmax]].
  split; [|exact Hmax].
  destruct Hsrc as [H|H]; [exact H | rewrite H; now left].
Qed.

Lemma walk_nonempty s fuel : forall i acc l,
  StateManager.walk s fuel i acc = inr l -> l <> [].
Proof.
  induction fuel as [|f IH]; intros i acc l; simpl; [discriminate|].
  destruct (StateManager.getNode i s) as [n|]; [|discriminate].
  destruct (parentId n) as [p|].
  - apply IH.
  - intros H. inversion H. discriminate.
Qed.

Lemma getPath_nonempty i s l : StateManager.getPath i s = inr l -> l <> [].
Proof.
  unfold StateManager.getPath.
  destruct (StateManager.getNode i s); [apply walk_nonempty | discriminate].
Qed.

(** C3, as the code has it.  With a complete node marked as
    satisfying in the store, the query returns the path to a
    highest-scoring one among them; with none, the path to a
    highest-scoring node of the whole store, complete or not; the
    empty path when the store is empty, and then only. *)
Theorem C3_best_path_satisfying_else_any (w : CSP.t) :
  let all := StateManager.getAllNodes (CSP.stateManager w) in
  let sat := filter CSP.satisfying all in
  (sat <> [] ->
   exists best, highest sat best /\
     CSP.getBestPath w = (w, StateManager.getPath (id best) (CSP.stateManager w))) /\
  (sat = [] -> all <> [] ->
   exists best, highest all best /\
     CSP.getBestPath w = (w, StateManager.getPath (id best) (CSP.stateManager w))) /\
  (all = [] -> CSP.getBestPath w = (w, inr [])) /\
  (snd (CSP.getBestPath w) = inr [] -> all = []).
Proof.
  intros all sat.
  assert (Hrun : CSP.getBestPath w =
            if (List.length sat =? 0)%nat then
              match CSP.reduceBest all with
              | Some b => (w, StateManager.getPath (id b) (CSP.stateManager w))
              | None => (w, inr [])
              end
            else
              match CSP.reduceBest sat with
              | Some b => (w, StateManager.getPath (id b) (CSP.stateManager w))
              | None => (w, inr [])
              end).
  { unfold CSP.getBestPath, bind, gets, ret. fold all. fold sat.
    destruct (List.length sat =? 0)%nat;
      [now destruct (CSP.reduceBest all) | now destruct (CSP.reduceBest sat)]. }
  split; [|split; [|split]].
  - intros Hne. destruct (reduceBest_highest Hne) as [best [Hr Hh]].
    exists best. split; [exact Hh|]. rewrite Hrun.
    destruct sat as [|x r]; [congruence|]. simpl Nat.eqb. cbv iota.
    now rewrite Hr.
  - intros Hs Hne. destruct (reduceBest_highest Hne) as [best [Hr Hh]].
    exists best. split; [exact Hh|]. rewrite Hrun, Hs. simpl. now rewrite Hr.
  - intros Ha. rewrite Hrun. unfold sat. rewrite Ha. reflexivity.
  - rewrite Hrun. intros H.
    destruct all as [|x r] eqn:Ha; [reflexivity|]. exfalso.
    destruct sat as [|y t] eqn:Hs.
    + destruct (@reduceBest_highest (x :: r)) as [b [Hr _]]; [discriminate|].
      simpl Nat.eqb in H. cbv iota in H.
      rewrite Hr in H. simpl in H. now apply getPath_nonempty in H.
    + destruct (@reduceBest_highest (y :: t)) as [b [Hr _]]; [discriminate|].
      simpl Nat.eqb in H. cbv iota in H.
      rewrite Hr in H. simpl in H. now apply getPath_nonempty in H.
Qed.

End CSPFacts.

(** ** Linking a new node to its parent *)

Section ParentLink.
Context {base : BaseStrategy}.

Lemma getNode_linked node pid p s :
  StateManager.getNode pid s = Some p ->
  (0 < StateManager.capacity s)%nat ->
  StateManager.getNode pid (linked node (Some p) s) = Some (pushChild (id node) p).
Proof.
  intros Hp Hc. unfold linked.
  apply getNode_id in Hp. subst pid.
  change (id p) with (id (pushChild (id node) p)).
  apply getNode_saveNode_same. now rewrite saveNode_capacity.
Qed.

(** C1. When the [parentId] of a request names a node of the store,
    [processThought] of the A* strategy and of the constraint strategy
    leave that node in the store with the id of the node they created
    appended to its [children], the entries already there kept as they
    were and everything else of the parent unchanged. *)
Theorem C1_parent_gains_the_new_child
  (nid : string) (req : ReasoningRequest) (pid : string) (p : ThoughtNode)
  (a : AStar.t) (c : CSP.t) :
  req_parentId req = Some pid ->
  pid <> ""%string ->
  StateManager.getNode pid (AStar.stateManager a) = Some p ->
  (0 < StateManager.capacity (AStar.stateManager a))%nat ->
  StateManager.getNode pid (CSP.stateManager c) = Some p ->
  (0 < StateManager.capacity (CSP.stateManager c))%nat ->
  StateManager.getNode pid
    (AStar.stateManager (fst (AStar.processThought nid req a)))
    = Some (pushChild nid p) /\
  StateManager.getNode pid
    (CSP.stateManager (fst (CSP.processThought nid req c)))
    = Some (pushChild nid p) /\
  children (pushChild nid p) = children p ++ [nid] /\
  id (AStar.createNode nid req (Some p)) = nid /\
  id (CSP.createNode nid req (Some p)) = nid.
Proof.
  intros Hreq Hne Ha Hca Hc Hcc.
  assert (Ht : truthyStr (req_parentId req) = Some pid).
  { rewrite Hreq. simpl. apply String.eqb_neq in Hne. now rewrite Hne. }
  split; [|split; [|repeat split]].
  - rewrite AStar_process_state, step_store. unfold inserted.
    cbn [AStar.stateManager]. unfold parentOf. rewrite Ht, Ha.
    now apply getNode_linked.
  - rewrite CSP_process_run. unfold merged.
    cbn [fst CSP.stateManager]. unfold parentOf. rewrite Ht, Hc.
    now apply getNode_linked.
Qed.

End ParentLink.

(** ** The hybrid strategy *)

Section HybridFacts.

(** *** Claim C8: the uncertainty signal *)

Lemma sliceLast_mostRecent {A} (k : nat) (l : list A) :
  Hybrid.sliceLast k l = mostRecent k l.
Proof.
  unfold Hybrid.sliceLast, mostRecent.
  now rewrite firstn_rev, rev_involutive.
Qed.

Lemma fold_sum xs : forall a,
  fold_left (fun a b => a + b) xs a == a + total xs.
Proof.
  induction xs as [|x r IH]; intros a; simpl.
  - ring.
  - rewrite IH. ring.
Qed.

Lemma fold_squares m m' xs : m == m' -> forall a,
  fold_left (fun a b => a + Qpower (b - m) 2) xs a
  == a + total (map (fun x => (x - m') ^ 2) xs).
Proof.
  intros Hm. induction xs as [|x r IH]; intros a; cbn [fold_left total map].
  - ring.
  - rewrite IH, Hm. ring.
Qed.

Lemma total_squares_nonneg m xs :
  0 <= total (map (fun x => (x - m) ^ 2) xs).
Proof.
  induction xs as [|x r IH]; simpl.
  - apply Qle_refl.
  - rewrite <- (Qplus_0_r 0).
    apply Qplus_le_compat; [apply Qsqr_nonneg | exact IH].
Qed.

Lemma Qminb_min a b : Hybrid.Qminb a b == Qmin a b.
Proof.
  unfold Hybrid.Qminb. destruct (Qle_bool a b) eqn:E.
  - apply Qle_bool_iff in E. symmetry. now apply Q.min_l.
  - assert (H : b <= a).
    { destruct (Qlt_le_dec b a) as [H|H]; [now apply Qlt_le_weak|].
      apply Qle_bool_iff in H. congruence. }
    symmetry. now apply Q.min_r.
Qed.

Lemma count_pos (xs : list Q) : xs <> [] -> 0 < count xs.
Proof.
  destruct xs as [|x r]; [congruence|]. intros _.
  unfold count, Qlt. simpl. lia.
Qed.

Lemma variance_nonneg xs : xs <> [] -> 0 <= variance xs.
Proof.
  intros H. unfold variance.
  apply Qle_shift_div_l; [now apply count_pos|].
  rewrite Qmult_0_l. apply total_squares_nonneg.
Qed.

Lemma uncertainty_variance nodes :
  (2 <= List.length nodes)%nat ->
  Hybrid.uncertaintyOf nodes
  == Qmin 1 (variance (map score (mostRecent 10 nodes)) / 5).
Proof.
  intros H. unfold Hybrid.uncertaintyOf.
  destruct (List.length nodes <? 2)%nat eqn:E;
    [apply Nat.ltb_lt in E; lia|].
  rewrite Qminb_min, sliceLast_mostRecent.
  set (xs := map score (mostRecent 10 nodes)).
  apply Q.min_compat; [reflexivity|].
  apply Qdiv_comp; [|reflexivity].
  unfold variance, mean. fold (count xs).
  apply Qdiv_comp; [|reflexivity].
  rewrite (@fold_squares _ (total xs / count xs)).
  - ring.
  - apply Qdiv_comp; [|reflexivity]. rewrite fold_sum. ring.
Qed.

Lemma mostRecent_nonempty {A} (l : list A) :
  l <> [] -> mostRecent 10 l <> [].
Proof.
  intros H. unfold mostRecent.
  destruct (rev l) as [|x r] eqn:E.
  - apply (f_equal (@rev A)) in E. rewrite rev_involutive in E.
    simpl in E. congruence.
  - simpl. intros C. apply (f_equal (@List.length A)) in C.
    rewrite length_app in C. simpl in C. lia.
Qed.

(** In exact arithmetic the signal is 0.5 on a store of fewer than two
    nodes and otherwise the variance of the scores of the ten most
    recent nodes, divided by 5 and cut at 1. *)
Lemma uncertainty_exact (w : Hybrid.t) :
  let nodes := StateManager.getAllNodes (Hybrid.stateManager w) in
  exists u,
    Hybrid._calculateUncertainty w = (w, inr u) /\
    ((List.length nodes < 2)%nat -> u = 1 # 2) /\
    ((2 <= List.length nodes)%nat ->
     u == Qmin 1 (variance (map score (mostRecent 10 nodes)) / 5) /\
     0 <= u /\ u <= 1).
Proof.
  intros nodes. exists (Hybrid.uncertaintyOf nodes).
  split; [reflexivity|]. split.
  - intros H. unfold Hybrid.uncertaintyOf.
    apply Nat.ltb_lt in H. now rewrite H.
  - intros H. pose proof (uncertainty_variance nodes H) as Hu.
    split; [exact Hu|]. rewrite Hu.
    assert (Hv : 0 <= variance (map score (mostRecent 10 nodes)) / 5).
    { apply Qle_shift_div_l; [reflexivity|]. rewrite Qmult_0_l.
      apply variance_nonneg. intros C. apply map_eq_nil in C.
      revert C. apply mostRecent_nonempty.
      destruct nodes; [simpl in H; lia | discriminate]. }
    split.
    + apply Q.min_glb; [discriminate | exact Hv].
    + apply Q.le_min_l.
Qed.

(** *** Binary64: signs and NaN through the operations *)

Unset Implicit Arguments.
Local Open Scope float_scope.

Lemma shr_1_nonneg mrs : (0 <= shr_m mrs)%Z -> (0 <= shr_m (shr_1 mrs))%Z.
Proof.
  destruct mrs as [m r s]. simpl.
  destruct m as [|[p|p|]|[p|p|]]; simpl; lia.
Qed.

Lemma iter_pos_invariant {A} (P : A -> Prop) (f : A -> A) :
  (forall x, P x -> P (f x)) ->
  forall n x, P x -> P (SpecFloat.iter_pos f n x).
Proof.
  intros Hf. induction n as [n IH|n IH|]; intros x Hx; simpl; auto.
Qed.

Lemma shr_nonneg mrs e n :
  (0 <= shr_m mrs)%Z -> (0 <= shr_m (fst (shr mrs e n)))%Z.
Proof.
  intros H. unfold shr. destruct n; simpl; try exact H.
  apply (iter_pos_invariant (fun x => (0 <= shr_m x)%Z)); [apply shr_1_nonneg | exact H].
Qed.

Lemma shr_fexp_nonneg p em m e l :
  (0 <= m)%Z -> (0 <= shr_m (fst (shr_fexp p em m e l)))%Z.
Proof.
  intros H. unfold shr_fexp. apply shr_nonneg.
  destruct l as [|[| |]]; exact H.
Qed.

Lemma round_nearest_even_nonneg m l :
  (0 <= m)%Z -> (0 <= round_nearest_even m l)%Z.
Proof.
  intros H. unfold round_nearest_even.
  destruct l as [|[| |]]; try exact H; [destruct (Z.even m)|]; lia.
Qed.

Lemma binary_round_aux_signed p em s m e l :
  (0 <= m)%Z -> signed s (binary_round_aux p em s m e l).
Proof.
  intros H. unfold binary_round_aux.
  pose proof (shr_fexp_nonneg p em m e l H) as H1.
  destruct (shr_fexp p em m e l) as [mrs' e']. simpl in H1.
  pose proof (shr_fexp_nonneg p em _ e' loc_Exact
                (round_nearest_even_nonneg _ (loc_of_shr_record mrs') H1)) as H2.
  destruct (shr_fexp p em _ e' loc_Exact) as [mrs'' e'']. simpl in H2.
  destruct (shr_m mrs'') as [|q|q]; simpl; [reflexivity| |lia].
  destruct (Z.leb e'' (em - p)); reflexivity.
Qed.

Lemma binary_round_signed p em s m e : signed s (binary_round p em s m e).
Proof.
  unfold binary_round. destruct (shl_align m e _) as [mz ez].
  apply binary_round_aux_signed. lia.
Qed.

Lemma signed_notnan s x : signed s x -> x <> S754_nan.
Proof. destruct x; simpl; congruence. Qed.

Lemma signed_nonneg x : signed false x -> nonneg x.
Proof. destruct x; simpl; auto. Qed.

Lemma nonneg_notnan x : nonneg x -> x <> S754_nan.
Proof. destruct x; simpl; congruence. Qed.

Lemma binary_normalize_notnan p em m e sz :
  binary_normalize p em m e sz <> S754_nan.
Proof.
  unfold binary_normalize. destruct m; [discriminate| |];
    eapply signed_notnan; apply binary_round_signed.
Qed.

Lemma SFadd_notnan x y :
  x <> S754_nan -> finiteSF y -> SF64add x y <> S754_nan.
Proof.
  unfold SF64add, SFadd.
  destruct x as [sx|sx| |sx mx ex]; destruct y as [sy|sy| |sy my ey];
    simpl; intros Hx Hy; try contradiction; try congruence.
  - destruct sx, sy; discriminate.
  - apply binary_normalize_notnan.
Qed.

Lemma SFsub_notnan x y :
  finiteSF x -> y <> S754_nan -> SF64sub x y <> S754_nan.
Proof.
  unfold SF64sub, SFsub.
  destruct x as [sx|sx| |sx mx ex]; destruct y as [sy|sy| |sy my ey];
    simpl; intros Hx Hy; try contradiction; try congruence.
  - destruct sx, sy; discriminate.
  - apply binary_normalize_notnan.
Qed.

Lemma SFmul_self_nonneg d : d <> S754_nan -> nonneg (SF64mul d d).
Proof.
  unfold SF64mul, SFmul. destruct d as [s|s| |s m e]; simpl; intros H;
    try congruence; try (now destruct s).
  apply signed_nonneg. replace (xorb s s) with false by (now destruct s).
  apply binary_round_aux_signed. lia.
Qed.

Lemma SFadd_nonneg x y : nonneg x -> nonneg y -> nonneg (SF64add x y).
Proof.
  unfold SF64add, SFadd.
  destruct x as [sx|sx| |sx mx ex]; destruct y as [sy|sy| |sy my ey];
    simpl; intros Hx Hy; try contradiction; try subst; simpl; auto.
  - destruct sx, sy; exact I.
  - apply signed_nonneg. unfold binary_normalize.
    destruct (shl_align mx ex _) as [a ea]; destruct (shl_align my ey _) as [b eb].
    simpl. apply binary_round_signed.
Qed.

Lemma div_eucl_nonneg a b :
  (0 <= a)%Z -> (0 < b)%Z -> (0 <= fst (Z.div_eucl a b))%Z.
Proof.
  intros Ha Hb. change (fst (Z.div_eucl a b)) with (a / b)%Z.
  apply Z.div_pos; assumption.
Qed.

Lemma SFdiv_core_nonneg p em m1 e1 m2 e2 :
  (0 <= fst (fst (SFdiv_core_binary p em (Zpos m1) e1 (Zpos m2) e2)))%Z.
Proof.
  unfold SFdiv_core_binary.
  set (s := (e1 - e2 - _)%Z).
  set (m' := match s with Zpos _ => Z.shiftl (Zpos m1) s | Z0 => Zpos m1 | Zneg _ => Z0 end).
  assert (Hm' : (0 <= m')%Z).
  { unfold m'. destruct s; try lia. apply Z.shiftl_nonneg. lia. }
  pose proof (div_eucl_nonneg m' (Zpos m2) Hm' eq_refl) as Hq.
  destruct (Z.div_eucl m' (Zpos m2)) as [q r]. exact Hq.
Qed.

(** Division by a positive finite double keeps NaN out and the sign in. *)
Lemma SFdiv_pos_notnan x m e :
  x <> S754_nan -> SF64div x (S754_finite false m e) <> S754_nan.
Proof.
  unfold SF64div, SFdiv. destruct x as [sx|sx| |sx mx ex]; simpl; intros H;
    try congruence.
  pose proof (SFdiv_core_nonneg prec emax mx ex m e) as Hq.
  destruct (SFdiv_core_binary prec emax (Zpos mx) ex (Zpos m) e) as [[mz ez] lz].
  eapply signed_notnan. apply binary_round_aux_signed. exact Hq.
Qed.

Lemma SFdiv_pos_nonneg x m e :
  nonneg x -> nonneg (SF64div x (S754_finite false m e)).
Proof.
  unfold SF64div, SFdiv. destruct x as [sx|sx| |sx mx ex]; simpl; intros H;
    try contradiction; try (subst; reflexivity); auto.
  subst sx.
  pose proof (SFdiv_core_nonneg prec emax mx ex m e) as Hq.
  destruct (SFdiv_core_binary prec emax (Zpos mx) ex (Zpos m) e) as [[mz ez] lz].
  apply signed_nonneg. apply binary_round_aux_signed. exact Hq.
Qed.

Lemma SFcompare_refl x : x <> S754_nan -> SFcompare x x = Some Eq.
Proof.
  destruct x as [s|s| |s m e]; simpl; intros H; try congruence.
  - now destruct s.
  - rewrite Z.compare_refl, Pos.compare_cont_refl. now destruct s.
Qed.

Lemma is_nan_false x : Prim2SF x <> S754_nan -> is_nan x = false.
Proof.
  intros H. unfold is_nan. rewrite FloatAxioms.eqb_spec. unfold SFeqb.
  now rewrite SFcompare_refl.
Qed.

Lemma is_finite_spec x : is_finite x = true -> finiteSF (Prim2SF x).
Proof.
  unfold is_finite, is_nan, is_infinity.
  rewrite !FloatAxioms.eqb_spec, FloatAxioms.abs_spec.
  change (Prim2SF infinity) with (S754_infinity false).
  destruct (Prim2SF x) as [s|[|]| |s m e]; simpl; try (intros; exact I);
    cbv; intros H; discriminate.
Qed.

Lemma finiteSF_notnan x : finiteSF x -> x <> S754_nan.
Proof. destruct x; simpl; congruence || contradiction. Qed.

Lemma sum_notnan scores : forall acc,
  Prim2SF acc <> S754_nan ->
  (forall x, In x scores -> is_finite x = true) ->
  Prim2SF (fold_left (fun a b => a + b) scores acc) <> S754_nan.
Proof.
  induction scores as [|b r IH]; intros acc Hacc Hfin; simpl; [exact Hacc|].
  apply IH; [|intros x Hx; apply Hfin; now right].
  rewrite FloatAxioms.add_spec. apply SFadd_notnan; [exact Hacc|].
  apply is_finite_spec, Hfin. now left.
Qed.

Lemma squares_nonneg mean scores : forall acc,
  Prim2SF mean <> S754_nan ->
  nonneg (Prim2SF acc) ->
  (forall x, In x scores -> is_finite x = true) ->
  nonneg (Prim2SF (fold_left (fun a b => a + (b - mean) * (b - mean)) scores acc)).
Proof.
  intros acc Hmean. revert acc.
  induction scores as [|b r IH]; intros acc Hacc Hfin; simpl; [exact Hacc|].
  apply IH; [|intros x Hx; apply Hfin; now right].
  rewrite FloatAxioms.add_spec, FloatAxioms.mul_spec, FloatAxioms.sub_spec. apply SFadd_nonneg; [exact Hacc|].
  apply SFmul_self_nonneg. apply SFsub_notnan; [|exact Hmean].
  apply is_finite_spec, Hfin. now left.
Qed.

Lemma SFltb_leb x y : SFltb x y = true -> SFleb x y = true.
Proof. unfold SFltb, SFleb. destruct (SFcompare x y) as [[| |]|]; congruence. Qed.

Lemma zero_leb_nonneg x : nonneg (Prim2SF x) -> (0 <=? x) = true.
Proof.
  rewrite FloatAxioms.leb_spec. change (Prim2SF 0) with (S754_zero false).
  destruct (Prim2SF x) as [s|s| |s m e]; simpl; intros H;
    try contradiction; try subst; reflexivity.
Qed.

(** [Math.min(1, x)] of a non-negative [x] lies between 0 and 1. *)
Lemma Math_min_one x :
  Prim2SF x <> S754_nan ->
  Double.Math_min 1 x = if x <? 1 then x else 1.
Proof.
  intros H. unfold Double.Math_min.
  rewrite (is_nan_false x H).
  change (is_nan 1) with false. change (is_zero 1) with false.
  reflexivity.
Qed.

Lemma Math_min_one_bounds x :
  nonneg (Prim2SF x) ->
  (0 <=? Double.Math_min 1 x) = true /\ (Double.Math_min 1 x <=? 1) = true.
Proof.
  intros H. rewrite Math_min_one by (now apply nonneg_notnan).
  destruct (x <? 1) eqn:E.
  - split; [now apply zero_leb_nonneg|].
    rewrite FloatAxioms.leb_spec. rewrite FloatAxioms.ltb_spec in E. now apply SFltb_leb.
  - split; reflexivity.
Qed.

Lemma ofNat_small k :
  (1 <= k <= 10)%nat ->
  exists m e, Prim2SF (Double.ofNat k) = S754_finite false m e.
Proof.
  intros H.
  do 11 (destruct k as [|k]; [try lia; eexists; eexists; vm_compute; reflexivity|]).
  lia.
Qed.

Lemma SFcompare_antisym x y :
  SFcompare y x = option_map CompOpp (SFcompare x y).
Proof.
  destruct x as [sx|sx| |sx mx ex]; destruct y as [sy|sy| |sy my ey];
    simpl; try reflexivity;
    try (destruct sx; reflexivity); try (destruct sy; reflexivity);
    try (destruct sx, sy; reflexivity).
  pose proof (Pos.compare_cont_antisym mx my Eq) as Hm. simpl in Hm.
  destruct sx, sy; simpl; try reflexivity;
    rewrite (Z.compare_antisym ex ey);
    destruct (ex ?= ey)%Z; simpl; try reflexivity;
    rewrite <- Hm; try rewrite CompOpp_involutive; reflexivity.
Qed.

Lemma leb_not_ltb x y : (x <=? y) = true -> (y <? x) = false.
Proof.
  rewrite FloatAxioms.leb_spec, FloatAxioms.ltb_spec. unfold SFleb, SFltb.
  rewrite (SFcompare_antisym (Prim2SF x) (Prim2SF y)).
  destruct (SFcompare (Prim2SF x) (Prim2SF y)) as [[| |]|]; simpl; congruence.
Qed.

Lemma leb_notnan_r x y : (x <=? y) = true -> Prim2SF y <> S754_nan.
Proof.
  rewrite FloatAxioms.leb_spec. unfold SFleb. intros H E. rewrite E in H.
  destruct (Prim2SF x); discriminate.
Qed.

Lemma ltb_notnan_l x y : (x <? y) = true -> Prim2SF x <> S754_nan.
Proof.
  rewrite FloatAxioms.ltb_spec. unfold SFltb. intros H E. rewrite E in H. discriminate.
Qed.

Lemma Math_min_one_cases x :
  ((x <? 1) = true -> Double.Math_min 1 x = x) /\
  ((1 <=? x) = true -> Double.Math_min 1 x = 1).
Proof.
  split; intros H.
  - rewrite Math_min_one by (now apply ltb_notnan_l with 1). now rewrite H.
  - rewrite Math_min_one by (now apply leb_notnan_r with 1).
    now rewrite (leb_not_ltb _ _ H).
Qed.

Lemma notnan_lt_or_ge x :
  Prim2SF x <> S754_nan -> (x <? 1) = true \/ (1 <=? x) = true.
Proof.
  intros H. rewrite FloatAxioms.ltb_spec, FloatAxioms.leb_spec. unfold SFltb, SFleb.
  rewrite (SFcompare_antisym (Prim2SF x) (Prim2SF 1)).
  assert (H1 : exists m e, Prim2SF 1 = S754_finite false m e)
    by (eexists; eexists; vm_compute; reflexivity).
  destruct H1 as [m [e H1]]. rewrite H1.
  destruct (Prim2SF x) as [s|s| |s mx ex]; try congruence; simpl.
  - destruct s; auto.
  - destruct s; auto.
  - destruct s; auto.
    destruct (ex ?= e)%Z; auto. destruct (Pos.compare_cont Eq mx m); auto.
Qed.

Local Close Scope float_scope.
Set Implicit Arguments.

Lemma total64_fold xs : forall acc,
  total64 acc xs = fold_left (fun a b => (a + b)%float) xs acc.
Proof. induction xs as [|x r IH]; intros acc; simpl; [reflexivity | apply IH]. Qed.

Lemma total64_squares mean xs : forall acc,
  total64 acc (map (fun x => ((x - mean) * (x - mean))%float) xs)
  = fold_left (fun a b => (a + Double.square (b - mean))%float) xs acc.
Proof. induction xs as [|x r IH]; intros acc; simpl; [reflexivity | apply IH]. Qed.

(** The binary64 reading computes the mean and the variance of the
    doubles of the ten most recent scores. *)
Lemma uncertaintyOf64_variance nodes :
  (2 <= List.length nodes)%nat ->
  Hybrid.uncertaintyOf64 nodes
  = Double.Math_min 1 (variance64 (scores64 (mostRecent 10 nodes)) / 5).
Proof.
  intros H. unfold Hybrid.uncertaintyOf64.
  apply Nat.ltb_ge in H. rewrite H.
  rewrite sliceLast_mostRecent. fold (scores64 (mostRecent 10 nodes)).
  unfold variance64, mean64. rewrite total64_squares.
  now rewrite total64_fold.
Qed.

Lemma mostRecent_length {A} (l : list A) :
  (2 <= List.length l)%nat ->
  (1 <= List.length (mostRecent 10 l) <= 10)%nat.
Proof.
  intros H. unfold mostRecent.
  rewrite length_rev, length_firstn, length_rev. lia.
Qed.

(** *** Claim C8: the uncertainty signal *)

(** C8. The uncertainty signal, computed in binary64 as the method
    computes it, is 0.5 on a store of fewer than two nodes.  Otherwise
    it is the variance of the scores of the ten most recent nodes
    divided by 5 when that quotient is below 1, and 1 when the quotient
    is 1 or more; when the scores are finite numbers one of the two is
    the case and the signal lies between 0 and 1. *)
Theorem C8_uncertainty_signal (w : Hybrid.t) :
  let nodes := StateManager.getAllNodes (Hybrid.stateManager w) in
  let scores := scores64 (mostRecent 10 nodes) in
  let scaled := (variance64 scores / 5)%float in
  exists u,
    Hybrid._calculateUncertainty64 w = (w, inr u) /\
    ((List.length nodes < 2)%nat -> u = 0.5%float) /\
    ((2 <= List.length nodes)%nat ->
     ((scaled <? 1)%float = true -> u = scaled) /\
     ((1 <=? scaled)%float = true -> u = 1%float) /\
     ((forall x, In x scores -> is_finite x = true) ->
      ((scaled <? 1)%float = true \/ (1 <=? scaled)%float = true) /\
      (0 <=? u)%float = true /\ (u <=? 1)%float = true)).
Proof.
  intros nodes scores scaled. exists (Hybrid.uncertaintyOf64 nodes).
  split; [reflexivity|]. split.
  - intros H. unfold Hybrid.uncertaintyOf64.
    apply Nat.ltb_lt in H. now rewrite H.
  - intros H. rewrite (@uncertaintyOf64_variance nodes H).
    fold scores. fold scaled.
    split; [apply Math_min_one_cases|]. split; [apply Math_min_one_cases|].
    intros Hfin.
    assert (Hlen : (1 <= List.length scores <= 10)%nat).
    { unfold scores, scores64. rewrite length_map.
      now apply mostRecent_length. }
    destruct (ofNat_small _ Hlen) as [m [e Hn]].
    assert (H5 : exists m5 e5, Prim2SF 5 = S754_finite false m5 e5)
      by (eexists; eexists; vm_compute; reflexivity).
    destruct H5 as [m5 [e5 H5]].
    assert (Hmean : Prim2SF (mean64 scores) <> S754_nan).
    { unfold mean64. rewrite FloatAxioms.div_spec, Hn. apply SFdiv_pos_notnan.
      rewrite total64_fold.
      apply sum_notnan; [vm_compute; discriminate | exact Hfin]. }
    assert (Hscaled : nonneg (Prim2SF scaled)).
    { unfold scaled, variance64. rewrite FloatAxioms.div_spec, H5.
      apply SFdiv_pos_nonneg. rewrite FloatAxioms.div_spec, Hn. apply SFdiv_pos_nonneg.
      rewrite (total64_squares (mean64 scores)).
      apply squares_nonneg; [exact Hmean | vm_compute; exact I | exact Hfin]. }
    split; [apply notnan_lt_or_ge; now apply nonneg_notnan|].
    now apply Math_min_one_bounds.
Qed.

(** *** Claim C2: the switch *)

Lemma Qle_bool_false a b : Qle_bool a b = false <-> b < a.
Proof.
  split.
  - intros E. destruct (Qlt_le_dec b a) as [H|H]; [exact H|].
    apply Qle_bool_iff in H. congruence.
  - intros H. destruct (Qle_bool a b) eqn:E; [|reflexivity].
    apply Qle_bool_iff in E. exfalso. eapply Qlt_irrefl.
    eapply Qlt_le_trans; eauto.
Qed.

Lemma decide_priority u g d :
  (5 <= d -> Hybrid.decide u g d = CONSTRAINT_SATISFACTION) /\
  (d < 5 -> 7 # 10 <= g -> Hybrid.decide u g d = A_STAR) /\
  (d < 5 -> g < 7 # 10 -> 3 # 10 <= u -> Hybrid.decide u g d = MCTS) /\
  (d < 5 -> g < 7 # 10 -> u < 3 # 10 -> Hybrid.decide u g d = BEAM_SEARCH).
Proof.
  unfold Hybrid.decide, Hybrid.constraintDensityThreshold,
    Hybrid.goalClarityThreshold, Hybrid.uncertaintyThreshold.
  repeat split; intros;
    repeat match goal with
           | H : _ <= _ |- _ => apply Qle_bool_iff in H; rewrite H
           | H : _ < _ |- _ => apply Qle_bool_false in H; rewrite H
           end; reflexivity.
Qed.

Lemma decide_registered u g d : In (Hybrid.decide u g d) hybridNames.
Proof.
  unfold Hybrid.decide, hybridNames.
  destruct (Qle_bool _ d); [simpl; tauto|].
  destruct (Qle_bool _ g); [simpl; tauto|].
  destruct (Qle_bool _ u); simpl; tauto.
Qed.

Lemma switch_registered s w :
  In s hybridNames ->
  exists i, Hybrid._switchStrategy s w = (Hybrid.withActive i w, inr tt) /\
            Hybrid.activeNameOf (Hybrid.withActive i w) = s.
Proof.
  unfold hybridNames. simpl.
  intros [E|[E|[E|[E|[]]]]]; subst s; eexists; split; reflexivity.
Qed.

Lemma switch_unregistered s w :
  ~ In s hybridNames -> Hybrid._switchStrategy s w = (w, inr tt).
Proof.
  intros H. unfold Hybrid._switchStrategy.
  destruct (Map_get s Hybrid.strategies) as [i|] eqn:E; [|reflexivity].
  elim H. change hybridNames with (Map_keys Hybrid.strategies).
  apply Map_has_In. unfold Map_has. now rewrite E.
Qed.

(** C2, as the code has it.  The computed choice follows the fixed
    order: CSP when the constraint density is at least 5, else A*
    when the goal clarity is at least 0.7, else MCTS when the
    uncertainty is at least 0.3, else beam search; so density 6,
    clarity 0.2 and uncertainty 0.1 give CSP.  After the automatic
    switch, a [strategyType] that is one of the four identifiers
    registered in the hybrid strategy becomes the active strategy;
    any other [strategyType], [hybrid] included, leaves the computed
    choice in place. *)
Theorem C2_switch_priority_and_registered_override
  (w : Hybrid.t) (req : ReasoningRequest) :
  (forall u g d,
      (5 <= d -> Hybrid.decide u g d = CONSTRAINT_SATISFACTION) /\
      (d < 5 -> 7 # 10 <= g -> Hybrid.decide u g d = A_STAR) /\
      (d < 5 -> g < 7 # 10 -> 3 # 10 <= u -> Hybrid.decide u g d = MCTS) /\
      (d < 5 -> g < 7 # 10 -> u < 3 # 10 -> Hybrid.decide u g d = BEAM_SEARCH)) /\
  Hybrid.decide (1 # 10) (2 # 10) 6 = CONSTRAINT_SATISFACTION /\
  let computed :=
    Hybrid.decide
      (Hybrid.uncertaintyOf (StateManager.getAllNodes (Hybrid.stateManager w)))
      (Hybrid.goalClarityOf req)
      (inject_Z (Z.of_nat (Hybrid.constraintDensityOf req))) in
  exists w',
    Hybrid._evaluateStrategySwitch req w = (w', inr tt) /\
    Hybrid.stateManager w' = Hybrid.stateManager w /\
    (strategyType req = None -> Hybrid.activeNameOf w' = computed) /\
    (forall s, strategyType req = Some s ->
               In s hybridNames -> Hybrid.activeNameOf w' = s) /\
    (forall s, strategyType req = Some s ->
               ~ In s hybridNames -> Hybrid.activeNameOf w' = computed).
Proof.
  split; [apply decide_priority|]. split; [reflexivity|].
  intros computed.
  destruct (@switch_registered computed w (decide_registered _ _ _))
    as [i [Hsw Hname]].
  assert (Hauto :
             Hybrid._evaluateStrategySwitch req w =
             match truthyStr (strategyType req) with
             | Some s => Hybrid._switchStrategy s (Hybrid.withActive i w)
             | None => (Hybrid.withActive i w, inr tt)
             end).
  { unfold Hybrid._evaluateStrategySwitch, bind,
      Hybrid._calculateUncertainty, Hybrid._calculateGoalClarity,
      Hybrid._calculateConstraintDensity, gets, ret.
    fold computed. rewrite Hsw.
    now destruct (truthyStr (strategyType req)). }
  destruct (strategyType req) as [s|] eqn:Hs; simpl in Hauto.
  - destruct (String.eqb s "") eqn:Hempty.
    + apply String.eqb_eq in Hempty. subst s.
      exists (Hybrid.withActive i w). split; [exact Hauto|].
      split; [reflexivity|]. split; [discriminate|]. split.
      * intros s E Hin. inversion E; subst s.
        unfold hybridNames in Hin. simpl in Hin.
        repeat destruct Hin as [Hin|Hin]; discriminate || contradiction.
      * intros s E _. exact Hname.
    + destruct (in_dec string_dec s hybridNames) as [Hin|Hout].
      * destruct (@switch_registered s (Hybrid.withActive i w) Hin)
          as [j [Hsw' Hname']].
        exists (Hybrid.withActive j (Hybrid.withActive i w)).
        split; [now rewrite Hauto|]. split; [reflexivity|].
        split; [discriminate|]. split.
        -- intros s' E _. now inversion E; subst s'.
        -- intros s' E Hn. inversion E; subst s'. contradiction.
      * exists (Hybrid.withActive i w).
        split; [rewrite Hauto; now apply switch_unregistered|].
        split; [reflexivity|]. split; [discriminate|]. split.
        -- intros s' E Hin. inversion E; subst s'. contradiction.
        -- intros s' E _. exact Hname.
  - exists (Hybrid.withActive i w). split; [exact Hauto|].
    split; [reflexivity|]. split; [intros _; exact Hname|].
    split; intros s E; discriminate.
Qed.

End HybridFacts.

(** ** The dispatcher and the engine boundary *)

Section BoundaryFacts.
Context {base : BaseStrategy}.

Lemma has_registered s :
  Map_has s Reasoner.strategies = true <-> In s reasonerNames.
Proof.
  rewrite Map_has_In. reflexivity.
Qed.

(** C7. [setStrategy(s)] throws exactly when [s] is none of the five
    registered identifiers, and then it throws the unknown-strategy
    error and changes nothing; for a registered identifier it returns
    and the current strategy is the object registered under [s], the
    one that the factory builds for [s]. *)
Theorem C7_setStrategy_unknown_or_registered (s : string) (r : Reasoner.t) :
  ((exists e, snd (Reasoner.setStrategy s r) = inl e) <->
   ~ In s reasonerNames) /\
  (forall e, snd (Reasoner.setStrategy s r) = inl e ->
             e = JsError UnknownStrategy ("Unknown strategy type: " ++ s)%string /\
             fst (Reasoner.setStrategy s r) = r) /\
  (In s reasonerNames ->
   exists i,
     Map_get s Reasoner.strategies = Some i /\
     Reasoner.createStrategy s = inr i /\
     Reasoner.setStrategy s r = (Reasoner.withCurrent i r, inr tt) /\
     Reasoner.currentStrategy (fst (Reasoner.setStrategy s r)) = i).
Proof.
  assert (Hreg : In s reasonerNames ->
            exists i, Map_get s Reasoner.strategies = Some i /\
                      Reasoner.createStrategy s = inr i).
  { unfold reasonerNames. simpl.
    intros [E|[E|[E|[E|[E|[]]]]]]; subst s; eexists; split; reflexivity. }
  destruct (Map_has s Reasoner.strategies) eqn:Hhas.
  - assert (Hin : In s reasonerNames) by (now apply has_registered).
    destruct (Hreg Hin) as [i [Hget Hmk]].
    assert (Hrun : Reasoner.setStrategy s r = (Reasoner.withCurrent i r, inr tt)).
    { unfold Reasoner.setStrategy. now rewrite Hhas, Hget. }
    rewrite Hrun. split; [|split].
    + split; [intros [e He]; discriminate | intros Hn; contradiction].
    + intros e He. discriminate.
    + intros _. exists i. repeat split; assumption.
  - assert (Hout : ~ In s reasonerNames).
    { intros Hin. apply has_registered in Hin. congruence. }
    assert (Hrun : Reasoner.setStrategy s r =
              (r, inl (JsError UnknownStrategy
                         ("Unknown strategy type: " ++ s)%string))).
    { unfold Reasoner.setStrategy. now rewrite Hhas. }
    rewrite Hrun. split; [|split].
    + split; [intros _; exact Hout | intros _; eexists; reflexivity].
    + intros e He. inversion He. now split.
    + intros Hin. contradiction.
Qed.

(** C6. When producing the response throws, whatever is thrown,
    [handle] returns a response with the empty node id, [isComplete]
    false, the error flag set and a message: the message of the error
    thrown, or the fixed text for a thrown value that is no error
    object.  [handle] has no path that throws. *)
Theorem C6_handle_converts_exceptions
  (uuid : string) (req : ReasoningRequest) (w : Engine.t)
  (r' : Reasoner.t) (e : Exn) :
  Reasoner.processThought uuid req (Engine.reasoner w) = (r', inl e) ->
  let out := snd (Engine.handle uuid req w) in
  nodeId (Engine.response out) = ""%string /\
  res_isComplete (Engine.response out) = false /\
  Engine.error out = Some true /\
  Engine.errorMessage out = Some (messageOf e) /\
  fst (Engine.handle uuid req w) = {| Engine.reasoner := r' |}.
Proof.
  intros H. unfold Engine.handle. rewrite H. simpl.
  repeat split.
Qed.

End BoundaryFacts.

(** * Worked examples *)

(** The parent [r] of the sample store gains the child [n], under
    either strategy. *)
Lemma C1_example :
  let req := Sample.request "next" (Some "r") true in
  let a := AStar.new Sample.family in
  let c := CSP.new Sample.family in
  StateManager.getNode "r"
    (AStar.stateManager (fst (AStar.processThought (base := Sample.base) "n" req a)))
    = Some (pushChild "n" Sample.root) /\
  StateManager.getNode "r"
    (CSP.stateManager (fst (CSP.processThought (base := Sample.base) "n" req c)))
    = Some (pushChild "n" Sample.root) /\
  children (pushChild "n" Sample.root) = children Sample.root ++ ["n"] /\
  id (AStar.createNode (base := Sample.base) "n" req (Some Sample.root)) = "n"%string /\
  id (CSP.createNode (base := Sample.base) "n" req (Some Sample.root)) = "n"%string.
Proof.
  intros req a c.
  apply (@C1_parent_gains_the_new_child Sample.base "n" req "r" Sample.root a c).
  - reflexivity.
  - discriminate.
  - reflexivity.
  - vm_compute. lia.
  - reflexivity.
  - vm_compute. lia.
Defined.

(** With no satisfying node in the store the query returns the path to
    the unfinished node of score 5, not to the finished node of score 1. *)
Lemma C3_fallback_returns_unfinished_node :
  ~ fallbackToBestComplete Sample.mixed.
Proof.
  intros H. unfold fallbackToBestComplete in H.
  specialize (H eq_refl Sample.finished).
  assert (Hh : highest
                 (filter isComplete
                    (StateManager.getAllNodes (CSP.stateManager Sample.mixed)))
                 Sample.finished).
  { split; [now left|]. intros n [E|[]]. subst n. apply Qle_refl. }
  specialize (H Hh). vm_compute in H. discriminate.
Qed.

Lemma C3_example :
  (exists best,
      highest (StateManager.getAllNodes (CSP.stateManager Sample.mixed)) best /\
      CSP.getBestPath Sample.mixed
      = (Sample.mixed,
         StateManager.getPath (id best) (CSP.stateManager Sample.mixed))) /\
  (exists best,
      highest (filter CSP.satisfying
                 (StateManager.getAllNodes (CSP.stateManager Sample.withSolution)))
              best /\
      CSP.getBestPath Sample.withSolution
      = (Sample.withSolution,
         StateManager.getPath (id best) (CSP.stateManager Sample.withSolution))).
Proof.
  split.
  - apply (C3_best_path_satisfying_else_any Sample.mixed).
    + reflexivity.
    + discriminate.
  - apply (C3_best_path_satisfying_else_any Sample.withSolution).
    discriminate.
Defined.

(** Of the three open roots, [x] with f = 1 + 5, [y] with f = 5 + 1
    and [z] with f = 2 + 2, the step moves [z], which is neither the
    cheapest by path cost nor the nearest by heuristic value. *)
Example step_example :
  expandsLeast Sample.threeOpen /\
  fst (AStar._processAStarStep Sample.threeOpen)
  = {| AStar.stateManager := AStar.stateManager Sample.threeOpen;
       AStar.openSet := [("x"%string, Sample.rootX); ("y"%string, Sample.rootY)];
       AStar.closedSet := [("z"%string, Sample.rootZ)] |}.
Proof.
  split; [|reflexivity].
  apply (@step_least_or_fails Sample.threeOpen).
  - discriminate.
  - split.
    + repeat constructor; simpl; intuition discriminate.
    + intros k n [H|[H|[H|[]]]]; inversion H; reflexivity.
  - intros n [H|[H|[H|[]]]]; subst n; eexists; reflexivity.
Qed.



Lemma C5_example :
  let w := AStar.run (base := Sample.base) Sample.ops (AStar.new (Sample.store [])) in
  (forall k, ~ (Map_has k (AStar.openSet w) = true /\
                Map_has k (AStar.closedSet w) = true)) /\
  (forall i, In i (AStar.created Sample.ops) ->
             xorb (Map_has i (AStar.openSet w))
                  (Map_has i (AStar.closedSet w)) = true).
Proof.
  apply (@C5_open_closed_partition Sample.base (Sample.store []) Sample.ops).
  repeat constructor; simpl; intuition discriminate.
Defined.

Lemma C10_example :
  exists w' resp,
    AStar.processThought (base := Sample.base) "n1"
      (Sample.request "first" None true) (AStar.new (Sample.store []))
    = (w', inr resp) /\
    openSetSize resp = Some 0%nat /\
    closedSetSize resp = Some 1%nat /\
    bestScore resp = Some NegInfinity /\
    AStar.openSet w' = [] /\
    Map_keys (AStar.closedSet w') = ["n1"%string].
Proof.
  destruct (@C10_first_request_closes_its_node Sample.base (Sample.store [])
              "n1" (Sample.request "first" None true)) as [Hfields Hanswer].
  destruct (Hanswer eq_refl) as [w' [resp Hrun]]; [vm_compute; lia|].
  exists w', resp. split; [exact Hrun|]. exact (Hfields w' resp Hrun).
Defined.

(** A request that names [hybrid], the identifier under which the
    dispatcher reaches the hybrid strategy, leaves the computed choice
    ([mcts] on an empty store) in place. *)
Lemma C2_hybrid_request_is_not_applied :
  ~ explicitChoiceApplied
      (Hybrid.new (Sample.store []))
      (Sample.withStrategy "hybrid" (Sample.request "plan" None true)).
Proof.
  intros H. specialize (H "hybrid"%string eq_refl).
  vm_compute in H. discriminate.
Qed.

Lemma C2_example :
  let w := Hybrid.new (Sample.store []) in
  let req := Sample.withStrategy "csp" (Sample.request "plan" None true) in
  Hybrid.decide (1 # 10) (2 # 10) 6 = CONSTRAINT_SATISFACTION /\
  exists w',
    Hybrid._evaluateStrategySwitch req w = (w', inr tt) /\
    Hybrid.activeNameOf w' = "csp"%string.
Proof.
  intros w req.
  destruct (C2_switch_priority_and_registered_override w req)
    as [Hprio [Hinst [w' [Hrun [_ [_ [Hreg _]]]]]]].
  split.
  - apply (Hprio (1 # 10) (2 # 10) 6). discriminate.
  - exists w'. split; [exact Hrun|].
    apply (Hreg "csp"%string); [reflexivity|].
    right. right. right. now left.
Defined.

Lemma C6_example :
  let req := Sample.withStrategy "a_star"
               (Sample.request "step" (Some "missing") true) in
  let out := snd (Engine.handle (base := Sample.base) "n1" req Engine.new) in
  nodeId (Engine.response out) = ""%string /\
  res_isComplete (Engine.response out) = false /\
  Engine.error out = Some true /\
  Engine.errorMessage out = Some "Node not found: missing"%string.
Proof.
  intros req out.
  destruct (Reasoner.processThought (base := Sample.base) "n1" req
              (Engine.reasoner Engine.new)) as [r' [e|res]] eqn:Hrun;
    [|vm_compute in Hrun; discriminate].
  destruct (@C6_handle_converts_exceptions Sample.base "n1" req Engine.new r' e Hrun)
    as [H1 [H2 [H3 [H4 _]]]].
  split; [exact H1|]. split; [exact H2|]. split; [exact H3|].
  unfold out. rewrite H4.
  vm_compute in Hrun. inversion Hrun. reflexivity.
Defined.

Lemma C7_example :
  (exists e, snd (Reasoner.setStrategy "dfs" Reasoner.new) = inl e) /\
  Reasoner.setStrategy "csp" Reasoner.new
  = (Reasoner.withCurrent Reasoner.ConstraintSatisfactionStrategy Reasoner.new,
     inr tt).
Proof.
  split.
  - apply (C7_setStrategy_unknown_or_registered "dfs" Reasoner.new).
    unfold reasonerNames. simpl. intuition discriminate.
  - destruct (C7_setStrategy_unknown_or_registered "csp" Reasoner.new)
      as [_ [_ H]].
    destruct H as [i [Hget [_ [Hrun _]]]].
    + right. right. right. now left.
    + rewrite Hrun. inversion Hget. reflexivity.
Defined.

(** On an empty store the signal is 0.5.  On the scores 0.3, 1.3, 0.3
    and 3.3 the variance is 1.5 and its fifth 0.3 in exact arithmetic;
    binary64 gives the double just below the double of 0.3. *)
Lemma C8_example :
  (exists u,
      Hybrid._calculateUncertainty64 (Hybrid.new (Sample.store [])) =
      (Hybrid.new (Sample.store []), inr u) /\ u = 0.5%float) /\
  (exists u,
      Hybrid._calculateUncertainty64 (Hybrid.new Sample.wavering) =
      (Hybrid.new Sample.wavering, inr u) /\
      u = 0x1.3333333333332p-2%float /\
      (u <? Double.ofQ (3 # 10))%float = true /\
      (0 <=? u)%float = true /\ (u <=? 1)%float = true).
Proof.
  split.
  - destruct (C8_uncertainty_signal (Hybrid.new (Sample.store [])))
      as [u [Hrun [Hfew _]]].
    exists u. split; [exact Hrun|]. apply Hfew. simpl. lia.
  - destruct (C8_uncertainty_signal (Hybrid.new Sample.wavering))
      as [u [Hrun [_ Hmany]]].
    exists u. split; [exact Hrun|].
    destruct Hmany as [Hbelow [_ Hfinite]]; [simpl; lia|].
    assert (Hu : u = 0x1.3333333333332p-2%float).
    { rewrite Hbelow; vm_compute; reflexivity. }
    split; [exact Hu|]. split; [rewrite Hu; vm_compute; reflexivity|].
    apply Hfinite. intros x Hx. vm_compute in Hx.
    repeat destruct Hx as [Hx|Hx]; try contradiction; subst x;
      vm_compute; reflexivity.
Defined.

(** A domain and an assignment arrive with the request; the index of
    constraints stays empty, [y] is left unassigned and both outcomes
    report satisfaction. *)
Example CSP_run_example :
  let result := CSP.run (base := Sample.base)
                  [CSP.OpProcessThought "n1" Sample.colouring; CSP.OpGetMetrics]
                  (CSP.new (Sample.store [])) in
  CSP.constraints_ (fst result) = [] /\
  CSP.unassignedOf (fst result) = ["y"%string] /\
  Map_keys (CSP.assignments (fst result)) = ["x"%string] /\
  Forall reportsSatisfied (snd result).
Proof.
  intros result. repeat split.
  repeat constructor.
Qed.


(** * Further properties *)

(** ** The A* strategy *)

Section AStarMore.
Context {base : BaseStrategy}.

(** X1. For a score between 0 and 10 and a depth within the step
    budget, the heuristic value lies between 0 and the number of
    remaining steps, and it is 0 at the top score. *)
Theorem X1_heuristic_bounds (node : ThoughtNode) (request : ReasoningRequest) :
  0 <= score node -> score node <= 10 ->
  depth node <= stepsBudget request ->
  0 <= AStar._calculateHeuristic node request /\
  AStar._calculateHeuristic node request <= stepsBudget request - depth node /\
  (score node == 10 -> AStar._calculateHeuristic node request == 0).
Proof.
  intros H0 H10 Hd. unfold AStar._calculateHeuristic.
  fold (stepsBudget request).
  set (T := stepsBudget request) in *. set (d := depth node) in *.
  set (s := score node) in *.
  assert (Hq : 1 - s / 10 == (10 - s) * (1 # 10)) by (field).
  split; [|split].
  - rewrite Hq. nra.
  - rewrite Hq. nra.
  - intros E. rewrite Hq, E. ring.
Qed.

(** X2. At equal depth, the node with the lower score gets the
    higher heuristic value. *)
Theorem X2_heuristic_falls_with_score
  (n1 n2 : ThoughtNode) (request : ReasoningRequest) :
  depth n1 == depth n2 ->
  depth n1 <= stepsBudget request ->
  score n1 <= score n2 ->
  AStar._calculateHeuristic n2 request <= AStar._calculateHeuristic n1 request.
Proof.
  intros Hd Hb Hs. unfold AStar._calculateHeuristic.
  fold (stepsBudget request).
  set (T := stepsBudget request) in *.
  assert (H1 : 1 - score n1 / 10 == (10 - score n1) * (1 # 10)) by field.
  assert (H2 : 1 - score n2 / 10 == (10 - score n2) * (1 # 10)) by field.
  rewrite H1, H2, <- Hd. nra.
Qed.

Lemma drained_step nid req w :
  AStar.openSet w = [] ->
  AStar._processAStarStep (inserted nid req w) =
  match StateManager.getPath nid (AStar.stateManager (inserted nid req w)) with
  | inl e => (inserted nid req w, inl e)
  | inr _ =>
      ({| AStar.stateManager := AStar.stateManager (inserted nid req w);
          AStar.openSet := [];
          AStar.closedSet :=
            Map_set nid
              (AStar.createNode nid req (parentOf req (AStar.stateManager w)))
              (AStar.closedSet w) |}, inr tt)
  end.
Proof.
  intros Ho. rewrite step_run. unfold inserted. rewrite Ho. simpl.
  rewrite bind_run, fScore_run. unfold fOf. simpl.
  destruct (StateManager.getPath nid _) as [e|path]; [reflexivity|].
  simpl. unfold ret, moved. simpl.
  now rewrite String.eqb_refl.
Qed.

(** X3. On an empty open set, a request that is answered leaves the
    open set empty again, with its own node entered in the closed set,
    and the response reports zero open nodes and a best score of
    [-Infinity]; a request that throws leaves its node behind as the
    one open node and the closed set as it was. *)
Theorem X3_open_set_drained_or_left
  (nid : string) (req : ReasoningRequest) (w : AStar.t) :
  AStar.openSet w = [] ->
  (forall w' resp,
      AStar.processThought nid req w = (w', inr resp) ->
      AStar.openSet w' = [] /\
      AStar.closedSet w' =
        Map_set nid
          (AStar.createNode nid req (parentOf req (AStar.stateManager w)))
          (AStar.closedSet w) /\
      openSetSize resp = Some 0%nat /\
      bestScore resp = Some NegInfinity) /\
  (forall w' e,
      AStar.processThought nid req w = (w', inl e) ->
      AStar.openSet w' =
        [(nid, AStar.createNode nid req (parentOf req (AStar.stateManager w)))] /\
      AStar.closedSet w' = AStar.closedSet w).
Proof.
  intros Ho. split.
  - intros w' resp. rewrite AStar_process_run, (drained_step nid req w Ho).
    destruct (StateManager.getPath nid
                (AStar.stateManager (inserted nid req w)))
      as [e|p] eqn:Hp; [discriminate|].
    cbn [AStar.stateManager]. rewrite Hp.
    intros H. inversion H; subst; clear H. simpl. repeat split.
  - intros w' e. rewrite AStar_process_run, (drained_step nid req w Ho).
    destruct (StateManager.getPath nid
                (AStar.stateManager (inserted nid req w)))
      as [e'|p] eqn:Hp.
    + intros H. inversion H; subst; clear H.
      unfold inserted. simpl. rewrite Ho. now split.
    + cbn [AStar.stateManager]. rewrite Hp. discriminate.
Qed.

(** *** The best-path query *)

Lemma bestCompleteLoop_spec ns : forall acc,
  (forall a, acc = Some a -> isComplete a = true) ->
  match AStar.bestCompleteLoop ns acc with
  | None => acc = None /\ forall n, In n ns -> isComplete n = false
  | Some b =>
      isComplete b = true /\
      (In b ns \/ acc = Some b) /\
      (forall n, In n ns -> isComplete n = true -> score n <= score b) /\
      (forall a, acc = Some a -> score a <= score b)
  end.
Proof.
  induction ns as [|n r IH]; intros acc Hacc; simpl.
  - destruct acc as [a|].
    + split; [now apply Hacc|]. split; [now right|].
      split; [intros ? []|]. intros a' E. inversion E. apply Qle_refl.
    + split; [reflexivity | intros ? []].
  - destruct (isComplete n) eqn:Hn.
    + destruct acc as [a|].
      * destruct (Qlt_le_dec (score a) (score n)) as [Hlt|Hge].
        -- specialize (IH (Some n)).
           destruct (AStar.bestCompleteLoop r (Some n)) as [b|].
           ++ destruct IH as [Hb [Hsrc [Hmax Ha]]];
                [intros ? E; inversion E; now subst|].
              assert (Hnb : score n <= score b) by (now apply Ha).
              split; [exact Hb|]. split; [|split].
              ** destruct Hsrc as [H|H]; [left; now right|].
                 inversion H; subst. left. now left.
              ** intros m [E|Hm] Hc; [subst m; exact Hnb | now apply Hmax].
              ** intros a' E. inversion E; subst a'.
                 apply Qle_trans with (score n); [now apply Qlt_le_weak | exact Hnb].
           ++ destruct IH as [H _]; [intros ? E; inversion E; now subst|].
              discriminate.
        -- specialize (IH (Some a) Hacc).
           destruct (AStar.bestCompleteLoop r (Some a)) as [b|].
           ++ destruct IH as [Hb [Hsrc [Hmax Ha]]].
              assert (Hab : score a <= score b) by (now apply Ha).
              split; [exact Hb|]. split; [|split].
              ** destruct Hsrc as [H|H]; [left; now right | now right].
              ** intros m [E|Hm] Hc; [|now apply Hmax].
                 subst m. now apply Qle_trans with (score a).
              ** exact Ha.
           ++ destruct IH as [H _]. discriminate.
      * specialize (IH (Some n)).
        destruct (AStar.bestCompleteLoop r (Some n)) as [b|].
        -- destruct IH as [Hb [Hsrc [Hmax Ha]]];
             [intros ? E; inversion E; now subst|].
           assert (Hnb : score n <= score b) by (now apply Ha).
           split; [exact Hb|]. split; [|split].
           ++ destruct Hsrc as [H|H]; [left; now right|].
              inversion H; subst. left. now left.
           ++ intros m [E|Hm] Hc; [subst m; exact Hnb | now apply Hmax].
           ++ intros a' E. discriminate.
        -- destruct IH as [H _]; [intros ? E; inversion E; now subst|].
           discriminate.
    + specialize (IH acc Hacc).
      destruct (AStar.bestCompleteLoop r acc) as [b|].
      * destruct IH as [Hb [Hsrc [Hmax Ha]]].
        split; [exact Hb|]. split; [|split].
        -- destruct Hsrc as [H|H]; [left; now right | now right].
        -- intros m [E|Hm] Hc; [subst m; congruence | now apply Hmax].
        -- exact Ha.
      * destruct IH as [Ha Hr]. split; [exact Ha|].
        intros m [E|Hm]; [now subst m | now apply Hr].
Qed.

Lemma fScores_defined ns : forall w,
  (forall n, In n ns -> exists q, fOf (AStar.stateManager w) n = inr q) ->
  exists fs, AStar.fScores ns w = (w, inr fs) /\
             map fst fs = ns /\
             forall n f, In (n, f) fs -> fOf (AStar.stateManager w) n = inr f.
Proof.
  induction ns as [|n r IH]; intros w Hdef; simpl.
  - exists []. repeat split. intros ? ? [].
  - rewrite bind_run, fScore_run.
    destruct (Hdef n (or_introl eq_refl)) as [q Hq]. rewrite Hq.
    destruct (IH w) as [fs [Hrun [Hmap Hf]]];
      [intros m Hm; apply Hdef; now right|].
    rewrite bind_run, Hrun. exists ((n, q) :: fs).
    split; [reflexivity|]. split; [simpl; now rewrite Hmap|].
    intros m f [E|H]; [inversion E; now subst | now apply Hf].
Qed.

Lemma bestFReduce_fold fs : forall (b : ThoughtNode) (f : Q),
  let r := fold_left
             (fun best current =>
                match snd best with
                | None => (fst current, Some (snd current))
                | Some bf =>
                    if Qlt_le_dec (snd current) bf
                    then (fst current, Some (snd current))
                    else best
                end) fs (b, Some f) in
  exists b' f', r = (b', Some f') /\
                (In (b', f') fs \/ (b', f') = (b, f)) /\
                f' <= f /\
                forall m fm, In (m, fm) fs -> f' <= fm.
Proof.
  induction fs as [|[m fm] rest IH]; intros b f; simpl.
  - exists b, f. split; [reflexivity|]. split; [now right|].
    split; [apply Qle_refl | intros ? ? []].
  - destruct (Qlt_le_dec fm f) as [Hlt|Hge].
    + destruct (IH m fm) as [b' [f' [Hr [Hsrc [Hle Hmin]]]]].
      exists b', f'. split; [exact Hr|]. split; [|split].
      * destruct Hsrc as [H|H]; [left; now right|].
        inversion H; subst. left. now left.
      * apply Qle_trans with fm; [exact Hle | now apply Qlt_le_weak].
      * intros m' fm' [E|H]; [inversion E; now subst | now apply (Hmin m')].
    + destruct (IH b f) as [b' [f' [Hr [Hsrc [Hle Hmin]]]]].
      exists b', f'. split; [exact Hr|]. split; [|split].
      * destruct Hsrc as [H|H]; [left; now right | now right].
      * exact Hle.
      * intros m' fm' [E|H]; [|now apply (Hmin m')].
        inversion E; subst. now apply Qle_trans with f.
Qed.

Lemma bestFReduce_least first n f rest :
  exists b' f',
    AStar.bestFReduce first ((n, f) :: rest) = (b', Some f') /\
    In (b', f') ((n, f) :: rest) /\
    forall m fm, In (m, fm) ((n, f) :: rest) -> f' <= fm.
Proof.
  unfold AStar.bestFReduce. simpl.
  destruct (bestFReduce_fold rest n f) as [b' [f' [Hr [Hsrc [Hle Hmin]]]]].
  exists b', f'. split; [exact Hr|]. split.
  - destruct Hsrc as [H|H]; [now right | left; now symmetry].
  - intros m fm [E|H]; [inversion E; now subst | now apply (Hmin m)].
Qed.

(** X5. The best-path query of the A* strategy returns the path to a
    highest-scoring complete node of the two sets when there is a
    complete node; the empty path when both sets are empty; and, when
    no node is complete and every node has a root path, the path to a
    node of least f. *)
Theorem X5_astar_best_path (w : AStar.t) :
  ((exists n, In n (seen w) /\ isComplete n = true) ->
   exists best,
     In best (seen w) /\ isComplete best = true /\
     (forall n, In n (seen w) -> isComplete n = true -> score n <= score best) /\
     AStar.getBestPath w =
       (w, StateManager.getPath (id best) (AStar.stateManager w))) /\
  (seen w = [] -> AStar.getBestPath w = (w, inr [])) /\
  ((forall n, In n (seen w) -> isComplete n = false) ->
   seen w <> [] ->
   (forall n, In n (seen w) ->
      exists q, fOf (AStar.stateManager w) n = inr q) ->
   exists best f,
     In best (seen w) /\
     fOf (AStar.stateManager w) best = inr f /\
     (forall m fm, In m (seen w) ->
        fOf (AStar.stateManager w) m = inr fm -> f <= fm) /\
     AStar.getBestPath w =
       (w, StateManager.getPath (id best) (AStar.stateManager w))).
Proof.
  assert (Hrun : AStar.getBestPath w =
            match AStar.bestCompleteLoop (seen w) None with
            | Some b => (w, StateManager.getPath (id b) (AStar.stateManager w))
            | None =>
                match seen w with
                | [] => (w, inr [])
                | first :: _ =>
                    match AStar.fScores (seen w) w with
                    | (w', inl e) => (w', inl e)
                    | (w', inr fs) =>
                        (w', StateManager.getPath
                               (id (fst (AStar.bestFReduce first fs)))
                               (AStar.stateManager w'))
                    end
                end
            end).
  { unfold AStar.getBestPath, bind, gets, ret, AStar.getPath, seen.
    destruct (AStar.bestCompleteLoop _ None); [reflexivity|].
    destruct (Map_values (AStar.openSet w) ++ Map_values (AStar.closedSet w));
      [reflexivity|].
    now destruct (AStar.fScores _ w) as [w' [e|fs]]. }
  pose proof (@bestCompleteLoop_spec (seen w) None) as Hloop.
  split; [|split].
  - intros [n [Hn Hc]]. rewrite Hrun.
    destruct (AStar.bestCompleteLoop (seen w) None) as [b|].
    + destruct Hloop as [Hb [Hsrc [Hmax _]]]; [discriminate|].
      exists b. split; [destruct Hsrc as [H|H]; [exact H | discriminate]|].
      split; [exact Hb|]. split; [exact Hmax | reflexivity].
    + destruct Hloop as [_ Hnone]; [discriminate|].
      rewrite (Hnone n Hn) in Hc. discriminate.
  - intros He. rewrite Hrun, He. reflexivity.
  - intros Hnone Hne Hdef. rewrite Hrun.
    destruct (AStar.bestCompleteLoop (seen w) None) as [b|].
    + destruct Hloop as [Hb [Hsrc _]]; [discriminate|].
      destruct Hsrc as [H|H]; [|discriminate].
      rewrite (Hnone b H) in Hb. discriminate.
    + destruct (fScores_defined (seen w) w Hdef) as [fs [Hfs [Hmap Hf]]].
      rewrite Hfs.
      destruct (seen w) as [|first rest] eqn:Hs; [congruence|].
      destruct fs as [|[n f] fs']; [discriminate|].
      destruct (bestFReduce_least first n f fs') as [b' [f' [Hr [Hin Hmin]]]].
      rewrite Hr. simpl fst.
      exists b', f'. split; [|split; [|split]].
      * rewrite <- Hmap. apply in_map_iff. now exists (b', f').
      * now apply Hf.
      * intros m fm Hm Hfm. rewrite <- Hmap in Hm.
        apply in_map_iff in Hm. destruct Hm as [[m' fm'] [E Hm']].
        simpl in E. subst m'. pose proof (Hf m fm' Hm') as Hfm'.
        rewrite Hfm in Hfm'. inversion Hfm'; subst. now apply (Hmin m).
      * reflexivity.
Qed.

End AStarMore.

(** ** The node that a request creates *)

Section CreatedNode.
Context {base : BaseStrategy}.

Lemma find_overwrite_other (m : ThoughtNode) (i : string) (l : list ThoughtNode) :
  id m <> i ->
  find (fun x => (id x =? i)%string)
       (map (fun x => if (id x =? id m)%string then m else x) l)
  = find (fun x => (id x =? i)%string) l.
Proof.
  intros Hne. apply String.eqb_neq in Hne.
  induction l as [|x r IH]; simpl; [reflexivity|].
  destruct (String.eqb (id x) (id m)) eqn:E.
  - apply String.eqb_eq in E. rewrite Hne, E, Hne. exact IH.
  - destruct (String.eqb (id x) i); [reflexivity | exact IH].
Qed.

Lemma existsb_overwrite_other (m : ThoughtNode) (i : string) (l : list ThoughtNode) :
  id m <> i ->
  existsb (fun x => (id x =? i)%string)
          (map (fun x => if (id x =? id m)%string then m else x) l)
  = existsb (fun x => (id x =? i)%string) l.
Proof.
  intros Hne. apply String.eqb_neq in Hne.
  induction l as [|x r IH]; simpl; [reflexivity|].
  destruct (String.eqb (id x) (id m)) eqn:E.
  - apply String.eqb_eq in E. rewrite Hne, E, Hne. exact IH.
  - now rewrite IH.
Qed.

Lemma find_existsb (p : ThoughtNode -> bool) (l : list ThoughtNode) n :
  find p l = Some n -> existsb p l = true.
Proof.
  intros H. apply find_some in H. apply existsb_exists. now exists n.
Qed.

Lemma existsb_skipn (p : ThoughtNode -> bool) (l : list ThoughtNode) : forall k,
  existsb p l = false -> existsb p (skipn k l) = false.
Proof.
  induction l as [|x r IH]; intros k H; destruct k; simpl in *; auto.
  apply orb_false_iff in H. now apply IH.
Qed.

Lemma find_absent_then (p : ThoughtNode -> bool) (l t : list ThoughtNode) n :
  existsb p l = false -> p n = true -> find p (l ++ n :: t) = Some n.
Proof.
  induction l as [|x r IH]; simpl; intros H Hn.
  - now rewrite Hn.
  - apply orb_false_iff in H. destruct H as [Hx Hr].
    rewrite Hx. now apply IH.
Qed.

(** Saving a node under another id leaves a lookup as it was, when the
    saved id is already in the store. *)
Lemma getNode_saveNode_present m i s :
  id m <> i ->
  existsb (fun x => (id x =? id m)%string) (StateManager.nodes s) = true ->
  StateManager.getNode i (StateManager.saveNode m s) = StateManager.getNode i s.
Proof.
  intros Hne Hex. unfold StateManager.getNode, StateManager.saveNode.
  rewrite Hex. simpl. now apply find_overwrite_other.
Qed.

(** The new node survives the update of its parent in a store that can
    hold two nodes. *)
Lemma getNode_linked_new node parent s :
  (2 <= StateManager.capacity s)%nat ->
  (forall p, parent = Some p ->
             id p <> id node /\ StateManager.getNode (id p) s = Some p) ->
  StateManager.getNode (id node) (linked node parent s) = Some node.
Proof.
  intros Hc Hp. unfold linked.
  destruct parent as [p|];
    [|apply getNode_saveNode_same; lia].
  destruct (Hp p eq_refl) as [Hne Hget].
  assert (Hpid : id (pushChild (id node) p) <> id node) by exact Hne.
  assert (Hfound : StateManager.getNode (id node) (StateManager.saveNode node s)
                   = Some node) by (apply getNode_saveNode_same; lia).
  destruct (existsb (fun x => (id x =? id (pushChild (id node) p))%string)
              (StateManager.nodes (StateManager.saveNode node s))) eqn:Hex.
  - rewrite getNode_saveNode_present; assumption.
  - unfold StateManager.saveNode at 1. rewrite Hex.
    unfold StateManager.getNode. cbn [StateManager.nodes].
    rewrite saveNode_capacity.
    revert Hex Hfound. unfold StateManager.saveNode, StateManager.getNode.
    destruct (existsb (fun m => (id m =? id node)%string) (StateManager.nodes s))
      eqn:Hn; cbn [StateManager.nodes StateManager.capacity].
    + (* the new node overwrote an entry: the parent is still there *)
      intros Hex _. exfalso.
      rewrite existsb_overwrite_other in Hex by (apply not_eq_sym; exact Hne).
      unfold StateManager.getNode in Hget. apply find_existsb in Hget.
      simpl in Hex. congruence.
    + intros Hex _. unfold StateManager.evict.
      set (l := StateManager.nodes s) in *.
      set (c := StateManager.capacity s) in *.
      assert (Hk0 : (List.length (l ++ [node]) - c <= List.length l)%nat)
        by (rewrite length_app; simpl; lia).
      rewrite (skipn_app (List.length (l ++ [node]) - c) l [node]).
      replace (List.length (l ++ [node]) - c - List.length l)%nat with 0%nat by lia.
      cbn [skipn].
      set (l0 := skipn (List.length (l ++ [node]) - c) l).
      assert (Hl0 : existsb (fun x => (id x =? id node)%string) l0 = false)
        by (now apply existsb_skipn).
      assert (Hlen : (List.length l0 <= List.length l)%nat)
        by (unfold l0; rewrite length_skipn; lia).
      rewrite <- app_assoc. cbn [app].
      rewrite (skipn_app _ l0 [node; pushChild (id node) p]).
      rewrite !length_app. cbn [List.length].
      match goal with
      | |- context [skipn ?k [node; ?q]] => replace k with 0%nat by lia
      end.
      cbn [skipn]. apply find_absent_then; [|apply String.eqb_refl].
      now apply existsb_skipn.
Qed.

Lemma parentOf_sound req s p :
  parentOf req s = Some p ->
  req_parentId req = Some (id p) /\ StateManager.getNode (id p) s = Some p.
Proof.
  unfold parentOf, truthyStr.
  destruct (req_parentId req) as [pid|]; [|discriminate].
  destruct (String.eqb pid ""); [discriminate|].
  intros H. pose proof (getNode_id _ _ H) as E. subst pid. now split.
Qed.

(** X4. In a store that can hold two nodes, and unless [uuidv4]
    returns the very id of the parent, the node that [processThought]
    creates is found in the store under the id drawn for it when the
    call ends, under the A* strategy and under the constraint strategy
    alike, and an answer echoes that id and the score, depth and
    completion flag of the stored node. *)
Theorem X4_created_node_is_stored
  (nid : string) (req : ReasoningRequest) (a : AStar.t) (c : CSP.t) :
  req_parentId req <> Some nid ->
  (2 <= StateManager.capacity (AStar.stateManager a))%nat ->
  (2 <= StateManager.capacity (CSP.stateManager c))%nat ->
  let an := AStar.createNode nid req (parentOf req (AStar.stateManager a)) in
  let cn := CSP.createNode nid req (parentOf req (CSP.stateManager c)) in
  StateManager.getNode nid
    (AStar.stateManager (fst (AStar.processThought nid req a))) = Some an /\
  StateManager.getNode nid
    (CSP.stateManager (fst (CSP.processThought nid req c))) = Some cn /\
  (forall resp, snd (AStar.processThought nid req a) = inr resp ->
     nodeId resp = nid /\ res_score resp = score an /\
     res_depth resp = depth an /\ res_isComplete resp = isComplete an) /\
  (exists resp, snd (CSP.processThought nid req c) = inr resp /\
     nodeId resp = nid /\ res_score resp = score cn /\
     res_depth resp = depth cn /\ res_isComplete resp = isComplete cn).
Proof.
  intros Hne Hca Hcc an cn.
  assert (Hpar : forall s node, id node = nid ->
            forall p, parentOf req s = Some p ->
              id p <> id node /\ StateManager.getNode (id p) s = Some p).
  { intros s node Hid p Hp. apply parentOf_sound in Hp.
    destruct Hp as [Hreq Hget]. split; [|exact Hget].
    rewrite Hid. intros E. apply Hne. now rewrite Hreq, E. }
  split; [|split; [|split]].
  - rewrite AStar_process_state, step_store. unfold inserted.
    cbn [AStar.stateManager].
    change (StateManager.getNode (id an)
              (linked an (parentOf req (AStar.stateManager a))
                 (AStar.stateManager a)) = Some an).
    apply getNode_linked_new; [exact Hca | now apply Hpar].
  - rewrite CSP_process_run. unfold merged. cbn [fst CSP.stateManager].
    change (StateManager.getNode (id cn)
              (linked cn (parentOf req (CSP.stateManager c))
                 (CSP.stateManager c)) = Some cn).
    apply getNode_linked_new; [exact Hcc | now apply Hpar].
  - intros resp. rewrite AStar_process_run.
    destruct (AStar._processAStarStep _) as [w2 [e|u]]; [discriminate|].
    destruct (StateManager.getPath nid _); [discriminate|].
    simpl. intros H. inversion H. repeat split.
  - rewrite CSP_process_run. eexists. split; [reflexivity|]. repeat split.
Qed.

End CreatedNode.

(** ** The constraint strategy, further *)

Section CSPMore.
Context {base : BaseStrategy} {engine : Engine}.

(** X6. The unassigned variables are the variables that have a domain
    and no assignment, each listed once, in the order of the domains;
    this is the list that a response carries. *)
Theorem X6_unassigned_is_domains_minus_assignments (w : CSP.t) :
  (exists l,
      CSP._getUnassignedVariables w = (w, inr l) /\
      (forall v, In v l <->
                 In v (Map_keys (CSP.domains w)) /\
                 ~ In v (Map_keys (CSP.assignments w))) /\
      (NoDup (Map_keys (CSP.domains w)) -> NoDup l)) /\
  (forall nid req,
      exists w' resp l,
        CSP.processThought nid req w = (w', inr resp) /\
        unassignedVariables resp = Some l /\
        forall v, In v l <->
                  In v (Map_keys (CSP.domains w')) /\
                  ~ In v (Map_keys (CSP.assignments w'))).
Proof.
  assert (Hchar : forall w0 v,
            In v (CSP.unassignedOf w0) <->
            In v (Map_keys (CSP.domains w0)) /\
            ~ In v (Map_keys (CSP.assignments w0))).
  { intros w0 v. unfold CSP.unassignedOf. rewrite filter_In.
    rewrite negb_true_iff.
    pose proof (Map_has_In v (CSP.assignments w0)) as Hin.
    destruct (Map_has v (CSP.assignments w0)).
    - split; [intros [_ H]; discriminate|].
      intros [_ H]. elim H. now apply Hin.
    - split; intros [H _]; (split; [exact H|]); [|reflexivity].
      intros C. apply Hin in C. discriminate. }
  split.
  - exists (CSP.unassignedOf w). split; [reflexivity|].
    split; [apply Hchar|].
    intros H. unfold CSP.unassignedOf. now apply NoDup_filter.
  - intros nid req. rewrite CSP_process_run.
    eexists. eexists. eexists. split; [reflexivity|].
    split; [reflexivity|]. apply Hchar.
Qed.

(** The loop of [_selectUnassignedVariable] on domains whose sizes are
    numbers. *)
Lemma selectLoop_numeric (w : CSP.t) (keys : list string) :
  let free := fun u => negb (Map_has u (CSP.assignments w)) in
  (forall u, In u keys -> free u = true ->
     exists q, CSP.domainSizeOf (Map_get u (CSP.domains w)) = JNum q) ->
  forall best smallest,
    match best, smallest with
    | None, None => True
    | Some v, Some s => s = JNum (sizeOfDomain w v)
    | _, _ => False
    end ->
    exists r,
      CSP.selectLoop w keys best smallest = inr r /\
      match r with
      | None => best = None /\ forall u, In u keys -> free u = false
      | Some v =>
          ((In v keys /\ free v = true) \/ best = Some v) /\
          (forall u, In u keys -> free u = true ->
             sizeOfDomain w v <= sizeOfDomain w u) /\
          (forall a, best = Some a -> sizeOfDomain w v <= sizeOfDomain w a)
      end.
Proof.
  intros free. induction keys as [|k rest IH]; intros Hnum best smallest Hacc.
  - exists best. split; [reflexivity|].
    destruct best as [v|].
    + split; [now right|]. split; [intros u []|].
      intros a E. inversion E. apply Qle_refl.
    + split; [reflexivity | intros u []].
  - assert (Hrest : forall u, In u rest -> free u = true ->
              exists q, CSP.domainSizeOf (Map_get u (CSP.domains w)) = JNum q)
      by (intros u Hu; apply Hnum; now right).
    simpl. fold (free k). destruct (free k) eqn:Hk.
    + destruct (Hnum k (or_introl eq_refl) Hk) as [q Hq].
      assert (Hsize : sizeOfDomain w k = q)
        by (unfold sizeOfDomain; now rewrite Hq).
      rewrite Hq.
      assert (Htake :
                exists r,
                  CSP.selectLoop w rest (Some k) (Some (JNum q)) = inr r /\
                  match r with
                  | None => False
                  | Some v =>
                      ((In v (k :: rest) /\ free v = true)) /\
                      (forall u, In u rest -> free u = true ->
                         sizeOfDomain w v <= sizeOfDomain w u) /\
                      sizeOfDomain w v <= q
                  end).
      { destruct (IH Hrest (Some k) (Some (JNum q))) as [r [Hrun Hr]];
          [simpl; now rewrite Hsize|].
        exists r. split; [exact Hrun|].
        destruct r as [v|]; [|destruct Hr; discriminate].
        destruct Hr as [Hsrc [Hmin Hprev]].
        split; [|split; [exact Hmin|]].
        - destruct Hsrc as [[Hin Hf]|E]; [split; [now right | exact Hf]|].
          inversion E; subst v. split; [now left | exact Hk].
        - rewrite <- Hsize. now apply Hprev. }
      destruct best as [v0|]; destruct smallest as [s0|]; try contradiction.
      * subst s0. simpl. destruct (Qlt_le_dec q (sizeOfDomain w v0)) as [Hlt|Hge].
        -- destruct Htake as [r [Hrun Hr]]. exists r. split; [exact Hrun|].
           destruct r as [v|]; [|contradiction].
           destruct Hr as [Hsrc [Hmin Hq']].
           split; [now left|]. split.
           ++ intros u [E|Hu] Hf; [subst u; now rewrite Hsize | now apply Hmin].
           ++ intros a E. inversion E; subst a.
              apply Qle_trans with q; [exact Hq' | now apply Qlt_le_weak].
        -- destruct (IH Hrest (Some v0) (Some (JNum (sizeOfDomain w v0))))
             as [r [Hrun Hr]]; [reflexivity|].
           exists r. split; [exact Hrun|].
           destruct r as [v|]; [|destruct Hr; discriminate].
           destruct Hr as [Hsrc [Hmin Hprev]].
           assert (Hv0 : sizeOfDomain w v <= sizeOfDomain w v0)
             by (now apply Hprev).
           split; [|split].
           ++ destruct Hsrc as [[Hin Hf]|E]; [left; split; [now right | exact Hf]|].
              now right.
           ++ intros u [E|Hu] Hf; [|now apply Hmin].
              subst u. rewrite Hsize. now apply Qle_trans with (sizeOfDomain w v0).
           ++ intros a E. inversion E; subst a. exact Hv0.
      * simpl. destruct Htake as [r [Hrun Hr]]. exists r. split; [exact Hrun|].
        destruct r as [v|]; [|contradiction].
        destruct Hr as [Hsrc [Hmin Hq']].
        split; [now left|]. split.
        -- intros u [E|Hu] Hf; [subst u; now rewrite Hsize | now apply Hmin].
        -- intros a E. discriminate.
    + destruct (IH Hrest best smallest Hacc) as [r [Hrun Hr]].
      exists r. split; [exact Hrun|].
      destruct r as [v|].
      * destruct Hr as [Hsrc [Hmin Hprev]]. split; [|split; [|exact Hprev]].
        -- destruct Hsrc as [[Hin Hf]|E]; [left; split; [now right | exact Hf]|].
           now right.
        -- intros u [E|Hu] Hf; [subst u; congruence | now apply Hmin].
      * destruct Hr as [Hb Hfree]. split; [exact Hb|].
        intros u [E|Hu]; [now subst u | now apply Hfree].
Qed.

(** X7. When the domain sizes that the selection compares are numbers
    (the domains are arrays, strings, or objects with a numeric
    [length]), the variable selected for expansion is an unassigned
    variable whose domain is no larger than the domain of any other
    unassigned variable; nothing is selected exactly when no variable
    is unassigned. *)
Theorem X7_select_smallest_domain (w : CSP.t) :
  numericDomains w ->
  exists r,
    CSP._selectUnassignedVariable w = (w, inr r) /\
    match r with
    | None => CSP.unassignedOf w = []
    | Some v =>
        In v (CSP.unassignedOf w) /\
        forall u, In u (CSP.unassignedOf w) ->
          sizeOfDomain w v <= sizeOfDomain w u
    end.
Proof.
  intros Hnum. unfold CSP._selectUnassignedVariable.
  assert (Hkeys : forall u, In u (Map_keys (CSP.domains w)) ->
            negb (Map_has u (CSP.assignments w)) = true ->
            exists q, CSP.domainSizeOf (Map_get u (CSP.domains w)) = JNum q).
  { intros u Hu Hf. apply Hnum. unfold CSP.unassignedOf.
    apply filter_In. now split. }
  destruct (@selectLoop_numeric w (Map_keys (CSP.domains w)) Hkeys None None I)
    as [r [Hrun Hr]].
  exists r. rewrite Hrun. split; [reflexivity|].
  destruct r as [v|].
  - destruct Hr as [Hsrc [Hmin _]].
    destruct Hsrc as [[Hin Hf]|E]; [|discriminate].
    split; [unfold CSP.unassignedOf; apply filter_In; now split|].
    intros u Hu. unfold CSP.unassignedOf in Hu. apply filter_In in Hu.
    now apply Hmin.
  - destruct Hr as [_ Hfree]. unfold CSP.unassignedOf.
    destruct (filter _ _) as [|x l] eqn:E; [reflexivity|].
    assert (Hx : In x (x :: l)) by now left.
    rewrite <- E in Hx. apply filter_In in Hx. destruct Hx as [Hin Hf].
    rewrite (Hfree x Hin) in Hf. discriminate.
Qed.

(** *** Merging domains and assignments *)

Lemma Map_get_snoc {V} (k k0 : string) (v0 : V) (l : JsMap V) :
  Map_get k (l ++ [(k0, v0)]) =
  match Map_get k l with
  | Some v => Some v
  | None => if (k0 =? k)%string then Some v0 else None
  end.
Proof.
  induction l as [|[k1 v1] r IH]; simpl; [reflexivity|].
  destruct (String.eqb k1 k); [reflexivity | exact IH].
Qed.

Lemma Map_get_set {V} (k k0 : string) (v0 : V) (m : JsMap V) :
  Map_get k (Map_set k0 v0 m) =
  if (k0 =? k)%string then Some v0 else Map_get k m.
Proof.
  destruct (String.eqb k0 k) eqn:E.
  - apply String.eqb_eq in E. subst. apply Map_get_set_same.
  - apply String.eqb_neq in E. now apply Map_get_set_other.
Qed.

(** A run of [set] calls leaves under each key the value of the last
    call for that key, and the old value when there was no call. *)
Lemma Map_get_setAll {V} (k : string) (es : list (string * V)) : forall m,
  Map_get k (Map_setAll es m) =
  match Map_get k (rev es) with
  | Some v => Some v
  | None => Map_get k m
  end.
Proof.
  unfold Map_setAll.
  induction es as [|[k0 v0] r IH]; intros m; simpl; [reflexivity|].
  rewrite IH, Map_get_snoc, Map_get_set.
  destruct (Map_get k (rev r)); [reflexivity|].
  now destruct (String.eqb k0 k).
Qed.

(** X8. [processThought] merges the [domains] and the [assignments] of
    the request with last write wins: a variable that the request
    mentions gets the value of its last entry for it, every other
    variable keeps what it had, and the index of constraints is not
    touched. *)
Theorem X8_merge_last_write_wins
  (nid : string) (req : ReasoningRequest) (w : CSP.t) (x : string) :
  let w' := fst (CSP.processThought nid req w) in
  let given := fun field =>
    Map_get x (rev (entriesOrEmpty (prop field (CSP.constraintsOf req)))) in
  Map_get x (CSP.assignments w') =
    match given "assignments"%string with
    | Some v => Some v
    | None => Map_get x (CSP.assignments w)
    end /\
  Map_get x (CSP.domains w') =
    match given "domains"%string with
    | Some v => Some v
    | None => Map_get x (CSP.domains w)
    end /\
  CSP.constraints_ w' = CSP.constraints_ w.
Proof.
  intros w' given. unfold w', given. rewrite CSP_process_run.
  unfold merged. cbn [fst CSP.assignments CSP.domains CSP.constraints_].
  split; [apply Map_get_setAll|]. split; [apply Map_get_setAll | reflexivity].
Qed.

(** X9. The [bestScore] of a response of the constraint strategy is
    the larger of the node's score and its parent's, with 0 in the
    place of a missing parent: it is never below the node's own score
    and never below 0 for a root. *)
Theorem X9_csp_best_score (nid : string) (req : ReasoningRequest) (w : CSP.t) :
  exists w' resp b,
    CSP.processThought nid req w = (w', inr resp) /\
    bestScore resp = Some (Fin b) /\
    res_score resp <= b /\
    (forall p, parentOf req (CSP.stateManager w) = Some p ->
               score p <= b /\ (b == res_score resp \/ b == score p)) /\
    (parentOf req (CSP.stateManager w) = None ->
     0 <= b /\ (b == res_score resp \/ b == 0)).
Proof.
  rewrite CSP_process_run.
  set (parent := parentOf req (CSP.stateManager w)).
  set (node := CSP.createNode nid req parent).
  eexists. eexists.
  exists (Qmaxb (score node) (match parent with Some p => score p | None => 0 end)).
  split; [reflexivity|]. split; [reflexivity|].
  assert (Hmax : forall a b, a <= Qmaxb a b /\ b <= Qmaxb a b /\
                             (Qmaxb a b == a \/ Qmaxb a b == b)).
  { intros a b. unfold Qmaxb. destruct (Qle_bool a b) eqn:E.
    - apply Qle_bool_iff in E. split; [exact E|].
      split; [apply Qle_refl | right; reflexivity].
    - split; [apply Qle_refl|]. split; [|left; reflexivity].
      destruct (Qlt_le_dec b a) as [H|H]; [now apply Qlt_le_weak|].
      apply Qle_bool_iff in H. congruence. }
  cbn [res_score CSP.respond].
  split; [apply Hmax|]. split.
  - intros p Hp. rewrite Hp.
    destruct (Hmax (score node) (score p)) as [_ [H2 H3]]. now split.
  - intros Hp. rewrite Hp.
    destruct (Hmax (score node) 0) as [_ [H2 H3]]. now split.
Qed.

End CSPMore.

(** ** The hybrid strategy, further *)

Section HybridMore.
Context {base : BaseStrategy}.

Lemma clarity_cases (req : ReasoningRequest) :
  let g := Hybrid.goalClarityOf req in
  (g == 3 # 10 \/ g == 6 # 10 \/ g == 7 # 10 \/ g == 1) /\
  (7 # 10 <= g <->
   exists ms, evaluationMetrics req = Some ms /\ ms <> []).
Proof.
  unfold Hybrid.goalClarityOf.
  destruct (evaluationMetrics req) as [[|m ms]|];
    destruct (Qlt_le_dec 0 (totalThoughts req)); simpl;
    (split; [try (left; reflexivity); try (right; left; reflexivity);
             try (right; right; left; reflexivity);
             try (right; right; right; reflexivity)|]);
    split; intros H;
    try (destruct H as [ms' [E Hne]]; inversion E; subst; congruence);
    try (exfalso; revert H; unfold Qle; simpl; lia);
    try (eexists; split; [reflexivity | discriminate]);
    try (unfold Qle; simpl; lia).
Qed.

(** X10. The goal clarity of a request is one of 0.3, 0.6, 0.7 and 1,
    and it reaches the A* threshold of 0.7 exactly when the request
    lists at least one evaluation metric. *)
Theorem X10_goal_clarity_is_metrics_supplied
  (req : ReasoningRequest) (w : Hybrid.t) :
  exists g,
    Hybrid._calculateGoalClarity req w = (w, inr g) /\
    (g == 3 # 10 \/ g == 6 # 10 \/ g == 7 # 10 \/ g == 1) /\
    (Hybrid.goalClarityThreshold <= g <->
     exists ms, evaluationMetrics req = Some ms /\ ms <> []).
Proof.
  exists (Hybrid.goalClarityOf req). split; [reflexivity|].
  apply clarity_cases.
Qed.

Lemma density_count (text : string) (keys : list string) : forall n,
  fold_left (fun count keyword =>
               if includes keyword text then S count else count) keys n
  = (n + List.length (filter (fun keyword => includes keyword text) keys))%nat.
Proof.
  induction keys as [|k r IH]; intros n; simpl; [lia|].
  rewrite IH. destruct (includes k text); simpl; lia.
Qed.

Lemma toLowerCase_empty s : toLowerCase s = ""%string -> s = ""%string.
Proof. destruct s; [reflexivity | discriminate]. Qed.

(** X11. The constraint density is the number of keys of the
    [constraints] object plus the number of the five keywords that
    occur in the thought, letter case ignored: it lies between the
    number of keys and that number plus 5, and two requests with the
    same constraints whose thoughts differ in letter case only have the
    same density. *)
Theorem X11_constraint_density (req : ReasoningRequest) :
  let keys := match req_constraints req with
              | Some c => List.length c
              | None => 0%nat
              end in
  Hybrid.constraintDensityOf req =
    (keys + List.length
              (filter (fun keyword =>
                         includes keyword (toLowerCase (req_thought req)))
                      (if (req_thought req =? "")%string
                       then [] else Hybrid.constraintKeywords)))%nat /\
  (keys <= Hybrid.constraintDensityOf req <= keys + 5)%nat /\
  (forall req',
      req_constraints req' = req_constraints req ->
      toLowerCase (req_thought req') = toLowerCase (req_thought req) ->
      Hybrid.constraintDensityOf req' = Hybrid.constraintDensityOf req).
Proof.
  intros keys.
  assert (Hform : forall r,
            Hybrid.constraintDensityOf r =
            (match req_constraints r with
             | Some c => List.length c
             | None => 0%nat
             end
             + List.length
                 (filter (fun keyword =>
                            includes keyword (toLowerCase (req_thought r)))
                         (if (req_thought r =? "")%string
                          then [] else Hybrid.constraintKeywords)))%nat).
  { intros r. unfold Hybrid.constraintDensityOf.
    destruct (String.eqb (req_thought r) ""); [simpl; lia|].
    apply density_count. }
  split; [apply Hform|]. split.
  - rewrite Hform. fold keys.
    assert (Hle : (List.length
                     (filter (fun keyword =>
                                includes keyword (toLowerCase (req_thought req)))
                             (if (req_thought req =? "")%string
                              then [] else Hybrid.constraintKeywords)) <= 5)%nat).
    { destruct (String.eqb (req_thought req) ""); [simpl; lia|].
      etransitivity; [apply filter_length_le | simpl; lia]. }
    lia.
  - intros req' Hc Ht. rewrite (Hform req'), (Hform req), Hc, Ht.
    assert (He : String.eqb (req_thought req') "" = String.eqb (req_thought req) "").
    { destruct (String.eqb (req_thought req') "") eqn:E1;
        destruct (String.eqb (req_thought req) "") eqn:E2; try reflexivity.
      - apply String.eqb_eq in E1. rewrite E1 in Ht. simpl in Ht.
        symmetry in Ht. apply toLowerCase_empty in Ht.
        apply String.eqb_neq in E2. contradiction.
      - apply String.eqb_eq in E2. rewrite E2 in Ht. simpl in Ht.
        apply toLowerCase_empty in Ht.
        apply String.eqb_neq in E1. contradiction. }
    now rewrite He.
Qed.

(** X12. While the store holds fewer than two nodes the uncertainty is
    0.5, above its threshold, so the computed choice is never beam
    search: it is CSP at density 5 or more, else A* when the request
    lists an evaluation metric, else MCTS. *)
Theorem X12_young_store_never_beam_search
  (w : Hybrid.t) (req : ReasoningRequest) :
  (List.length (StateManager.getAllNodes (Hybrid.stateManager w)) < 2)%nat ->
  truthyStr (strategyType req) = None ->
  exists w',
    Hybrid._evaluateStrategySwitch req w = (w', inr tt) /\
    Hybrid.activeNameOf w' <> BEAM_SEARCH /\
    ((5 <= Hybrid.constraintDensityOf req)%nat ->
     Hybrid.activeNameOf w' = CONSTRAINT_SATISFACTION) /\
    ((Hybrid.constraintDensityOf req < 5)%nat ->
     (exists ms, evaluationMetrics req = Some ms /\ ms <> []) ->
     Hybrid.activeNameOf w' = A_STAR) /\
    ((Hybrid.constraintDensityOf req < 5)%nat ->
     ~ (exists ms, evaluationMetrics req = Some ms /\ ms <> []) ->
     Hybrid.activeNameOf w' = MCTS).
Proof.
  intros Hfew Hnone.
  set (nodes := StateManager.getAllNodes (Hybrid.stateManager w)) in *.
  set (d := Hybrid.constraintDensityOf req).
  set (computed := Hybrid.decide (Hybrid.uncertaintyOf nodes)
                     (Hybrid.goalClarityOf req) (inject_Z (Z.of_nat d))).
  destruct (@switch_registered computed w (decide_registered _ _ _))
    as [i [Hsw Hname]].
  exists (Hybrid.withActive i w).
  assert (Hrun : Hybrid._evaluateStrategySwitch req w
                 = (Hybrid.withActive i w, inr tt)).
  { unfold Hybrid._evaluateStrategySwitch, bind,
      Hybrid._calculateUncertainty, Hybrid._calculateGoalClarity,
      Hybrid._calculateConstraintDensity, gets, ret.
    fold nodes. fold d. fold computed. rewrite Hsw, Hnone. reflexivity. }
  split; [exact Hrun|]. rewrite Hname.
  assert (Hu : Hybrid.uncertaintyOf nodes = 1 # 2).
  { unfold Hybrid.uncertaintyOf. apply Nat.ltb_lt in Hfew. now rewrite Hfew. }
  assert (Hd : 5 <= inject_Z (Z.of_nat d) <-> (5 <= d)%nat).
  { unfold Qle. simpl. lia. }
  destruct (clarity_cases req) as [_ Hg]. cbv zeta in Hg.
  unfold computed, Hybrid.decide, Hybrid.constraintDensityThreshold,
    Hybrid.goalClarityThreshold, Hybrid.uncertaintyThreshold.
  rewrite Hu.
  destruct (Qle_bool 5 (inject_Z (Z.of_nat d))) eqn:E5.
  - apply Qle_bool_iff, Hd in E5.
    split; [discriminate|]. split; [reflexivity|]. split; intros; lia.
  - assert (Hlt : (d < 5)%nat).
    { destruct (le_lt_dec 5 d) as [H|H]; [|exact H].
      apply Hd, Qle_bool_iff in H. congruence. }
    destruct (Qle_bool (7 # 10) (Hybrid.goalClarityOf req)) eqn:E7.
    + apply Qle_bool_iff, Hg in E7.
      split; [discriminate|]. split; [intros; lia|].
      split; [reflexivity | intros _ Hn; contradiction].
    + split; [discriminate|]. split; [intros; lia|]. split.
      * intros _ Hm. apply Hg, Qle_bool_iff in Hm. congruence.
      * reflexivity.
Qed.

(** X13. The name reported for the active strategy is one of the four
    registered identifiers and is the key under which the active
    object is registered; switching to a registered identifier makes
    it the reported name, switching to any other string changes
    nothing. *)
Theorem X13_active_name_round_trip (w : Hybrid.t) (s : string) :
  In (Hybrid.activeNameOf w) hybridNames /\
  Map_get (Hybrid.activeNameOf w) Hybrid.strategies
    = Some (Hybrid.activeStrategy_ w) /\
  (In s hybridNames ->
   Hybrid.activeNameOf (fst (Hybrid._switchStrategy s w)) = s /\
   snd (Hybrid._switchStrategy s w) = inr tt) /\
  (~ In s hybridNames -> Hybrid._switchStrategy s w = (w, inr tt)).
Proof.
  split; [|split; [|split]].
  - unfold Hybrid.activeNameOf, hybridNames.
    destruct (Hybrid.activeStrategy_ w); simpl; tauto.
  - unfold Hybrid.activeNameOf.
    destruct (Hybrid.activeStrategy_ w); reflexivity.
  - intros Hin. destruct (switch_registered w Hin) as [i [Hsw Hname]].
    rewrite Hsw. now split.
  - apply switch_unregistered.
Qed.

(** [processThought] of the hybrid strategy, stage by stage. *)
Lemma Hybrid_process_run uuid req w :
  Hybrid.processThought uuid req w =
  match Hybrid._evaluateStrategySwitch req w with
  | (w1, inl e) => (w1, inl e)
  | (w1, inr _) =>
      match Hybrid.delegate uuid req w1 with
      | (w2, inl e) => (w2, inl e)
      | (w2, inr response) =>
          (w2, inr
             {| nodeId := nodeId response;
                res_thought := res_thought response;
                res_score := res_score response;
                res_depth := res_depth response;
                res_isComplete := res_isComplete response;
                res_nextThoughtNeeded := res_nextThoughtNeeded response;
                possiblePaths := possiblePaths response;
                bestScore := bestScore response;
                strategyUsed := strategyUsed response;
                openSetSize := openSetSize response;
                closedSetSize := closedSetSize response;
                estimatedDistanceToGoal := estimatedDistanceToGoal response;
                totalCost := totalCost response;
                constraintsSatisfied := constraintsSatisfied response;
                unassignedVariables := unassignedVariables response;
                currentAssignments := currentAssignments response;
                activeStrategy := Some (Hybrid.activeNameOf w2);
                availableStrategies := Some (Map_keys Hybrid.strategies);
                hybridInfo :=
                  Some (Hybrid.uncertaintyOf
                          (StateManager.getAllNodes (Hybrid.stateManager w2)),
                        Hybrid.goalClarityOf req,
                        inject_Z (Z.of_nat (Hybrid.constraintDensityOf req)));
                recommendedNextSteps := recommendedNextSteps response;
                problemType := problemType response;
                gameDevMetrics := gameDevMetrics response |})
      end
  end.
Proof.
  unfold Hybrid.processThought. rewrite bind_run.
  destruct (Hybrid._evaluateStrategySwitch req w) as [w1 [e|u]]; [reflexivity|].
  rewrite bind_run.
  now destruct (Hybrid.delegate uuid req w1) as [w2 [e|response]].
Qed.

Lemma delegate_active uuid req w :
  Hybrid.activeStrategy_ (fst (Hybrid.delegate uuid req w))
  = Hybrid.activeStrategy_ w.
Proof.
  unfold Hybrid.delegate, bind, gets, Hybrid.onStore, Hybrid.onAStar,
    Hybrid.onCSP.
  destruct (Hybrid.activeStrategy_ w) eqn:E.
  - now destruct (BeamSearch_processThought uuid req (Hybrid.stateManager w)).
  - now destruct (MCTS_processThought uuid req (Hybrid.stateManager w)).
  - now destruct (AStar.processThought uuid req _).
  - now destruct (CSP.processThought uuid req _).
Qed.

Lemma switch_total req w :
  exists w1, Hybrid._evaluateStrategySwitch req w = (w1, inr tt) /\
             Hybrid.stateManager w1 = Hybrid.stateManager w /\
             Hybrid.aStar w1 = Hybrid.aStar w /\
             Hybrid.csp w1 = Hybrid.csp w /\
             (forall s, truthyStr (strategyType req) = Some s ->
                        In s hybridNames -> Hybrid.activeNameOf w1 = s).
Proof.
  set (computed := Hybrid.decide
         (Hybrid.uncertaintyOf (StateManager.getAllNodes (Hybrid.stateManager w)))
         (Hybrid.goalClarityOf req)
         (inject_Z (Z.of_nat (Hybrid.constraintDensityOf req)))).
  destruct (@switch_registered computed w (decide_registered _ _ _))
    as [i [Hsw Hname]].
  assert (Hauto :
            Hybrid._evaluateStrategySwitch req w =
            match truthyStr (strategyType req) with
            | Some s => Hybrid._switchStrategy s (Hybrid.withActive i w)
            | None => (Hybrid.withActive i w, inr tt)
            end).
  { unfold Hybrid._evaluateStrategySwitch, bind,
      Hybrid._calculateUncertainty, Hybrid._calculateGoalClarity,
      Hybrid._calculateConstraintDensity, gets, ret.
    fold computed. rewrite Hsw.
    now destruct (truthyStr (strategyType req)). }
  rewrite Hauto.
  destruct (truthyStr (strategyType req)) as [s|].
  - destruct (in_dec string_dec s hybridNames) as [Hin|Hout].
    + destruct (switch_registered (Hybrid.withActive i w) Hin) as [j [Hsw' Hn']].
      rewrite Hsw'. eexists. split; [reflexivity|].
      repeat split. intros s' E _. now inversion E; subst.
    + rewrite (switch_unregistered _ Hout). eexists. split; [reflexivity|].
      repeat split. intros s' E Hin. inversion E; subst. contradiction.
  - eexists. split; [reflexivity|]. repeat split. intros s' E. discriminate.
Qed.

(** X14. An answer of the hybrid strategy names the strategy that
    processed the request, one of the four registered identifiers and
    never [hybrid]; it lists those four as available, keeps the node id
    and the score of the delegate's answer, and reports the
    uncertainty of the store as it is after the request. *)
Theorem X14_hybrid_answer_names_its_delegate
  (uuid : string) (req : ReasoningRequest) (w w' : Hybrid.t)
  (resp : ReasoningResponse) :
  Hybrid.processThought uuid req w = (w', inr resp) ->
  (exists name, activeStrategy resp = Some name /\
                In name hybridNames /\
                Map_get name Hybrid.strategies = Some (Hybrid.activeStrategy_ w')) /\
  availableStrategies resp = Some hybridNames /\
  hybridInfo resp =
    Some (Hybrid.uncertaintyOf (StateManager.getAllNodes (Hybrid.stateManager w')),
          Hybrid.goalClarityOf req,
          inject_Z (Z.of_nat (Hybrid.constraintDensityOf req))) /\
  (exists w1 response,
      Hybrid._evaluateStrategySwitch req w = (w1, inr tt) /\
      Hybrid.delegate uuid req w1 = (w', inr response) /\
      Hybrid.activeStrategy_ w' = Hybrid.activeStrategy_ w1 /\
      nodeId resp = nodeId response /\
      res_score resp = res_score response).
Proof.
  rewrite Hybrid_process_run.
  destruct (switch_total req w) as [w1 [Hsw _]]. rewrite Hsw.
  pose proof (delegate_active uuid req w1) as Hact.
  destruct (Hybrid.delegate uuid req w1) as [w2 [e|response]] eqn:Hd;
    [discriminate|].
  intros H. inversion H; subst; clear H. simpl in Hact.
  split; [|split; [reflexivity|split; [reflexivity|]]].
  - exists (Hybrid.activeNameOf w'). split; [reflexivity|].
    unfold Hybrid.activeNameOf, hybridNames.
    destruct (Hybrid.activeStrategy_ w'); simpl; tauto.
  - exists w1, response. split; [reflexivity|]. split; [exact Hd|].
    split; [exact Hact|]. split; reflexivity.
Qed.

(** X15. A request that asks the hybrid strategy for [csp] is always
    answered, by the constraint strategy that the hybrid strategy owns:
    the answer names [csp], its node id is the id drawn, the two sets
    of the owned A* strategy are untouched, and it reports the
    constraints as satisfied when the owned index of constraints is
    empty. *)
Theorem X15_hybrid_csp_request
  (uuid : string) (req : ReasoningRequest) (w : Hybrid.t) :
  strategyType req = Some CONSTRAINT_SATISFACTION ->
  exists w' resp,
    Hybrid.processThought uuid req w = (w', inr resp) /\
    activeStrategy resp = Some CONSTRAINT_SATISFACTION /\
    nodeId resp = uuid /\
    Hybrid.aStar w' = Hybrid.aStar w /\
    (CSP.constraints_ (Hybrid.csp w) = [] ->
     constraintsSatisfied resp = Some true).
Proof.
  intros Hs. rewrite Hybrid_process_run.
  destruct (switch_total req w) as [w1 [Hsw [Hst [Ha [Hc Hname]]]]].
  rewrite Hsw.
  assert (Hn : Hybrid.activeNameOf w1 = CONSTRAINT_SATISFACTION).
  { apply Hname; [now rewrite Hs|].
    unfold hybridNames. simpl. tauto. }
  assert (Hi : Hybrid.activeStrategy_ w1 = Hybrid.ConstraintSatisfactionStrategy).
  { revert Hn. unfold Hybrid.activeNameOf.
    destruct (Hybrid.activeStrategy_ w1); simpl; intros E;
      try discriminate; reflexivity. }
  unfold Hybrid.delegate. rewrite bind_run. unfold gets at 1. rewrite Hi.
  unfold Hybrid.onCSP. rewrite CSP_process_run.
  eexists. eexists. split; [reflexivity|].
  cbn [activeStrategy nodeId constraintsSatisfied Hybrid.aStar CSP.respond].
  split; [|split; [reflexivity|split; [exact Ha|]]].
  - unfold Hybrid.activeNameOf. cbn [Hybrid.activeStrategy_]. now rewrite Hi.
  - intros Hidx. f_equal. apply check_empty.
    unfold merged. cbn [CSP.constraints_ CSP.withStore]. now rewrite Hc.
Qed.

End HybridMore.

(** ** The dispatcher and the engine boundary, further *)

Section BoundaryMore.
Context {base : BaseStrategy}.

Lemma Map_get_In {V} (k : string) (v : V) (m : JsMap V) :
  Map_get k m = Some v -> In (k, v) m.
Proof.
  induction m as [|[k0 v0] r IH]; simpl; [discriminate|].
  destruct (String.eqb k0 k) eqn:E.
  - apply String.eqb_eq in E. intros H. inversion H; subst. now left.
  - intros H. right. now apply IH.
Qed.

Lemma registered_name s i r :
  Map_get s Reasoner.strategies = Some i ->
  Reasoner.currentNameOf (Reasoner.withCurrent i r) = s.
Proof.
  intros H. apply Map_get_In in H.
  unfold Reasoner.strategies, Reasoner.register in H. simpl in H.
  repeat destruct H as [H|H]; try contradiction;
    inversion H; subst; reflexivity.
Qed.

Lemma current_registered r :
  In (Reasoner.currentNameOf r) reasonerNames /\
  Map_get (Reasoner.currentNameOf r) Reasoner.strategies
    = Some (Reasoner.currentStrategy r).
Proof.
  unfold Reasoner.currentNameOf, reasonerNames.
  destruct (Reasoner.currentStrategy r); simpl; split;
    try reflexivity; tauto.
Qed.

Lemma dispatch_current uuid req r :
  Reasoner.currentStrategy (fst (Reasoner.dispatch uuid req r))
  = Reasoner.currentStrategy r.
Proof.
  unfold Reasoner.dispatch, bind, gets, Reasoner.onStore, Reasoner.onAStar,
    Reasoner.onCSP, Reasoner.onHybrid.
  destruct (Reasoner.currentStrategy r) eqn:E.
  - now destruct (BeamSearch_processThought uuid req (Reasoner.stateManager r)).
  - now destruct (MCTS_processThought uuid req (Reasoner.stateManager r)).
  - now destruct (AStar.processThought uuid req _).
  - now destruct (CSP.processThought uuid req _).
  - now destruct (Hybrid.processThought uuid req _).
Qed.

Lemma dispatch_name uuid req r :
  Reasoner.currentNameOf (fst (Reasoner.dispatch uuid req r))
  = Reasoner.currentNameOf r.
Proof.
  unfold Reasoner.currentNameOf. now rewrite dispatch_current.
Qed.

(** [processThought] of the dispatcher on a request without
    [problemType], stage by stage. *)
Lemma Reasoner_plain_run uuid req r :
  req_problemType req = None ->
  Reasoner.processThought uuid req r =
  let r1 := match truthyStr (strategyType req) with
            | Some s => match Map_get s Reasoner.strategies with
                        | Some i => Reasoner.withCurrent i r
                        | None => r
                        end
            | None => r
            end in
  match Reasoner.dispatch uuid req r1 with
  | (r2, inl e) => (r2, inl e)
  | (r2, inr response) =>
      (r2, inr (Reasoner.stamp response (Reasoner.currentNameOf r2)
                  None None None))
  end.
Proof.
  intros Hp. unfold Reasoner.processThought, Reasoner._isGameDevRequest.
  rewrite Hp. cbv zeta.
  destruct (truthyStr (strategyType req)) as [s|];
    [destruct (Map_get s Reasoner.strategies) as [i|]|];
    unfold bind at 1, modify, ret;
    (rewrite bind_run;
     match goal with
     | |- context [Reasoner.dispatch uuid req ?x] =>
         destruct (Reasoner.dispatch uuid req x) as [r2 [e|response]]
     end; reflexivity).
Qed.

(** X16. On a request without [problemType], a [strategyType] that is
    registered becomes the current strategy before the request is
    processed; an unregistered or absent one is ignored and the current
    strategy is retained.  Either way an answer is stamped with the
    name of the strategy that is current when the call ends. *)
Theorem X16_explicit_strategy_or_retained
  (uuid : string) (req : ReasoningRequest) (r : Reasoner.t) :
  req_problemType req = None ->
  let r' := fst (Reasoner.processThought uuid req r) in
  (forall s, truthyStr (strategyType req) = Some s ->
             In s reasonerNames ->
             Reasoner.currentNameOf r' = s /\
             Map_get s Reasoner.strategies = Some (Reasoner.currentStrategy r')) /\
  (forall s, truthyStr (strategyType req) = Some s ->
             ~ In s reasonerNames ->
             Reasoner.currentStrategy r' = Reasoner.currentStrategy r) /\
  (truthyStr (strategyType req) = None ->
   Reasoner.currentStrategy r' = Reasoner.currentStrategy r) /\
  (forall resp, snd (Reasoner.processThought uuid req r) = inr resp ->
                strategyUsed resp = Some (Reasoner.currentNameOf r')).
Proof.
  intros Hp r'. unfold r'. rewrite Reasoner_plain_run by exact Hp. cbv zeta.
  set (r1 := match truthyStr (strategyType req) with
             | Some s => match Map_get s Reasoner.strategies with
                         | Some i => Reasoner.withCurrent i r
                         | None => r
                         end
             | None => r
             end).
  pose proof (dispatch_current uuid req r1) as Hcur.
  pose proof (dispatch_name uuid req r1) as Hname.
  assert (Hfst : fst (match Reasoner.dispatch uuid req r1 with
                      | (r2, inl e) => (r2, inl e)
                      | (r2, inr response) =>
                          (r2, inr (Reasoner.stamp response
                                      (Reasoner.currentNameOf r2) None None None))
                      end) = fst (Reasoner.dispatch uuid req r1)).
  { now destruct (Reasoner.dispatch uuid req r1) as [r2 [e|response]]. }
  rewrite Hfst, Hcur, Hname.
  split; [|split; [|split]].
  - intros s Hs Hin. unfold r1. rewrite Hs.
    assert (Hh : Map_has s Reasoner.strategies = true)
      by (apply Map_has_In; exact Hin).
    unfold Map_has in Hh.
    destruct (Map_get s Reasoner.strategies) as [i|] eqn:Hg; [|discriminate].
    split; [now apply registered_name | reflexivity].
  - intros s Hs Hout. unfold r1. rewrite Hs.
    destruct (Map_get s Reasoner.strategies) as [i|] eqn:Hg; [|reflexivity].
    elim Hout. apply Map_get_In in Hg.
    change reasonerNames with (Map_keys Reasoner.strategies).
    unfold Map_keys. apply in_map_iff. now exists (s, i).
  - intros Hs. unfold r1. now rewrite Hs.
  - intros resp.
    destruct (Reasoner.dispatch uuid req r1) as [r2 [e|response]];
      [discriminate|].
    simpl in Hname. simpl. intros H. inversion H. simpl. now rewrite Hname.
Qed.

(** X17. The name of the current strategy is always one of the five
    registered identifiers, the one under which the current object is
    registered; after [setStrategy(s)] with a registered [s],
    [getCurrentStrategyName] returns [s]. *)
Theorem X17_strategy_name_round_trip (s : string) (r : Reasoner.t) :
  In (Reasoner.currentNameOf r) reasonerNames /\
  Map_get (Reasoner.currentNameOf r) Reasoner.strategies
    = Some (Reasoner.currentStrategy r) /\
  (In s reasonerNames ->
   exists r',
     Reasoner.setStrategy s r = (r', inr tt) /\
     Reasoner.getCurrentStrategyName r' = (r', inr s)).
Proof.
  destruct (current_registered r) as [H1 H2].
  split; [exact H1|]. split; [exact H2|].
  intros Hin. unfold Reasoner.setStrategy.
  assert (Hh : Map_has s Reasoner.strategies = true).
  { apply Map_has_In. exact Hin. }
  rewrite Hh. cbn [negb]. unfold Map_has in Hh.
  destruct (Map_get s Reasoner.strategies) as [i|] eqn:Hg; [|discriminate].
  exists (Reasoner.withCurrent i r). split; [reflexivity|].
  unfold Reasoner.getCurrentStrategyName, gets.
  now rewrite (@registered_name s i r Hg).
Qed.

Lemma default_config (pt : string) :
  exists d i,
    Reasoner._getDefaultConfigForProblemType pt = Some d /\
    Map_get (d_strategy d) Reasoner.strategies = Some i /\
    (In pt Reasoner.knownTypes -> Map_get pt CONFIG.gameDevDefaults = Some d) /\
    (~ In pt Reasoner.knownTypes ->
     Map_get "mechanics" CONFIG.gameDevDefaults = Some d).
Proof.
  unfold Reasoner._getDefaultConfigForProblemType.
  destruct (existsb (fun k => (k =? pt)%string) Reasoner.knownTypes) eqn:E.
  - apply existsb_exists in E. destruct E as [k [Hin Hk]].
    apply String.eqb_eq in Hk. subst k.
    unfold Reasoner.knownTypes in Hin. simpl in Hin.
    repeat destruct Hin as [Hin|Hin]; try contradiction; subst pt;
      eexists; eexists; (split; [reflexivity|]);
      (split; [reflexivity|]); split; intros H; try reflexivity;
      exfalso; apply H; unfold Reasoner.knownTypes; simpl; tauto.
  - eexists. eexists. split; [reflexivity|]. split; [reflexivity|].
    split; [|reflexivity].
    intros Hin. exfalso.
    assert (Ht : existsb (fun k => (k =? pt)%string) Reasoner.knownTypes = true).
    { apply existsb_exists. exists pt. split; [exact Hin | apply String.eqb_refl]. }
    congruence.
Qed.

(** X18. Every problem type has a default bundle: a known type its
    own, any other string the bundle of [mechanics]; and the strategy
    that the bundle names is always a registered one. *)
Theorem X18_default_bundle_always_exists (pt : string) :
  exists d,
    Reasoner._getDefaultConfigForProblemType pt = Some d /\
    In (d_strategy d) reasonerNames /\
    (In pt Reasoner.knownTypes -> Map_get pt CONFIG.gameDevDefaults = Some d) /\
    (~ In pt Reasoner.knownTypes ->
     Map_get "mechanics" CONFIG.gameDevDefaults = Some d).
Proof.
  destruct (default_config pt) as [d [i [H1 [H2 [H3 H4]]]]].
  exists d. split; [exact H1|]. split; [|now split].
  apply Map_get_In in H2.
  change reasonerNames with (Map_keys Reasoner.strategies).
  unfold Map_keys. apply in_map_iff. now exists (d_strategy d, i).
Qed.

(** [processThought] of the dispatcher on a request with a
    [problemType], stage by stage. *)
Lemma Reasoner_gameDev_run uuid req r pt :
  req_problemType req = Some pt ->
  let ptype := if (pt =? "")%string then "mechanics"%string else pt in
  exists (q : ReasoningRequest)
         (mk : ReasoningResponse -> string -> ReasoningResponse)
         (r1 : Reasoner.t),
    Reasoner.processThought uuid req r =
      match Reasoner.dispatch uuid q r1 with
      | (r2, inl e) => (r2, inl e)
      | (r2, inr response) =>
          (r2, inr (mk response (Reasoner.currentNameOf r2)))
      end /\
    (forall response name,
        strategyUsed (mk response name) = Some name /\
        problemType (mk response name) = Some ptype /\
        exists steps, recommendedNextSteps (mk response name) = Some steps) /\
    (truthyStr (strategyType req) = None ->
     exists d,
       Reasoner._getDefaultConfigForProblemType ptype = Some d /\
       Reasoner.currentNameOf r1 = d_strategy d /\
       Map_get (d_strategy d) Reasoner.strategies
         = Some (Reasoner.currentStrategy r1)) /\
    (forall s, truthyStr (strategyType req) = Some s -> r1 = r).
Proof.
  intros Hp ptype.
  unfold Reasoner.processThought, Reasoner._isGameDevRequest.
  rewrite Hp. unfold Reasoner._processGameDevRequest.
  rewrite Hp. cbn [truthyStr].
  replace (match (if (pt =? "")%string then None else Some pt) with
           | Some p => p
           | None => "mechanics"%string
           end) with ptype
    by (unfold ptype; now destruct (String.eqb pt "")).
  destruct (default_config ptype) as [d [i [Hd [Hi _]]]].
  rewrite Hd.
  destruct (truthyStr (strategyType req)) as [s|] eqn:Hs; cbv iota.
  - match goal with
    | |- context [Reasoner.dispatch uuid ?q] =>
        exists q,
          (fun response name =>
             Reasoner.stamp response name (Some ptype)
               (Some (Reasoner._generateNextSteps response q))
               (Some (branchingFactor q, evaluationMetrics q,
                      Reasoner._calculateProblemTypeAlignment ptype name))),
          r;
        split; [|split; [|split]];
        [ unfold bind, ret, modify, Reasoner.getCurrentStrategyName, gets;
          destruct (Reasoner.dispatch uuid q r) as [r2 [e|response]];
          reflexivity
        | intros response name; simpl;
          split; [reflexivity|]; split; [reflexivity|];
          eexists; reflexivity
        | discriminate
        | reflexivity ]
    end.
  - rewrite Hi.
    match goal with
    | |- context [Reasoner.dispatch uuid ?q] =>
        exists q,
          (fun response name =>
             Reasoner.stamp response name (Some ptype)
               (Some (Reasoner._generateNextSteps response q))
               (Some (branchingFactor q, evaluationMetrics q,
                      Reasoner._calculateProblemTypeAlignment ptype name))),
          (Reasoner.withCurrent i r);
        split; [|split; [|split]];
        [ unfold bind, ret, modify, Reasoner.getCurrentStrategyName, gets;
          destruct (Reasoner.dispatch uuid q (Reasoner.withCurrent i r))
            as [r2 [e|response]];
          reflexivity
        | intros response name; simpl;
          split; [reflexivity|]; split; [reflexivity|];
          eexists; reflexivity
        | intros _; exists d; split; [reflexivity|];
          split; [now apply registered_name | exact Hi]
        | discriminate ]
    end.
Qed.

(** X19. On a request that carries a [problemType], the current
    strategy becomes the default strategy of the problem type when the
    request names no strategy, and stays as it was when the request
    names one, registered or not: on this path an explicit
    [strategyType] does not switch the strategy.  An answer is stamped
    with the name of the current strategy and with the problem type,
    [mechanics] standing in for an empty one. *)
Theorem X19_game_dev_request_strategy
  (uuid : string) (req : ReasoningRequest) (r : Reasoner.t) (pt : string) :
  req_problemType req = Some pt ->
  let ptype := if (pt =? "")%string then "mechanics"%string else pt in
  let r' := fst (Reasoner.processThought uuid req r) in
  (truthyStr (strategyType req) = None ->
   exists d,
     Reasoner._getDefaultConfigForProblemType ptype = Some d /\
     Reasoner.currentNameOf r' = d_strategy d /\
     Map_get (d_strategy d) Reasoner.strategies
       = Some (Reasoner.currentStrategy r')) /\
  (forall s, truthyStr (strategyType req) = Some s ->
             Reasoner.currentStrategy r' = Reasoner.currentStrategy r) /\
  (forall resp, snd (Reasoner.processThought uuid req r) = inr resp ->
     strategyUsed resp = Some (Reasoner.currentNameOf r') /\
     problemType resp = Some ptype /\
     exists steps, recommendedNextSteps resp = Some steps).
Proof.
  intros Hp ptype r'. unfold r'.
  destruct (@Reasoner_gameDev_run uuid req r pt Hp)
    as [q [mk [r1 [Hrun [Hmk [Hdef Hkeep]]]]]].
  fold ptype in Hmk, Hdef. rewrite Hrun.
  pose proof (dispatch_current uuid q r1) as Hcur.
  pose proof (dispatch_name uuid q r1) as Hname.
  destruct (Reasoner.dispatch uuid q r1) as [r2 [e|response]];
    simpl in Hcur, Hname; simpl fst; simpl snd.
  - split; [|split].
    + intros Hs. destruct (Hdef Hs) as [d [H1 [H2 H3]]].
      exists d. rewrite Hname, Hcur. now repeat split.
    + intros s Hs. rewrite Hcur. now rewrite (Hkeep s Hs).
    + intros resp H. discriminate.
  - split; [|split].
    + intros Hs. destruct (Hdef Hs) as [d [H1 [H2 H3]]].
      exists d. rewrite Hname, Hcur. now repeat split.
    + intros s Hs. rewrite Hcur. now rewrite (Hkeep s Hs).
    + intros resp H. inversion H; subst. apply Hmk.
Qed.

Lemma member_own {V} key (o : list (string * V)) v :
  member key o = Own v -> In (key, v) o.
Proof.
  unfold member. destruct (find _ o) as [[k v']|] eqn:E.
  - intros H. inversion H; subst. apply find_some in E.
    destruct E as [Hin Hk]. simpl in Hk. apply String.eqb_eq in Hk.
    now subst k.
  - destruct (existsb _ _); discriminate.
Qed.

Lemma member_inherited {V} key (o : list (string * V)) :
  member key o = Inherited -> In key Object_prototype.
Proof.
  unfold member. destruct (find _ o); [discriminate|].
  destruct (existsb _ _) eqn:E; [|discriminate].
  intros _. apply existsb_exists in E. destruct E as [k [Hin Hk]].
  apply String.eqb_eq in Hk. now subst k.
Qed.

(** Every entry of the table lies between 0.4 and 0.9. *)
Lemma alignmentMap_entries pt row st a :
  In (pt, row) Reasoner.alignmentMap -> In (st, a) row ->
  4 # 10 <= a /\ a <= 9 # 10 /\ Qeq_bool a 0 = false.
Proof.
  unfold Reasoner.alignmentMap. simpl. intros Hrow Ha.
  repeat destruct Hrow as [Hrow|Hrow]; try contradiction;
    inversion Hrow; subst row; simpl in Ha;
    repeat destruct Ha as [Ha|Ha]; try contradiction;
    inversion Ha; subst a;
    (split; [unfold Qle; simpl; lia|]; split; [unfold Qle; simpl; lia|];
     reflexivity).
Qed.

(** X20. For a problem type and a strategy neither of which names a
    property that object literals inherit from [Object.prototype], the
    alignment is a number between 0.4 and 0.9: the entry of the table,
    or 0.5 for a pair that the table does not list. *)
Theorem X20_alignment_bounds (problemType strategy : string) :
  ~ In problemType Object_prototype ->
  ~ In strategy Object_prototype ->
  exists q,
    Reasoner._calculateProblemTypeAlignment problemType strategy = Aligned q /\
    4 # 10 <= q /\ q <= 9 # 10 /\
    ((exists row, In (problemType, row) Reasoner.alignmentMap /\
                  In (strategy, q) row) \/
     q = 5 # 10).
Proof.
  intros Hp Hs. unfold Reasoner._calculateProblemTypeAlignment.
  assert (Hhalf : 4 # 10 <= 5 # 10 /\ 5 # 10 <= 9 # 10)
    by (split; unfold Qle; simpl; lia).
  destruct (member problemType Reasoner.alignmentMap) as [row| |] eqn:Hrow.
  - destruct (member strategy row) as [a| |] eqn:Ha.
    + apply member_own in Hrow. apply member_own in Ha.
      destruct (@alignmentMap_entries _ _ _ _ Hrow Ha) as [Hlo [Hhi Hnz]].
      exists a. rewrite Hnz. split; [reflexivity|].
      split; [exact Hlo|]. split; [exact Hhi|]. left. eauto.
    + apply member_inherited in Ha. contradiction.
    + exists (5 # 10). split; [reflexivity|]. split; [apply Hhalf|].
      split; [apply Hhalf|]. now right.
  - apply member_inherited in Hrow. contradiction.
  - exists (5 # 10). split; [reflexivity|]. split; [apply Hhalf|].
    split; [apply Hhalf|]. now right.
Qed.

(** X21. [handle] sets the error flag exactly when the dispatcher
    threw.  Otherwise it returns the dispatcher's response as it is,
    without error fields, and adds the three export payloads exactly
    when the request carries a [problemType]. *)
Theorem X21_handle_flags_error_iff_thrown
  (uuid : string) (req : ReasoningRequest) (w : Engine.t) :
  let out := snd (Engine.handle uuid req w) in
  (Engine.error out = Some true <->
   exists r' e,
     Reasoner.processThought uuid req (Engine.reasoner w) = (r', inl e)) /\
  (forall r' res,
      Reasoner.processThought uuid req (Engine.reasoner w) = (r', inr res) ->
      Engine.response out = res /\
      Engine.error out = None /\
      Engine.errorMessage out = None /\
      fst (Engine.handle uuid req w) = {| Engine.reasoner := r' |} /\
      (req_problemType req = None ->
       Engine.godotData out = None /\ Engine.blenderData out = None /\
       Engine.visualizationData out = None) /\
      (req_problemType req <> None ->
       Engine.godotData out <> None /\ Engine.blenderData out <> None /\
       Engine.visualizationData out <> None)).
Proof.
  intros out. unfold out, Engine.handle.
  destruct (Reasoner.processThought uuid req (Engine.reasoner w))
    as [r1 [e|res]].
  - split.
    + split; [intros _; now exists r1, e | reflexivity].
    + intros r' res H. discriminate.
  - split.
    + split.
      * destruct (req_problemType req); simpl; discriminate.
      * intros [r' [e H]]. discriminate.
    + intros r' res' H. inversion H; subst.
      destruct (req_problemType req) as [p|]; simpl;
        repeat split; try reflexivity; try discriminate; congruence.
Qed.

(** X22. After [setStrategy('csp')], a request without [problemType]
    and without [strategyType] is answered by the constraint strategy:
    the answer is stamped [csp], carries the id drawn for the node, and
    reports the constraints as satisfied when the index of constraints
    of the registered constraint strategy is empty, as it stays. *)
Theorem X22_set_csp_then_process
  (uuid : string) (req : ReasoningRequest) (r : Reasoner.t) :
  req_problemType req = None ->
  truthyStr (strategyType req) = None ->
  CSP.constraints_ (Reasoner.csp r) = [] ->
  exists r1 r2 resp,
    Reasoner.setStrategy CONSTRAINT_SATISFACTION r = (r1, inr tt) /\
    Reasoner.processThought uuid req r1 = (r2, inr resp) /\
    strategyUsed resp = Some CONSTRAINT_SATISFACTION /\
    constraintsSatisfied resp = Some true /\
    nodeId resp = uuid /\
    CSP.constraints_ (Reasoner.csp r2) = [].
Proof.
  intros Hp Hs Hidx.
  exists (Reasoner.withCurrent Reasoner.ConstraintSatisfactionStrategy r).
  rewrite Reasoner_plain_run by exact Hp. rewrite Hs. cbv zeta.
  unfold Reasoner.dispatch. rewrite bind_run. unfold gets at 1.
  cbn [Reasoner.currentStrategy Reasoner.withCurrent].
  unfold Reasoner.onCSP. rewrite CSP_process_run.
  eexists. eexists. split; [reflexivity|]. split; [reflexivity|].
  cbn [strategyUsed constraintsSatisfied nodeId Reasoner.stamp CSP.respond
       Reasoner.csp].
  split; [reflexivity|]. split; [|split; [reflexivity|]].
  - f_equal. apply check_empty. unfold merged.
    cbn [CSP.constraints_ CSP.withStore Reasoner.csp Reasoner.withCurrent].
    exact Hidx.
  - unfold merged.
    cbn [CSP.constraints_ CSP.withStore Reasoner.csp Reasoner.withCurrent].
    exact Hidx.
Qed.

(** X23. The factory builds a strategy for the five identifiers of
    the enumeration and for no other string, a different class for
    each identifier; on any other string it throws the unknown-strategy
    error that quotes the string. *)
Theorem X23_factory_accepts_the_five_identifiers (s s' : string) :
  ((exists i, Reasoner.createStrategy s = inr i) <-> In s reasonerNames) /\
  (~ In s reasonerNames ->
   Reasoner.createStrategy s =
   inl (JsError UnknownStrategy ("Unknown strategy type: " ++ s)%string)) /\
  (forall i, Reasoner.createStrategy s = inr i ->
             Reasoner.createStrategy s' = inr i -> s = s').
Proof.
  assert (Hcases : forall t,
            (In t reasonerNames /\
             ((t = BEAM_SEARCH /\ Reasoner.createStrategy t = inr Reasoner.BeamSearchStrategy) \/
              (t = MCTS /\ Reasoner.createStrategy t = inr Reasoner.MonteCarloTreeSearchStrategy) \/
              (t = A_STAR /\ Reasoner.createStrategy t = inr Reasoner.AStarSearchStrategy) \/
              (t = CONSTRAINT_SATISFACTION /\
               Reasoner.createStrategy t = inr Reasoner.ConstraintSatisfactionStrategy) \/
              (t = HYBRID /\ Reasoner.createStrategy t = inr Reasoner.HybridStrategy))) \/
            (~ In t reasonerNames /\
             Reasoner.createStrategy t =
             inl (JsError UnknownStrategy ("Unknown strategy type: " ++ t)%string))).
  { intros t. unfold Reasoner.createStrategy, reasonerNames.
    destruct (String.eqb t BEAM_SEARCH) eqn:E1;
      [apply String.eqb_eq in E1; subst; left; split; [simpl; tauto | tauto]|].
    destruct (String.eqb t MCTS) eqn:E2;
      [apply String.eqb_eq in E2; subst; left; split; [simpl; tauto | tauto]|].
    destruct (String.eqb t A_STAR) eqn:E3;
      [apply String.eqb_eq in E3; subst; left; split; [simpl; tauto | tauto]|].
    destruct (String.eqb t CONSTRAINT_SATISFACTION) eqn:E4;
      [apply String.eqb_eq in E4; subst; left; split; [simpl; tauto | tauto]|].
    destruct (String.eqb t HYBRID) eqn:E5;
      [apply String.eqb_eq in E5; subst; left; split; [simpl; tauto | tauto]|].
    right. split; [|reflexivity].
    apply String.eqb_neq in E1, E2, E3, E4, E5.
    simpl. intros [H|[H|[H|[H|[H|[]]]]]]; congruence. }
  split; [|split].
  - destruct (Hcases s) as [[Hin _]|[Hout Hf]].
    + split; [intros _; exact Hin|]. intros _.
      destruct (Hcases s) as [[_ H]|[Hout _]]; [|contradiction].
      destruct H as [[_ H]|[[_ H]|[[_ H]|[[_ H]|[_ H]]]]]; eexists; exact H.
    + split; [intros [i Hi]; congruence | intros Hin; contradiction].
  - intros Hout. destruct (Hcases s) as [[Hin _]|[_ Hf]]; [contradiction | exact Hf].
  - intros i Hs Hs'.
    destruct (Hcases s) as [[_ H]|[_ Hf]]; [|congruence].
    destruct (Hcases s') as [[_ H']|[_ Hf']]; [|congruence].
    destruct H as [[E H]|[[E H]|[[E H]|[[E H]|[E H]]]]];
      destruct H' as [[E' H']|[[E' H']|[[E' H']|[[E' H']|[E' H']]]]];
      subst; try reflexivity; congruence.
Qed.

End BoundaryMore.

(** * Further worked examples *)

(** Score 4 on a budget of 3 steps at depth 0: h = 3 * 0.6. *)
Lemma X1_example :
  0 <= AStar._calculateHeuristic Sample.childA (Sample.request "x" None true) /\
  AStar._calculateHeuristic Sample.childA (Sample.request "x" None true)
  <= stepsBudget (Sample.request "x" None true) - depth Sample.childA /\
  AStar._calculateHeuristic Sample.childA (Sample.request "x" None true) == 18 # 10.
Proof.
  destruct (@X1_heuristic_bounds Sample.childA (Sample.request "x" None true))
    as [H1 [H2 _]]; try (unfold Qle; simpl; lia).
  split; [exact H1|]. split; [exact H2 | reflexivity].
Defined.

Lemma X2_example :
  AStar._calculateHeuristic Sample.childA (Sample.request "x" None true)
  <= AStar._calculateHeuristic Sample.root (Sample.request "x" None true).
Proof.
  apply (@X2_heuristic_falls_with_score Sample.root Sample.childA
           (Sample.request "x" None true)).
  - reflexivity.
  - unfold Qle. simpl. lia.
  - unfold Qle. simpl. lia.
Defined.

Lemma X3_example :
  (exists w' resp,
      AStar.processThought (base := Sample.base) "n1"
        (Sample.request "first" None true) (AStar.new (Sample.store []))
      = (w', inr resp) /\
      AStar.openSet w' = [] /\ openSetSize resp = Some 0%nat /\
      bestScore resp = Some NegInfinity) /\
  (exists w' e,
      AStar.processThought (base := Sample.base) "n1"
        (Sample.request "first" (Some "missing") true) (AStar.new (Sample.store []))
      = (w', inl e) /\
      Map_keys (AStar.openSet w') = ["n1"%string] /\ AStar.closedSet w' = []).
Proof.
  split.
  - destruct (@X3_open_set_drained_or_left Sample.base "n1"
                (Sample.request "first" None true)
                (AStar.new (Sample.store [])) eq_refl) as [Hok _].
    destruct (AStar.processThought (base := Sample.base) "n1"
                (Sample.request "first" None true) (AStar.new (Sample.store [])))
      as [w' [e|resp]] eqn:Hrun; [vm_compute in Hrun; discriminate|].
    exists w', resp. split; [reflexivity|].
    destruct (Hok w' resp eq_refl) as [H1 [_ [H3 H4]]].
    split; [exact H1|]. now split.
  - destruct (@X3_open_set_drained_or_left Sample.base "n1"
                (Sample.request "first" (Some "missing") true)
                (AStar.new (Sample.store [])) eq_refl) as [_ Hthrow].
    destruct (AStar.processThought (base := Sample.base) "n1"
                (Sample.request "first" (Some "missing") true)
                (AStar.new (Sample.store [])))
      as [w' [e|resp]] eqn:Hrun; [|vm_compute in Hrun; discriminate].
    exists w', e. split; [reflexivity|].
    destruct (Hthrow w' e eq_refl) as [H1 H2].
    split; [now rewrite H1 | exact H2].
Defined.

Lemma X4_example :
  let req := Sample.request "next" (Some "r") true in
  exists n,
    StateManager.getNode "n"
      (AStar.stateManager
         (fst (AStar.processThought (base := Sample.base) "n" req
                 (AStar.new Sample.family)))) = Some n /\
    id n = "n"%string /\ parentId n = Some "r"%string /\ score n == 2.
Proof.
  intros req.
  destruct (@X4_created_node_is_stored Sample.base "n" req
              (AStar.new Sample.family) (CSP.new Sample.family))
    as [Ha _].
  - discriminate.
  - vm_compute. lia.
  - vm_compute. lia.
  - eexists. split; [exact Ha|]. repeat split.
Defined.

Lemma X5_example :
  (exists best,
      In best (seen Sample.oneDone) /\ isComplete best = true /\
      AStar.getBestPath Sample.oneDone =
      (Sample.oneDone,
       StateManager.getPath (id best) (AStar.stateManager Sample.oneDone))) /\
  (exists best f,
      In best (seen Sample.twoOpen) /\
      fOf (AStar.stateManager Sample.twoOpen) best = inr f /\
      AStar.getBestPath Sample.twoOpen =
      (Sample.twoOpen,
       StateManager.getPath (id best) (AStar.stateManager Sample.twoOpen))).
Proof.
  destruct (X5_astar_best_path Sample.oneDone) as [Hdone _].
  destruct (X5_astar_best_path Sample.twoOpen) as [_ [_ Hopen]].
  split.
  - destruct Hdone as [best [Hin [Hc [_ Hrun]]]].
    + exists Sample.finished. split; [right; now left | reflexivity].
    + now exists best.
  - destruct Hopen as [best [f [Hin [Hf [_ Hrun]]]]].
    + intros n [H|[H|[]]]; subst n; reflexivity.
    + discriminate.
    + intros n [H|[H|[]]]; subst n; eexists; reflexivity.
    + now exists best, f.
Defined.

Lemma X6_example :
  CSP._getUnassignedVariables Sample.coloured
  = (Sample.coloured, inr ["y"%string]) /\
  exists l, CSP._getUnassignedVariables Sample.coloured
            = (Sample.coloured, inr l) /\ NoDup l.
Proof.
  split; [reflexivity|].
  destruct (@X6_unassigned_is_domains_minus_assignments Sample.base Sample.coloured)
    as [[l [Hrun [_ Hnd]]] _].
  exists l. split; [exact Hrun|]. apply Hnd.
  repeat constructor; simpl; intuition discriminate.
Defined.

(** Of the array [x] of one value and the object [y] whose [length] is
    5, the selection takes [x]. *)
Lemma X7_example :
  numericDomains Sample.sized /\
  exists r,
    CSP._selectUnassignedVariable (engine := Sample.engine) Sample.sized
      = (Sample.sized, inr r) /\
    match r with
    | None => CSP.unassignedOf Sample.sized = []
    | Some v =>
        v = "x"%string /\
        In v (CSP.unassignedOf Sample.sized) /\
        forall u, In u (CSP.unassignedOf Sample.sized) ->
          sizeOfDomain Sample.sized v <= sizeOfDomain Sample.sized u
    end.
Proof.
  assert (Hnum : numericDomains Sample.sized).
  { intros u [H|[H|[]]]; subst u; eexists; reflexivity. }
  split; [exact Hnum|].
  destruct (X7_select_smallest_domain (engine := Sample.engine) Hnum)
    as [r [Hrun Hr]].
  exists r. split; [exact Hrun|].
  vm_compute in Hrun. inversion Hrun; subst r.
  split; [reflexivity | exact Hr].
Defined.

Lemma X9_example :
  exists w' resp b,
    CSP.processThought (base := Sample.base) "n"
      (Sample.request "next" (Some "r") true) (CSP.new Sample.family)
    = (w', inr resp) /\
    bestScore resp = Some (Fin b) /\ res_score resp <= b /\ 2 <= b.
Proof.
  destruct (@X9_csp_best_score Sample.base "n"
              (Sample.request "next" (Some "r") true) (CSP.new Sample.family))
    as [w' [resp [b [Hrun [Hb [Hs [Hp _]]]]]]].
  exists w', resp, b. split; [exact Hrun|]. split; [exact Hb|].
  split; [exact Hs|].
  destruct (Hp Sample.root eq_refl) as [H _]. exact H.
Defined.

Lemma X10_example :
  let req := Sample.withMetrics ["clarity"%string] (Sample.request "x" None true) in
  Hybrid.goalClarityThreshold <= Hybrid.goalClarityOf req /\
  ~ Hybrid.goalClarityThreshold <= Hybrid.goalClarityOf (Sample.request "x" None true).
Proof.
  intros req.
  destruct (X10_goal_clarity_is_metrics_supplied req (Hybrid.new (Sample.store [])))
    as [g [Hrun [_ Hiff]]].
  destruct (X10_goal_clarity_is_metrics_supplied (Sample.request "x" None true)
              (Hybrid.new (Sample.store [])))
    as [g' [Hrun' [_ Hiff']]].
  inversion Hrun; subst g. inversion Hrun'; subst g'.
  split.
  - apply Hiff. eexists. split; [reflexivity | discriminate].
  - intros H. apply Hiff' in H. destruct H as [ms [E _]]. discriminate.
Defined.

Lemma X11_example :
  Hybrid.constraintDensityOf (Sample.request "You MUST; it is Required" None true)
  = Hybrid.constraintDensityOf (Sample.request "you must; it is required" None true) /\
  Hybrid.constraintDensityOf (Sample.request "You MUST; it is Required" None true)
  = 2%nat.
Proof.
  destruct (X11_constraint_density
              (Sample.request "you must; it is required" None true))
    as [_ [_ Hcase]].
  split; [|reflexivity].
  apply Hcase; reflexivity.
Defined.

Lemma X12_example :
  exists w',
    Hybrid._evaluateStrategySwitch (Sample.request "x" None true)
      (Hybrid.new (Sample.store [])) = (w', inr tt) /\
    Hybrid.activeNameOf w' = MCTS.
Proof.
  destruct (X12_young_store_never_beam_search (Hybrid.new (Sample.store []))
              (Sample.request "x" None true))
    as [w' [Hrun [_ [_ [_ Hm]]]]].
  - simpl. lia.
  - reflexivity.
  - exists w'. split; [exact Hrun|]. apply Hm.
    + vm_compute. lia.
    + intros [ms [E _]]. discriminate.
Defined.

Lemma X13_example :
  Hybrid.activeNameOf
    (fst (Hybrid._switchStrategy "a_star" (Hybrid.new (Sample.store []))))
  = "a_star"%string /\
  Hybrid._switchStrategy "hybrid" (Hybrid.new (Sample.store []))
  = (Hybrid.new (Sample.store []), inr tt).
Proof.
  destruct (X13_active_name_round_trip (Hybrid.new (Sample.store [])) "a_star")
    as [_ [_ [Hreg _]]].
  destruct (X13_active_name_round_trip (Hybrid.new (Sample.store [])) "hybrid")
    as [_ [_ [_ Hun]]].
  split.
  - apply Hreg. right. right. now left.
  - apply Hun. unfold hybridNames. simpl. intuition discriminate.
Defined.

Lemma X14_example :
  exists w' resp,
    Hybrid.processThought (base := Sample.base) "n1"
      (Sample.request "x" None true) (Hybrid.new (Sample.store []))
    = (w', inr resp) /\
    (exists name, activeStrategy resp = Some name /\ In name hybridNames) /\
    availableStrategies resp = Some hybridNames.
Proof.
  destruct (Hybrid.processThought (base := Sample.base) "n1"
              (Sample.request "x" None true) (Hybrid.new (Sample.store [])))
    as [w' [e|resp]] eqn:Hrun; [vm_compute in Hrun; discriminate|].
  exists w', resp. split; [reflexivity|].
  destruct (@X14_hybrid_answer_names_its_delegate Sample.base "n1"
              (Sample.request "x" None true) (Hybrid.new (Sample.store []))
              w' resp Hrun) as [[name [Hn [Hin _]]] [Hav _]].
  split; [now exists name | exact Hav].
Defined.

Lemma X15_example :
  exists w' resp,
    Hybrid.processThought (base := Sample.base) "n1"
      (Sample.withStrategy "csp" (Sample.request "x" None true))
      (Hybrid.new (Sample.store []))
    = (w', inr resp) /\
    activeStrategy resp = Some "csp"%string /\
    constraintsSatisfied resp = Some true.
Proof.
  destruct (@X15_hybrid_csp_request Sample.base "n1"
              (Sample.withStrategy "csp" (Sample.request "x" None true))
              (Hybrid.new (Sample.store [])) eq_refl)
    as [w' [resp [Hrun [Hname [_ [_ Hsat]]]]]].
  exists w', resp. split; [exact Hrun|]. split; [exact Hname|].
  apply Hsat. reflexivity.
Defined.

Lemma X16_example :
  Reasoner.currentNameOf
    (fst (Reasoner.processThought (base := Sample.base) "n1"
            (Sample.withStrategy "a_star" (Sample.request "x" None true))
            Reasoner.new)) = "a_star"%string /\
  Reasoner.currentStrategy
    (fst (Reasoner.processThought (base := Sample.base) "n1"
            (Sample.withStrategy "dfs" (Sample.request "x" None true))
            Reasoner.new)) = Reasoner.currentStrategy Reasoner.new.
Proof.
  destruct (@X16_explicit_strategy_or_retained Sample.base "n1"
              (Sample.withStrategy "a_star" (Sample.request "x" None true))
              Reasoner.new eq_refl) as [Hreg _].
  destruct (@X16_explicit_strategy_or_retained Sample.base "n1"
              (Sample.withStrategy "dfs" (Sample.request "x" None true))
              Reasoner.new eq_refl) as [_ [Hun _]].
  split.
  - apply (Hreg "a_star"%string); [reflexivity|].
    right. right. now left.
  - apply (Hun "dfs"%string); [reflexivity|].
    unfold reasonerNames. simpl. intuition discriminate.
Defined.

Lemma X17_example :
  exists r',
    Reasoner.setStrategy "mcts" Reasoner.new = (r', inr tt) /\
    Reasoner.getCurrentStrategyName r' = (r', inr "mcts"%string).
Proof.
  destruct (X17_strategy_name_round_trip "mcts" Reasoner.new) as [_ [_ H]].
  apply H. right. now left.
Defined.

Lemma X18_example :
  (exists d, Reasoner._getDefaultConfigForProblemType "puzzles" = Some d /\
             d_strategy d = BEAM_SEARCH) /\
  (exists d, Reasoner._getDefaultConfigForProblemType "ui" = Some d /\
             d_strategy d = A_STAR).
Proof.
  split.
  - destruct (X18_default_bundle_always_exists "puzzles") as [d [Hd [_ [_ Hm]]]].
    exists d. split; [exact Hd|].
    assert (E : Map_get "mechanics" CONFIG.gameDevDefaults = Some d).
    { apply Hm. unfold Reasoner.knownTypes. simpl. intuition discriminate. }
    inversion E. reflexivity.
  - destruct (X18_default_bundle_always_exists "ui") as [d [Hd [_ [Hk _]]]].
    exists d. split; [exact Hd|].
    assert (E : Map_get "ui" CONFIG.gameDevDefaults = Some d).
    { apply Hk. unfold Reasoner.knownTypes. simpl. tauto. }
    inversion E. reflexivity.
Defined.

Lemma X19_example :
  let ui := Sample.withProblemType "ui" (Sample.request "x" None true) in
  Reasoner.currentNameOf
    (fst (Reasoner.processThought (base := Sample.base) "n1" ui Reasoner.new))
  = "a_star"%string /\
  Reasoner.currentStrategy
    (fst (Reasoner.processThought (base := Sample.base) "n1"
            (Sample.withStrategy "csp" ui) Reasoner.new))
  = Reasoner.currentStrategy Reasoner.new.
Proof.
  intros ui.
  destruct (@X19_game_dev_request_strategy Sample.base "n1" ui Reasoner.new
              "ui" eq_refl) as [Hdef _].
  destruct (@X19_game_dev_request_strategy Sample.base "n1"
              (Sample.withStrategy "csp" ui) Reasoner.new "ui" eq_refl)
    as [_ [Hkeep _]].
  split.
  - destruct (Hdef eq_refl) as [d [Hd [Hname _]]].
    rewrite Hname. inversion Hd. reflexivity.
  - apply (Hkeep "csp"%string). reflexivity.
Defined.

(** The alignment of [ai] with [mcts] is the 0.9 of the table; a key
    that object literals inherit from [Object.prototype] leads out of
    the table. *)
Lemma X20_example :
  exists q,
    Reasoner._calculateProblemTypeAlignment "ai" MCTS = Aligned q /\
    4 # 10 <= q /\ q <= 9 # 10 /\
    ((exists row, In ("ai"%string, row) Reasoner.alignmentMap /\
                  In (MCTS, q) row) \/
     q = 5 # 10).
Proof.
  apply (@X20_alignment_bounds "ai" MCTS); simpl; intuition discriminate.
Defined.

Example alignment_of_inherited_keys :
  Reasoner._calculateProblemTypeAlignment "ai" MCTS = Aligned (9 # 10) /\
  Reasoner._calculateProblemTypeAlignment "ai" "valueOf" = BuiltIn ["valueOf"] /\
  Reasoner._calculateProblemTypeAlignment "constructor" "length"
    = BuiltIn ["constructor"; "length"].
Proof. repeat split. Qed.

Lemma X21_example :
  let plain := Sample.request "x" None true in
  let bad := Sample.withStrategy "a_star"
               (Sample.request "x" (Some "missing") true) in
  Engine.error (snd (Engine.handle (base := Sample.base) "n1" bad Engine.new))
  = Some true /\
  Engine.error (snd (Engine.handle (base := Sample.base) "n1" plain Engine.new))
  = None /\
  Engine.godotData
    (snd (Engine.handle (base := Sample.base) "n1"
            (Sample.withProblemType "ui" plain) Engine.new)) <> None.
Proof.
  intros plain bad.
  destruct (@X21_handle_flags_error_iff_thrown Sample.base "n1" bad Engine.new)
    as [Hiff _].
  destruct (@X21_handle_flags_error_iff_thrown Sample.base "n1" plain Engine.new)
    as [_ Hok].
  destruct (@X21_handle_flags_error_iff_thrown Sample.base "n1"
              (Sample.withProblemType "ui" plain) Engine.new)
    as [_ Hdev].
  split; [|split].
  - apply Hiff.
    destruct (Reasoner.processThought (base := Sample.base) "n1" bad
                (Engine.reasoner Engine.new))
      as [r' [e|res]] eqn:Hrun; [|vm_compute in Hrun; discriminate].
    now exists r', e.
  - destruct (Reasoner.processThought (base := Sample.base) "n1" plain
                (Engine.reasoner Engine.new))
      as [r' [e|res]] eqn:Hrun; [vm_compute in Hrun; discriminate|].
    destruct (Hok r' res eq_refl) as [_ [H _]]. exact H.
  - destruct (Reasoner.processThought (base := Sample.base) "n1"
                (Sample.withProblemType "ui" plain)
                (Engine.reasoner Engine.new))
      as [r' [e|res]] eqn:Hrun; [vm_compute in Hrun; discriminate|].
    destruct (Hdev r' res eq_refl) as [_ [_ [_ [_ [_ H]]]]].
    apply H. discriminate.
Defined.

Lemma X22_example :
  exists r1 r2 resp,
    Reasoner.setStrategy CONSTRAINT_SATISFACTION Reasoner.new = (r1, inr tt) /\
    Reasoner.processThought (base := Sample.base) "n1"
      (Sample.request "x" None false) r1 = (r2, inr resp) /\
    strategyUsed resp = Some CONSTRAINT_SATISFACTION /\
    constraintsSatisfied resp = Some true.
Proof.
  destruct (@X22_set_csp_then_process Sample.base "n1"
              (Sample.request "x" None false) Reasoner.new
              eq_refl eq_refl eq_refl)
    as [r1 [r2 [resp [H1 [H2 [H3 [H4 _]]]]]]].
  exists r1, r2, resp. now repeat split.
Defined.

Lemma X23_example :
  (exists i, Reasoner.createStrategy "hybrid" = inr i) /\
  Reasoner.createStrategy "dfs"
  = inl (JsError UnknownStrategy "Unknown strategy type: dfs").
Proof.
  destruct (X23_factory_accepts_the_five_identifiers "hybrid" "hybrid")
    as [Hiff _].
  destruct (X23_factory_accepts_the_five_identifiers "dfs" "dfs")
    as [_ [Hun _]].
  split.
  - apply Hiff. unfold reasonerNames. simpl. tauto.
  - apply Hun. unfold reasonerNames. simpl. intuition discriminate.
Defined.
